(** * A/B learning plugin: posterior store, sampler, evaluation, evolution

    Shallow embedding of [src/ab-learning.ts] (class [ABLearningPlugin]).

    Conventions of the model.
    - The SQLite database is a record of tables.  [prompt_variants] is the
      list of its rows in rowid order with the primary key checked on insert;
      [variant_performance] is a finite map from its primary key to the
      remaining columns; the two history tables are lists that only grow.
      Foreign keys are declared by the schema but the source never switches
      their enforcement on, so, as in SQLite's default configuration, they
      are not enforced.
    - Numbers that are stored, and the uniform draws of [Math.random], are
      rationals ([Q]; every IEEE double is one) with exact arithmetic.  The
      sampler leaves the rationals ([Math.sqrt], [Math.log], [Math.cos],
      [Math.pow]) and is modelled over the reals extended with both
      infinities and NaN.  Rounding, overflow and underflow of doubles are
      not modelled: what is stated of a computed value is the expression
      the code evaluates, or a bound that rounding keeps.
    - Effects ([Math.random], [crypto.randomBytes], [Date.now], the database,
      thrown exceptions, loops that need not terminate) are explicit: a
      computation maps a [World] to an [Outcome]. *)

From Stdlib Require Import QArith Qround Qminmax Reals Lra Lia ZArith String Ascii.
From Stdlib Require Lqa.
From Stdlib.Strings Require Import Byte.
From stdpp Require Import gmap strings list fin_maps sorting.

Local Open Scope string_scope.
Local Open Scope Z_scope.
Local Open Scope list_scope.

(** ** Rows and interfaces *)

(** [interface PromptVariant]; [parentId] is [None] for SQL NULL. *)
Record PromptVariant := mkPromptVariant {
  id : string;
  template : string;
  parentId : option string;
  generation : Z;
  createdAt : Z
}.

(** [interface VariantPerformance]. *)
Record VariantPerformance := mkVariantPerformance {
  variantId : string;
  alpha : Q;
  beta : Q;
  totalTrials : Z;
  avgReward : Q;
  avgLatencyMs : Q;
  avgTokenCost : Q
}.

(** [interface FeedbackRecord]. *)
Record FeedbackRecord := mkFeedbackRecord {
  fb_taskId : string;
  fb_variantId : string;
  fb_reward : Q;
  fb_latencyMs : Q;
  fb_tokenCost : Q;
  fb_success : bool;
  fb_timestamp : Z
}.

(** [interface PreferenceComparison]. *)
Record PreferenceComparison := mkPreferenceComparison {
  winnerId : string;
  loserId : string;
  pc_context : string;
  humanFeedback : bool;
  pc_timestamp : Z
}.

(** A row of [variant_performance] without its key. *)
Record PerformanceRow := mkPerformanceRow {
  row_alpha : Q;
  row_beta : Q;
  total_trials : Z;
  avg_reward : Q;
  avg_latency_ms : Q;
  avg_token_cost : Q
}.

(** A row of [feedback_records]; [success] is stored as 1 or 0. *)
Record FeedbackRow := mkFeedbackRow {
  fr_task_id : string;
  fr_variant_id : string;
  fr_reward : Q;
  fr_latency_ms : Q;
  fr_token_cost : Q;
  fr_success : Z;
  fr_timestamp : Z
}.

(** A row of [preference_comparisons]. *)
Record PreferenceRow := mkPreferenceRow {
  pr_winner_id : string;
  pr_loser_id : string;
  pr_context : string;
  pr_human_feedback : Z;
  pr_timestamp : Z
}.

(** The tables the class reads or writes ([SCHEMA]). *)
Record Database := mkDatabase {
  prompt_variants : list PromptVariant;
  variant_performance : gmap string PerformanceRow;
  feedback_records : list FeedbackRow;
  preference_comparisons : list PreferenceRow
}.

Definition emptyDatabase : Database :=
  mkDatabase [] ∅ [] [].

(** ** The world a method runs in *)

(** The host's sources of values: the n-th result of [Math.random], the n-th
    byte handed out by [crypto.randomBytes], the n-th reading of [Date.now]. *)
Record Host := mkHost {
  Math_random_src : nat -> Q;
  randomBytes_src : nat -> byte;
  Date_now_src : nat -> Z
}.

Record World := mkWorld {
  host : Host;
  random_pos : nat;
  bytes_pos : nat;
  clock_pos : nat;
  db : Database;
  explorationRate : Q
}.

Inductive Error :=
| TypeError
| SQLiteConstraint.

(** The result of running a method: a value and the world after it, an
    exception thrown in some world, or no result within the given bound on
    loop iterations. *)
Inductive Outcome (A : Type) :=
| Ok (a : A) (w : World)
| Throw (e : Error) (w : World)
| OutOfFuel.

Arguments Ok {A} a w.
Arguments Throw {A} e w.
Arguments OutOfFuel {A}.

Definition M (A : Type) : Type := World -> Outcome A.

Definition ret {A} (a : A) : M A := fun w => Ok a w.

Definition bind {A B} (m : M A) (k : A -> M B) : M B :=
  fun w =>
    match m w with
    | Ok a w' => k a w'
    | Throw e w' => Throw e w'
    | OutOfFuel => OutOfFuel
    end.

Definition throw {A} (e : Error) : M A := fun w => Throw e w.

Notation "x <- m ;; k" := (bind m (fun x => k))
  (at level 100, m at next level, right associativity).
Notation "m ;;; k" := (bind m (fun _ => k))
  (at level 100, right associativity).

Definition getDb : M Database := fun w => Ok (db w) w.

Definition setDb (d : Database) : M unit := fun w =>
  Ok tt (mkWorld (host w) (random_pos w) (bytes_pos w) (clock_pos w) d (explorationRate w)).

(** [Date.now()] *)
Definition Date_now : M Z := fun w =>
  Ok (Date_now_src (host w) (clock_pos w))
     (mkWorld (host w) (random_pos w) (bytes_pos w) (S (clock_pos w)) (db w) (explorationRate w)).

(** [Math.random()] *)
Definition Math_random : M Q := fun w =>
  Ok (Math_random_src (host w) (random_pos w))
     (mkWorld (host w) (S (random_pos w)) (bytes_pos w) (clock_pos w) (db w) (explorationRate w)).

(** ** Posterior store *)

(** [getPerformance]: the stored row, or the uniform prior Beta(1, 1). *)
Definition getPerformance (variantId : string) : M VariantPerformance :=
  d <- getDb ;;
  match variant_performance d !! variantId with
  | Some row =>
      ret (mkVariantPerformance variantId (row_alpha row) (row_beta row)
             (total_trials row) (avg_reward row) (avg_latency_ms row)
             (avg_token_cost row))
  | None =>
      ret (mkVariantPerformance variantId 1 1 0 0 0 0)
  end.

(** [getVariantStats] *)
Definition getVariantStats (variantId : string) : M VariantPerformance :=
  getPerformance variantId.

(** [INSERT OR REPLACE INTO variant_performance ...] *)
Definition insertOrReplacePerformance (k : string) (row : PerformanceRow) : M unit :=
  d <- getDb ;;
  setDb (mkDatabase (prompt_variants d) (<[k := row]> (variant_performance d))
           (feedback_records d) (preference_comparisons d)).

(** [INSERT INTO feedback_records ...] *)
Definition insertFeedbackRecord (row : FeedbackRow) : M unit :=
  d <- getDb ;;
  setDb (mkDatabase (prompt_variants d) (variant_performance d)
           (feedback_records d ++ [row]) (preference_comparisons d)).

(** [recordFeedback] *)
Definition recordFeedback (feedback : FeedbackRecord) : M unit :=
  perf <- getPerformance (fb_variantId feedback) ;;
  let newAlpha := (alpha perf + (if fb_success feedback then 1 else 0))%Q in
  let newBeta := (beta perf + (if fb_success feedback then 0 else 1))%Q in
  let newTrials := totalTrials perf + 1 in
  let newAvgReward :=
    ((avgReward perf * inject_Z (totalTrials perf) + fb_reward feedback)
       / inject_Z newTrials)%Q in
  let newAvgLatency :=
    ((avgLatencyMs perf * inject_Z (totalTrials perf) + fb_latencyMs feedback)
       / inject_Z newTrials)%Q in
  let newAvgTokenCost :=
    ((avgTokenCost perf * inject_Z (totalTrials perf) + fb_tokenCost feedback)
       / inject_Z newTrials)%Q in
  insertOrReplacePerformance (fb_variantId feedback)
    (mkPerformanceRow newAlpha newBeta newTrials newAvgReward newAvgLatency
       newAvgTokenCost) ;;;
  now <- Date_now ;;
  insertFeedbackRecord
    (mkFeedbackRow (fb_taskId feedback) (fb_variantId feedback)
       (fb_reward feedback) (fb_latencyMs feedback) (fb_tokenCost feedback)
       (if fb_success feedback then 1 else 0) now).

(** ** JavaScript numbers in the sampler *)

(** A [number] of the sampler: a real, [Infinity], [-Infinity] or [NaN].
    Zero is unsigned and counts as [+0] where the sign of a zero divisor
    matters. *)
Inductive number :=
| Fin (r : R)
| PInf
| NInf
| NaN.

Definition ofQ (q : Q) : number := Fin (Q2R q).

(** The sign of a number: [Some true] above zero, [Some false] below zero,
    [None] for zero and for [NaN]. *)
Definition num_sign (x : number) : option bool :=
  match x with
  | Fin r => if Rlt_dec 0 r then Some true
             else if Rlt_dec r 0 then Some false else None
  | PInf => Some true
  | NInf => Some false
  | NaN => None
  end.

Definition num_neg (x : number) : number :=
  match x with
  | Fin r => Fin (- r)
  | PInf => NInf
  | NInf => PInf
  | NaN => NaN
  end.

Definition num_add (x y : number) : number :=
  match x, y with
  | NaN, _ | _, NaN => NaN
  | Fin a, Fin b => Fin (a + b)
  | PInf, NInf | NInf, PInf => NaN
  | PInf, _ | _, PInf => PInf
  | NInf, _ | _, NInf => NInf
  end.

Definition num_sub (x y : number) : number := num_add x (num_neg y).

Definition num_mul (x y : number) : number :=
  match x, y with
  | NaN, _ | _, NaN => NaN
  | Fin a, Fin b => Fin (a * b)
  | _, _ =>
      match num_sign x, num_sign y with
      | Some sx, Some sy => if Bool.eqb sx sy then PInf else NInf
      | _, _ => NaN
      end
  end.

Definition num_div (x y : number) : number :=
  match x, y with
  | NaN, _ | _, NaN => NaN
  | Fin a, Fin b =>
      if Req_dec_T b 0 then
        match num_sign x with
        | Some true => PInf
        | Some false => NInf
        | None => NaN
        end
      else Fin (a / b)
  | Fin _, _ => Fin 0
  | _, Fin b => if Rlt_dec b 0 then num_neg x else x
  | _, _ => NaN
  end.

(** [x < y]; false as soon as one side is [NaN]. *)
Definition num_ltb (x y : number) : bool :=
  match x, y with
  | NaN, _ | _, NaN => false
  | Fin a, Fin b => if Rlt_dec a b then true else false
  | NInf, NInf | PInf, _ | _, NInf => false
  | NInf, _ | _, PInf => true
  end.

(** [x <= y] *)
Definition num_leb (x y : number) : bool :=
  match x, y with
  | NaN, _ | _, NaN => false
  | Fin a, Fin b => if Rle_dec a b then true else false
  | NInf, _ | _, PInf => true
  | PInf, _ | _, NInf => false
  end.

(** [x === y] *)
Definition num_eqb (x y : number) : bool :=
  match x, y with
  | Fin a, Fin b => if Req_dec_T a b then true else false
  | PInf, PInf | NInf, NInf => true
  | _, _ => false
  end.

Definition Math_sqrt (x : number) : number :=
  match x with
  | Fin r => if Rlt_dec r 0 then NaN else Fin (sqrt r)
  | PInf => PInf
  | _ => NaN
  end.

Definition Math_log (x : number) : number :=
  match x with
  | Fin r => if Rlt_dec r 0 then NaN
             else if Req_dec_T r 0 then NInf else Fin (ln r)
  | PInf => PInf
  | _ => NaN
  end.

Definition Math_cos (x : number) : number :=
  match x with
  | Fin r => Fin (cos r)
  | _ => NaN
  end.

(** [Math.pow] on a base that is a result of [Math.random] (finite and not
    negative, the only bases the source passes); [NaN] stands for the other
    bases. *)
Definition Math_pow (x y : number) : number :=
  match x, y with
  | _, NaN => NaN
  | Fin b, Fin e =>
      if Req_dec_T e 0 then Fin 1
      else if Rlt_dec b 0 then NaN
      else if Req_dec_T b 0 then (if Rlt_dec 0 e then Fin 0 else PInf)
      else Fin (Rpower b e)
  | Fin b, PInf =>
      if Rlt_dec b 0 then NaN
      else if Rlt_dec b 1 then Fin 0
      else if Req_dec_T b 1 then NaN else PInf
  | Fin b, NInf =>
      if Rlt_dec b 0 then NaN
      else if Rlt_dec b 1 then PInf
      else if Req_dec_T b 1 then NaN else Fin 0
  | _, _ => NaN
  end.

Declare Scope number_scope.
Delimit Scope number_scope with num.
Bind Scope number_scope with number.
Infix "+" := num_add : number_scope.
Infix "-" := num_sub : number_scope.
Infix "*" := num_mul : number_scope.
Infix "/" := num_div : number_scope.
Notation "- x" := (num_neg x) : number_scope.

(** The literals of the sampler. *)
Definition num_1 : number := Fin 1.
Definition num_2 : number := Fin 2.
Definition num_9 : number := Fin 9.
Definition num_3 : number := Fin 3.
Definition num_0 : number := Fin 0.
Definition num_half : number := Fin (5 / 10).
Definition num_0_0331 : number := Fin (331 / 10000).
Definition Math_PI : number := Fin PI.

(** ** Bayesian sampler *)

(** A draw of [Math.random] as a [number]. *)
Definition Math_random_num : M number :=
  u <- Math_random ;; ret (ofQ u).

(** [randomNormal]: Box-Muller. *)
Definition randomNormal : M number :=
  u1 <- Math_random_num ;;
  u2 <- Math_random_num ;;
  ret (Math_sqrt (- num_2 * Math_log u1) * Math_cos (num_2 * Math_PI * u2))%num.

(** The inner [do ... while (v <= 0)] of [sampleGamma]: the pair [(x, v)] it
    leaves the loop with. *)
Fixpoint sampleGamma_candidate (fuel : nat) (c : number) : M (number * number) :=
  match fuel with
  | O => fun _ => OutOfFuel
  | S fuel' =>
      x <- randomNormal ;;
      let v := (num_1 + c * x)%num in
      if num_leb v num_0 then sampleGamma_candidate fuel' c else ret (x, v)
  end.

(** The [while (true)] of [sampleGamma]. *)
Fixpoint sampleGamma_loop (fuel : nat) (d c scale : number) : M number :=
  match fuel with
  | O => fun _ => OutOfFuel
  | S fuel' =>
      xv <- sampleGamma_candidate fuel c ;;
      let x := fst xv in
      let v := (snd xv * snd xv * snd xv)%num in
      u <- Math_random_num ;;
      let x2 := (x * x)%num in
      if num_ltb u (num_1 - num_0_0331 * x2 * x2)%num then
        ret (d * v * scale)%num
      else if num_ltb (Math_log u)
                (num_half * x2 + d * (num_1 - v + Math_log v))%num then
        ret (d * v * scale)%num
      else sampleGamma_loop fuel' d c scale
  end.

(** [sampleGamma]: Marsaglia and Tsang; [fuel] bounds the depth of the
    recursion and the iterations of each loop. *)
Fixpoint sampleGamma (fuel : nat) (shape scale : number) : M number :=
  match fuel with
  | O => fun _ => OutOfFuel
  | S fuel' =>
      if num_ltb shape num_1 then
        g <- sampleGamma fuel' (shape + num_1)%num scale ;;
        u <- Math_random_num ;;
        ret (g * Math_pow u (num_1 / shape))%num
      else
        let d := (shape - num_1 / num_3)%num in
        let c := (num_1 / Math_sqrt (num_9 * d))%num in
        sampleGamma_loop fuel' d c scale
  end.

(** [sampleBeta] *)
Definition sampleBeta (fuel : nat) (alpha beta : number) : M number :=
  x <- sampleGamma fuel alpha num_1 ;;
  y <- sampleGamma fuel beta num_1 ;;
  ret (x / (x + y))%num.

(** ** Arrays *)

(** [l[i]]: [None] is [undefined]. *)
Definition array_get {A} (l : list A) (i : Z) : option A :=
  if i <? 0 then None else l !! Z.to_nat i.

(** [l.map(f)] for an effectful [f]. *)
Fixpoint array_mapM {A B} (f : A -> M B) (l : list A) : M (list B) :=
  match l with
  | [] => ret []
  | a :: l' => b <- f a ;; bs <- array_mapM f l' ;; ret (b :: bs)
  end.

(** [Math.max(...l)] *)
Definition Math_max2 (x y : number) : number :=
  match x, y with
  | NaN, _ | _, NaN => NaN
  | _, _ => if num_ltb x y then y else x
  end.

Definition Math_max (l : list number) : number :=
  fold_left Math_max2 l NInf.

(** [l.indexOf(x)] *)
Fixpoint array_indexOf_from (i : Z) (l : list number) (x : number) : Z :=
  match l with
  | [] => -1
  | y :: l' => if num_eqb y x then i else array_indexOf_from (i + 1) l' x
  end.

Definition array_indexOf (l : list number) (x : number) : Z :=
  array_indexOf_from 0 l x.

(** ** Thompson sampling *)

(** [thompsonSample]; the result is [None] when the source returns
    [undefined]. *)
Definition thompsonSample (fuel : nat) (candidateIds : list string) : M (option string) :=
  performances <- array_mapM getPerformance candidateIds ;;
  samples <- array_mapM
               (fun perf => sampleBeta fuel (ofQ (alpha perf)) (ofQ (beta perf)))
               performances ;;
  let maxIdx := array_indexOf samples (Math_max samples) in
  ret (array_get candidateIds maxIdx).

(** ** Statistical evaluation *)

Record ABTestResult := mkABTestResult {
  winner : option string;
  confidence : Q;
  pValue : Q
}.

Definition Qgtb (x y : Q) : bool := negb (Qle_bool x y).
Definition Qltb (x y : Q) : bool := negb (Qle_bool y x).

Definition nSamples : Z := 10000.

(** The [for] loop of [evaluateABTest] with [n] iterations left. *)
Fixpoint evaluateABTest_loop (n : nat) (fuel : nat) (perfA perfB : VariantPerformance)
    (countAWins : Z) : M Z :=
  match n with
  | O => ret countAWins
  | S n' =>
      sampleA <- sampleBeta fuel (ofQ (alpha perfA)) (ofQ (beta perfA)) ;;
      sampleB <- sampleBeta fuel (ofQ (alpha perfB)) (ofQ (beta perfB)) ;;
      evaluateABTest_loop n' fuel perfA perfB
        (if num_ltb sampleB sampleA then countAWins + 1 else countAWins)
  end.

(** [evaluateABTest] *)
Definition evaluateABTest (fuel : nat) (variantA variantB : string) : M ABTestResult :=
  perfA <- getPerformance variantA ;;
  perfB <- getPerformance variantB ;;
  countAWins <- evaluateABTest_loop (Z.to_nat nSamples) fuel perfA perfB 0 ;;
  let probAWins := (inject_Z countAWins / inject_Z nSamples)%Q in
  let confidence := Qmax probAWins (1 - probAWins) in
  let pValue := (2 * Qmin probAWins (1 - probAWins))%Q in
  ret (mkABTestResult
         (if Qgtb confidence (95 # 100) then
            (if Qgtb probAWins (5 # 10) then Some variantA else Some variantB)
          else None)
         confidence pValue).

(** ** Genetic algorithm *)

Definition minTrialsBeforeExploitation : Z := 10.

(** [ORDER BY vp.avg_reward DESC] on the joined rows. *)
Definition by_avg_reward_desc (r1 r2 : PromptVariant * Q) : Prop :=
  Qle_bool (snd r2) (snd r1) = true.

#[local] Instance by_avg_reward_desc_dec r1 r2 : Decision (by_avg_reward_desc r1 r2).
Proof. unfold by_avg_reward_desc. apply _. Defined.

(** [prompt_variants pv JOIN variant_performance vp ON pv.id = vp.variant_id
    WHERE vp.total_trials >= ?] *)
Definition joinPerformance (minTrials : Z) (d : Database) : list (PromptVariant * Q) :=
  omap (fun pv =>
          match variant_performance d !! id pv with
          | Some vp =>
              if minTrials <=? total_trials vp then Some (pv, avg_reward vp) else None
          | None => None
          end)
       (prompt_variants d).

(** [LIMIT ?]: a negative limit is no limit. *)
Definition sql_limit {A} (n : Z) (rows : list A) : list A :=
  if n <? 0 then rows else take (Z.to_nat n) rows.

(** [getTopVariants]; SQL leaves the order of rows with equal [avg_reward]
    open, the sort used here is one such order. *)
Definition getTopVariants (n : Z) : M (list PromptVariant) :=
  d <- getDb ;;
  ret (fst <$> sql_limit n
         (merge_sort by_avg_reward_desc (joinPerformance minTrialsBeforeExploitation d))).

(** [population[Math.floor(Math.random() * population.length)]] *)
Definition randomMember (population : list PromptVariant) : M (option PromptVariant) :=
  r <- Math_random ;;
  ret (array_get population
         (Qfloor (r * inject_Z (Z.of_nat (length population))))).

(** The callback of [contestants.reduce]; reading [.id] of [undefined]
    throws. *)
Definition betterContestant (a b : option PromptVariant) : M (option PromptVariant) :=
  match a with
  | None => throw TypeError
  | Some a' =>
      perfA <- getPerformance (id a') ;;
      match b with
      | None => throw TypeError
      | Some b' =>
          perfB <- getPerformance (id b') ;;
          ret (if Qgtb (avgReward perfA) (avgReward perfB) then a else b)
      end
  end.

(** [l.reduce(f)] without an initial value. *)
Fixpoint array_foldM {A} (f : A -> A -> M A) (acc : A) (l : list A) : M A :=
  match l with
  | [] => ret acc
  | x :: l' => acc' <- f acc x ;; array_foldM f acc' l'
  end.

Definition array_reduce {A} (f : A -> A -> M A) (l : list A) : M A :=
  match l with
  | [] => throw TypeError
  | x :: l' => array_foldM f x l'
  end.

(** The inner [for (let j = 0; j < 3; j++)] of [tournamentSelection]. *)
Fixpoint drawContestants (j : nat) (population : list PromptVariant)
    (contestants : list (option PromptVariant)) : M (list (option PromptVariant)) :=
  match j with
  | O => ret contestants
  | S j' =>
      c <- randomMember population ;;
      drawContestants j' population (contestants ++ [c])
  end.

(** The outer loop of [tournamentSelection] with [i] iterations left. *)
Fixpoint tournamentSelection_loop (i : nat) (population : list PromptVariant)
    (selected : list (option PromptVariant)) : M (list (option PromptVariant)) :=
  match i with
  | O => ret selected
  | S i' =>
      contestants <- drawContestants 3 population [] ;;
      best <- array_reduce betterContestant contestants ;;
      tournamentSelection_loop i' population (selected ++ [best])
  end.

(** [tournamentSelection] *)
Definition tournamentSelection (population : list PromptVariant) (k : nat)
    : M (list (option PromptVariant)) :=
  tournamentSelection_loop k population [].

(** [s.split('\n')[0]] *)
Fixpoint firstLine (s : string) : string :=
  match s with
  | EmptyString => EmptyString
  | String c s' =>
      if Ascii.eqb c "010"%char then EmptyString else String c (firstLine s')
  end.

Definition newline : string := String "010"%char EmptyString.

(** [crossoverPrompts] (the placeholder the source returns). *)
Definition crossoverPrompts (promptA promptB : string) : M string :=
  ret (promptA ++ newline ++ newline ++ "Additionally: " ++ firstLine promptB)%string.

Definition mutations : list string :=
  [" Be concise."; " Focus on performance."; " Consider edge cases.";
   " Use modern patterns."; " Optimize for readability."].

(** [mutatePrompt]; appending [undefined] appends the text "undefined". *)
Definition mutatePrompt (prompt : string) : M string :=
  r <- Math_random ;;
  ret (prompt ++
       match array_get mutations (Qfloor (r * inject_Z (Z.of_nat (length mutations)))) with
       | Some m => m
       | None => "undefined"
       end)%string.

(** [buf.toString('hex')] *)
Definition hexDigit (n : N) : ascii :=
  match n with
  | 0%N => "0" | 1%N => "1" | 2%N => "2" | 3%N => "3" | 4%N => "4"
  | 5%N => "5" | 6%N => "6" | 7%N => "7" | 8%N => "8" | 9%N => "9"
  | 10%N => "a" | 11%N => "b" | 12%N => "c" | 13%N => "d" | 14%N => "e"
  | _ => "f"
  end%char.

Fixpoint toHex (bytes : list byte) : string :=
  match bytes with
  | [] => EmptyString
  | b :: bytes' =>
      String (hexDigit (Byte.to_N b / 16)) (String (hexDigit (Byte.to_N b mod 16)) (toHex bytes'))
  end.

(** [randomBytes(n)] *)
Definition randomBytes (n : nat) : M (list byte) := fun w =>
  Ok ((fun i => randomBytes_src (host w) (bytes_pos w + i)%nat) <$> seq 0 n)
     (mkWorld (host w) (random_pos w) (bytes_pos w + n)%nat (clock_pos w) (db w)
        (explorationRate w)).

(** [INSERT INTO prompt_variants ...]: the primary key must be new. *)
Definition insertVariant (row : PromptVariant) : M unit :=
  d <- getDb ;;
  if bool_decide (id row ∈ id <$> prompt_variants d) then throw SQLiteConstraint
  else setDb (mkDatabase (prompt_variants d ++ [row]) (variant_performance d)
                (feedback_records d) (preference_comparisons d)).

(** [INSERT INTO variant_performance (variant_id) VALUES (?)]: the primary
    key must be new; the other columns take their defaults. *)
Definition insertDefaultPerformance (k : string) : M unit :=
  d <- getDb ;;
  match variant_performance d !! k with
  | Some _ => throw SQLiteConstraint
  | None =>
      setDb (mkDatabase (prompt_variants d)
               (<[k := mkPerformanceRow 1 1 0 0 0 0]> (variant_performance d))
               (feedback_records d) (preference_comparisons d))
  end.

(** [parentId || null] *)
Definition orNull (parentId : option string) : option string :=
  match parentId with
  | Some EmptyString => None
  | _ => parentId
  end.

(** [createVariant] *)
Definition createVariant (template : string) (parentId : option string) (generation : Z)
    : M string :=
  bytes <- randomBytes 16 ;;
  let id := toHex bytes in
  now <- Date_now ;;
  insertVariant (mkPromptVariant id template (orNull parentId) generation now) ;;;
  insertDefaultPerformance id ;;;
  ret id.

(** [x.field] on a value that may be [undefined]. *)
Definition deref {A} (x : option A) : M A :=
  match x with
  | Some a => ret a
  | None => throw TypeError
  end.

(** One iteration of the [for] loop of [evolvePrompts]: the id of the variant
    it registers. *)
Definition evolveGeneration (population : list PromptVariant) : M string :=
  parents <- tournamentSelection population 2 ;;
  parent0 <- deref (mjoin (array_get parents 0)) ;;
  parent1 <- deref (mjoin (array_get parents 1)) ;;
  offspring <- crossoverPrompts (template parent0) (template parent1) ;;
  r <- Math_random ;;
  mutated <- (if Qltb r (2 # 10) then mutatePrompt offspring else ret offspring) ;;
  createVariant mutated (Some (id parent0)) (generation parent0 + 1).

(** The [for] loop of [evolvePrompts] with [n] iterations left. *)
Fixpoint evolvePrompts_loop (n : nat) (population : list PromptVariant)
    (newVariants : list string) : M (list string) :=
  match n with
  | O => ret newVariants
  | S n' =>
      newVariantId <- evolveGeneration population ;;
      evolvePrompts_loop n' population (newVariants ++ [newVariantId])
  end.

(** [evolvePrompts], on integer arguments. *)
Definition evolvePrompts (populationSize nGenerations : Z) : M (list string) :=
  population <- getTopVariants populationSize ;;
  evolvePrompts_loop (Z.to_nat nGenerations) population [].

(** ** Preference learning *)

(** [INSERT INTO preference_comparisons ...] *)
Definition insertPreference (row : PreferenceRow) : M unit :=
  d <- getDb ;;
  setDb (mkDatabase (prompt_variants d) (variant_performance d)
           (feedback_records d) (preference_comparisons d ++ [row])).

(** [UPDATE variant_performance SET ... WHERE variant_id = ?] *)
Definition updatePerformance (f : PerformanceRow -> PerformanceRow) (k : string) : M unit :=
  d <- getDb ;;
  setDb (mkDatabase (prompt_variants d) (alter f k (variant_performance d))
           (feedback_records d) (preference_comparisons d)).

Definition boostAlpha (row : PerformanceRow) : PerformanceRow :=
  mkPerformanceRow (row_alpha row + (1 # 10))%Q (row_beta row) (total_trials row)
    (avg_reward row) (avg_latency_ms row) (avg_token_cost row).

Definition boostBeta (row : PerformanceRow) : PerformanceRow :=
  mkPerformanceRow (row_alpha row) (row_beta row + (1 # 10))%Q (total_trials row)
    (avg_reward row) (avg_latency_ms row) (avg_token_cost row).

(** [recordPreference] *)
Definition recordPreference (winnerId loserId context : string) (humanFeedback : bool)
    : M unit :=
  now <- Date_now ;;
  insertPreference
    (mkPreferenceRow winnerId loserId context (if humanFeedback then 1 else 0) now) ;;;
  winnerPerf <- getPerformance winnerId ;;
  loserPerf <- getPerformance loserId ;;
  updatePerformance boostAlpha winnerId ;;;
  updatePerformance boostBeta loserId.

(** ** Continuous learning loop *)

(** [total_trials >= 20 AND (alpha / (alpha + beta)) < 0.05]; a division by
    zero is NULL in SQL and the row is not selected. *)
Definition lowPerformer (row : PerformanceRow) : bool :=
  (20 <=? total_trials row) &&
  (if Qeq_bool (row_alpha row + row_beta row) 0 then false
   else Qltb (row_alpha row / (row_alpha row + row_beta row)) (5 # 100)).

(** [id IN (SELECT variant_id FROM variant_performance WHERE ...)] *)
Definition inPruneSet (d : Database) (k : string) : bool :=
  match variant_performance d !! k with
  | Some row => lowPerformer row
  | None => false
  end.

(** [pruneLowPerformers] *)
Definition pruneLowPerformers : M unit :=
  d <- getDb ;;
  setDb (mkDatabase
           (filter (fun pv => inPruneSet d (id pv) = false) (prompt_variants d))
           (variant_performance d) (feedback_records d) (preference_comparisons d)).

Definition setExplorationRate (r : Q) : M unit := fun w =>
  Ok tt (mkWorld (host w) (random_pos w) (bytes_pos w) (clock_pos w) (db w) r).

Definition getExplorationRate : M Q := fun w => Ok (explorationRate w) w.

(** The callback [continuousLearningLoop] hands to [setInterval]: one
    maintenance cycle. *)
Definition maintenanceCycle : M unit :=
  pruneLowPerformers ;;;
  (evolvePrompts 5 2 ;;;
  (rate <- getExplorationRate ;;
  setExplorationRate (Qmax (5 # 100) (rate * (95 # 100))))).

(** ** Contextual bandit *)

(** [getContextualFeatures]: the context as it is. *)
Definition getContextualFeatures (variantId : string) (context : list number)
    : list number :=
  context.

(** [features.length] as a number. *)
Definition array_length (features : list number) : number :=
  Fin (INR (length features)).

(** [linUCBScore] *)
Definition linUCBScore (features : list number) (alpha : number) : number :=
  let rewardEstimate :=
    (fold_left (fun sum f => sum + f) features num_0 / array_length features)%num in
  let uncertainty := (alpha * Math_sqrt (array_length features))%num in
  (rewardEstimate + uncertainty)%num.

(** [contextualBanditSelect]; the result is [None] when the source returns
    [undefined]. *)
Definition contextualBanditSelect (candidateIds : list string)
    (contextFeatures : list number) : M (option string) :=
  scores <- array_mapM
              (fun id =>
                 let features := getContextualFeatures id contextFeatures in
                 rate <- getExplorationRate ;;
                 ret (linUCBScore features (ofQ rate)))
              candidateIds ;;
  let maxIdx := array_indexOf scores (Math_max scores) in
  ret (array_get candidateIds maxIdx).

(** ** Queries *)

(** [ORDER BY created_at DESC] *)
Definition by_created_at_desc (v1 v2 : PromptVariant) : Prop :=
  createdAt v2 <= createdAt v1.

#[local] Instance by_created_at_desc_dec v1 v2 : Decision (by_created_at_desc v1 v2).
Proof. unfold by_created_at_desc. apply _. Defined.

(** [getAllVariants]; SQL leaves the order of rows with equal [created_at]
    open, the sort used here is one such order. *)
Definition getAllVariants : M (list PromptVariant) :=
  d <- getDb ;;
  ret (merge_sort by_created_at_desc (prompt_variants d)).

(** ** The public methods *)

(** A call of a public method of [ABLearningPlugin], or one firing of the
    callback of [continuousLearningLoop]. *)
Inductive Call :=
| ThompsonSample (candidateIds : list string)
| RecordFeedback (feedback : FeedbackRecord)
| EvaluateABTest (variantA variantB : string)
| EvolvePrompts (populationSize nGenerations : Z)
| CreateVariant (template : string) (parentId : option string) (generation : Z)
| ContextualBanditSelect (candidateIds : list string) (contextFeatures : list number)
| RecordPreference (winnerId loserId context : string) (humanFeedback : bool)
| MaintenanceCycle
| GetAllVariants
| GetVariantStats (variantId : string).

(** The call, its result dropped. *)
Definition perform (fuel : nat) (c : Call) : M unit :=
  match c with
  | ThompsonSample candidateIds => thompsonSample fuel candidateIds ;;; ret tt
  | RecordFeedback feedback => recordFeedback feedback
  | EvaluateABTest variantA variantB => evaluateABTest fuel variantA variantB ;;; ret tt
  | EvolvePrompts populationSize nGenerations =>
      evolvePrompts populationSize nGenerations ;;; ret tt
  | CreateVariant template parentId generation =>
      createVariant template parentId generation ;;; ret tt
  | ContextualBanditSelect candidateIds contextFeatures =>
      contextualBanditSelect candidateIds contextFeatures ;;; ret tt
  | RecordPreference winnerId loserId context humanFeedback =>
      recordPreference winnerId loserId context humanFeedback
  | MaintenanceCycle => maintenanceCycle
  | GetAllVariants => getAllVariants ;;; ret tt
  | GetVariantStats variantId => getVariantStats variantId ;;; ret tt
  end.

(** Calls one after the other; a call that throws leaves its world to the
    next call.  [None]: a sampler did not return within [fuel]. *)
Fixpoint performAll (fuel : nat) (calls : list Call) (w : World) : option World :=
  match calls with
  | [] => Some w
  | c :: rest =>
      match perform fuel c w with
      | Ok _ w' => performAll fuel rest w'
      | Throw _ w' => performAll fuel rest w'
      | OutOfFuel => None
      end
  end.

(** ** Vocabulary of the statements *)

(** The posterior [getPerformance] reports for a variant without a row. *)
Definition defaultPrior (variantId : string) : VariantPerformance :=
  mkVariantPerformance variantId 1 1 0 0 0 0.

(** The world after [n] more calls of [Math.random]. *)
Definition advance_random (n : nat) (w : World) : World :=
  mkWorld (host w) (random_pos w + n)%nat (bytes_pos w) (clock_pos w) (db w)
    (explorationRate w).

(** [Math.random] returns numbers from 0 inclusive to 1 exclusive. *)
Definition valid_random (h : Host) : Prop :=
  forall n, (0 <= Math_random_src h n < 1)%Q.

(** All draws of the host lie strictly between 0 and 1. *)
Definition open_random (h : Host) : Prop :=
  forall n, (0 < Math_random_src h n < 1)%Q.

(** The [k]-th next draw of [Math.random] in a world, as a real. *)
Definition draw (w : World) (k : nat) : R :=
  Q2R (Math_random_src (host w) (random_pos w + k)%nat).

(** Whether a number lies strictly between 0 and 1. *)
Definition inOpenUnit (x : number) : Prop :=
  match x with
  | Fin r => (0 < r < 1)%R
  | _ => False
  end.

(** A number from 0 to 1, both ends included, or [NaN]. *)
Definition inClosedUnitOrNaN (x : number) : Prop :=
  match x with
  | Fin r => (0 <= r <= 1)%R
  | NaN => True
  | _ => False
  end.

(** The WHERE clause of the pruning subquery, as a proposition. *)
Definition lowPerformerRow (row : PerformanceRow) : Prop :=
  20 <= total_trials row /\
  ~ (row_alpha row + row_beta row == 0)%Q /\
  (row_alpha row / (row_alpha row + row_beta row) < 5 # 100)%Q.

(** The world after [pruneLowPerformers]. *)
Definition pruned (w : World) : World :=
  mkWorld (host w) (random_pos w) (bytes_pos w) (clock_pos w)
    (mkDatabase
       (filter (fun pv => inPruneSet (db w) (id pv) = false) (prompt_variants (db w)))
       (variant_performance (db w)) (feedback_records (db w))
       (preference_comparisons (db w)))
    (explorationRate w).

(** The id the next call of [createVariant] draws. *)
Definition nextId (w : World) : string :=
  toHex ((fun i => randomBytes_src (host w) (bytes_pos w + i)%nat) <$> seq 0 16).

(** A defined element of the population. *)
Definition member (population : list PromptVariant) (o : option PromptVariant) : Prop :=
  exists p, o = Some p /\ p ∈ population.

(** The worlds in which the iterations of the loop of [evolvePrompts]
    start. *)
Fixpoint generationStarts (n : nat) (population : list PromptVariant) (w : World)
    : list World :=
  match n with
  | O => []
  | S n' =>
      w :: match evolveGeneration population w with
           | Ok _ w1 => generationStarts n' population w1
           | _ => []
           end
  end.

(** The average reward stored for a variant. *)
Definition rewardOf (d : Database) (pv : PromptVariant) : Q :=
  match variant_performance d !! id pv with
  | Some row => avg_reward row
  | None => 0
  end.

(** [population] is a breeding pool of size [n] drawn from [d]: variants of
    [d] with a posterior of at least [minTrialsBeforeExploitation] trials,
    in descending order of average reward, at most [n] of them when [n] is
    not negative, and such that the qualifying variants left out have no
    higher average reward than any member. *)
Definition breedingPool (n : Z) (d : Database) (population : list PromptVariant) : Prop :=
  (forall p, p ∈ population ->
     p ∈ prompt_variants d /\
     exists row, variant_performance d !! id p = Some row /\
                 minTrialsBeforeExploitation <= total_trials row) /\
  StronglySorted (fun p q => (rewardOf d q <= rewardOf d p)%Q) population /\
  (0 <= n -> (length population <= Z.to_nat n)%nat) /\
  exists rest,
    fst <$> joinPerformance minTrialsBeforeExploitation d ≡ₚ population ++ rest /\
    forall p q, p ∈ population -> q ∈ rest -> (rewardOf d q <= rewardOf d p)%Q.

(** The characters [buf.toString('hex')] produces. *)
Definition isHexChar (c : ascii) : Prop :=
  c ∈ list_ascii_of_string "0123456789abcdef".

(** The posterior mean win rate alpha / (alpha + beta) of a row. *)
Definition posteriorMean (row : PerformanceRow) : Q :=
  (row_alpha row / (row_alpha row + row_beta row))%Q.

(** The posterior the store holds for a variant, as [getPerformance] reads
    it. *)
Definition readPerformance (d : Database) (variantId : string) : VariantPerformance :=
  match variant_performance d !! variantId with
  | Some row =>
      mkVariantPerformance variantId (row_alpha row) (row_beta row)
        (total_trials row) (avg_reward row) (avg_latency_ms row)
        (avg_token_cost row)
  | None => mkVariantPerformance variantId 1 1 0 0 0 0
  end.

(** The sample pairs of the Monte-Carlo loop of [evaluateABTest]: [n] times
    a sample of the posterior of A, then a sample of the posterior of B. *)
Fixpoint drawPairs (fuel : nat) (perfA perfB : VariantPerformance) (n : nat)
    : M (list (number * number)) :=
  match n with
  | O => ret []
  | S n' =>
      sampleA <- sampleBeta fuel (ofQ (alpha perfA)) (ofQ (beta perfA)) ;;
      sampleB <- sampleBeta fuel (ofQ (alpha perfB)) (ofQ (beta perfB)) ;;
      rest <- drawPairs fuel perfA perfB n' ;;
      ret ((sampleA, sampleB) :: rest)
  end.

(** The wins of A: the number of pairs in which the sample of A is above
    the sample of B. *)
Definition winsOfA (pairs : list (number * number)) : Z :=
  Z.of_nat (length (filter (fun ab => num_ltb (snd ab) (fst ab) = true) pairs)).

(** A caller reporting the outcomes [fbs] one after the other. *)
Fixpoint recordFeedbackAll (fbs : list FeedbackRecord) : M unit :=
  match fbs with
  | [] => ret tt
  | fb :: rest => recordFeedback fb ;;; recordFeedbackAll rest
  end.

(** Number of successes, and sums of the reported values. *)
Definition successes (fbs : list FeedbackRecord) : Z :=
  Z.of_nat (length (filter (fun fb => fb_success fb = true) fbs)).

Definition failures (fbs : list FeedbackRecord) : Z :=
  Z.of_nat (length (filter (fun fb => fb_success fb = false) fbs)).

Definition sumOf (f : FeedbackRecord -> Q) (fbs : list FeedbackRecord) : Q :=
  foldr (fun fb acc => (f fb + acc)%Q) 0%Q fbs.

(** A number that is neither infinite nor [NaN]. *)
Definition isFinite (x : number) : Prop :=
  match x with
  | Fin _ => True
  | _ => False
  end.

(** The pairs the inner loop of [sampleGamma] can leave with. *)
Definition candidateShape (xv : number * number) : Prop :=
  (exists x v, xv = (Fin x, Fin v) /\ (0 < v)%R) \/
  xv = (PInf, PInf) \/ xv = (NaN, NaN).

(** The bounds every stored posterior row keeps. *)
Definition rowInRange (row : PerformanceRow) : Prop :=
  (1 <= row_alpha row)%Q /\ (1 <= row_beta row)%Q /\ 0 <= total_trials row /\
  (inject_Z (total_trials row) + 2 <= row_alpha row + row_beta row)%Q.

(** A store as the methods build it: variant ids are distinct and have 32
    characters, every variant has a posterior row, every posterior row is in
    range. *)
Record wellFormed (d : Database) : Prop := mkWellFormed {
  wf_distinct : NoDup (id <$> prompt_variants d);
  wf_length : Forall (fun pv => String.length (id pv) = 32%nat) (prompt_variants d);
  wf_posterior : Forall (fun pv => is_Some (variant_performance d !! id pv))
                   (prompt_variants d);
  wf_rows : forall k row, variant_performance d !! k = Some row -> rowInRange row
}.

(** No posterior row disappears, and alpha, beta and the trial count of a
    row do not go down. *)
Definition posteriorsGrow (d d' : Database) : Prop :=
  forall k row,
    variant_performance d !! k = Some row ->
    exists row',
      variant_performance d' !! k = Some row' /\
      (row_alpha row <= row_alpha row')%Q /\
      (row_beta row <= row_beta row')%Q /\
      total_trials row <= total_trials row'.

(** The world after a query: store and exploration rate as before. *)
Definition unchanged (w w' : World) : Prop :=
  host w' = host w /\ db w' = db w /\ explorationRate w' = explorationRate w.

(** The world after a method other than the maintenance cycle. *)
Record storeGrows (w w' : World) : Prop := mkStoreGrows {
  sg_host : host w' = host w;
  sg_rate : explorationRate w' = explorationRate w;
  sg_wellFormed : wellFormed (db w) -> wellFormed (db w');
  sg_feedback : feedback_records (db w) `prefix_of` feedback_records (db w');
  sg_preferences :
    preference_comparisons (db w) `prefix_of` preference_comparisons (db w');
  sg_posteriors : posteriorsGrow (db w) (db w')
}.

(** The world after any call: as [storeGrows], but the exploration rate
    may have decayed, not below its floor. *)
Record evolves (w w' : World) : Prop := mkEvolves {
  ev_host : host w' = host w;
  ev_rate : (5 # 100 <= explorationRate w)%Q ->
            (5 # 100 <= explorationRate w' <= explorationRate w)%Q;
  ev_wellFormed : wellFormed (db w) -> wellFormed (db w');
  ev_feedback : feedback_records (db w) `prefix_of` feedback_records (db w');
  ev_preferences :
    preference_comparisons (db w) `prefix_of` preference_comparisons (db w');
  ev_posteriors : posteriorsGrow (db w) (db w')
}.

(** [m] relates the world it starts in to the world it returns or throws
    in. *)
Definition respects {A} (R : World -> World -> Prop) (m : M A) : Prop :=
  forall w,
    match m w with
    | Ok _ w' => R w w'
    | Throw _ w' => R w w'
    | OutOfFuel => True
    end.

(** The calls that only read. *)
Definition isQuery (c : Call) : Prop :=
  match c with
  | ThompsonSample _ | EvaluateABTest _ _ | ContextualBanditSelect _ _
  | GetAllVariants | GetVariantStats _ => True
  | _ => False
  end.

(** ** Example worlds *)

(** Bytes 0, 1, 2, ..., 255, 0, ... *)
Definition byteOf (n : nat) : byte :=
  match Byte.of_N (N.of_nat n mod 256) with
  | Some b => b
  | None => x00%byte
  end.

(** An empty store; every draw is 1/2. *)
Definition world_empty : World :=
  mkWorld (mkHost (fun _ => 1 # 2)%Q (fun _ => x00%byte) (fun n => Z.of_nat n))
    0 0 0 emptyDatabase (3 # 10).

(** One successful task with reward 1. *)
Definition feedback_success : FeedbackRecord :=
  mkFeedbackRecord "task-1" "fresh" 1 120 30 true 0.

(** Posterior rows for "w" and "l". *)
Definition world_two_rows : World :=
  mkWorld (host world_empty) 0 0 0
    (mkDatabase [] (<["w" := mkPerformanceRow 3 2 4 (1 # 2) 10 7]>
                      (<["l" := mkPerformanceRow 1 5 4 (1 # 4) 12 9]> ∅)) [] [])
    (3 # 10).

(** Variant "a" after 25 failures (ratio 1/27), variant "b" after 10
    (ratio 1/12). *)
Definition world_low_performer : World :=
  mkWorld (host world_empty) 0 0 0
    (mkDatabase
       [mkPromptVariant "a" "prompt a" None 0 1; mkPromptVariant "b" "prompt b" None 0 2]
       (<["a" := mkPerformanceRow 1 26 25 0 10 1]>
          (<["b" := mkPerformanceRow 1 11 10 0 10 1]> ∅))
       [] [])
    (3 # 10).

(** Two variants, with 2 and with 9 trials: none reaches the threshold. *)
Definition world_untried : World :=
  mkWorld (host world_empty) 0 0 0
    (mkDatabase
       [mkPromptVariant "a" "prompt a" None 0 1; mkPromptVariant "b" "prompt b" None 0 2]
       (<["a" := mkPerformanceRow 3 1 2 1 10 1]>
          (<["b" := mkPerformanceRow 1 10 9 0 10 1]> ∅))
       [] [])
    (3 # 10).

Definition variant_a1 : PromptVariant := mkPromptVariant "a1" "Review the code." None 0 1.
Definition variant_b2 : PromptVariant := mkPromptVariant "b2" "Explain the code." None 3 2.
Definition variant_c3 : PromptVariant := mkPromptVariant "c3" "Refactor the code." None 0 3.

(** Three variants: "a1" and "b2" have enough trials, "c3" has not; every
    draw is 1/2. *)
Definition world_pool : World :=
  mkWorld (mkHost (fun _ => 1 # 2)%Q byteOf (fun n => 100 + Z.of_nat n)) 0 0 0
    (mkDatabase [variant_a1; variant_b2; variant_c3]
       (<["a1" := mkPerformanceRow 9 4 12 (3 # 4) 10 1]>
          (<["b2" := mkPerformanceRow 12 4 15 (4 # 5) 10 1]>
             (<["c3" := mkPerformanceRow 3 1 3 1 10 1]> ∅)))
       [] [])
    (3 # 10).

(** An empty store; every draw is 1/4. *)
Definition world_quarter : World :=
  mkWorld (mkHost (fun _ => 1 # 4)%Q byteOf (fun n => Z.of_nat n))
    0 0 0 emptyDatabase (3 # 10)%Q.

(** The draws 1/2, 1/4, 1/2, 0, 1/2, 1/4, 1/2, 1/2, ... *)
Definition zero_draw_src (n : nat) : Q :=
  match n with
  | 3%nat => 0
  | 1%nat | 5%nat => 1 # 4
  | _ => 1 # 2
  end.

Definition world_zero_draw : World :=
  mkWorld (mkHost zero_draw_src byteOf (fun n => Z.of_nat n))
    0 0 0 emptyDatabase (3 # 10)%Q.

(** The draws 1/2, 1/4, 1/2, 1/2, 1/4, 1/2, 0, 1/2, ... *)
Definition zero_draw_beta_src (n : nat) : Q :=
  match n with
  | 6%nat => 0
  | 1%nat | 4%nat => 1 # 4
  | _ => 1 # 2
  end.

Definition world_zero_draw_beta : World :=
  mkWorld (mkHost zero_draw_beta_src byteOf (fun n => Z.of_nat n))
    0 0 0 emptyDatabase (3 # 10)%Q.

(** The draws 1/2, 1/4, 1/2, 0, 1/2, 1/4, 1/2, 0, 1/2, ... *)
Definition zero_draws_src (n : nat) : Q :=
  match n with
  | 3%nat | 7%nat => 0
  | 1%nat | 5%nat => 1 # 4
  | _ => 1 # 2
  end.

Definition world_zero_draws : World :=
  mkWorld (mkHost zero_draws_src byteOf (fun n => Z.of_nat n))
    0 0 0 emptyDatabase (3 # 10)%Q.

(** The draws 1/100, 1/2, 1/100, 1/2, ... *)
Definition rejecting_src (n : nat) : Q :=
  if Nat.even n then 1 # 100 else 1 # 2.

Definition world_rejecting : World :=
  mkWorld (mkHost rejecting_src byteOf (fun n => Z.of_nat n))
    0 0 0 emptyDatabase (3 # 10)%Q.

(** The id [createVariant] draws first in [world_quarter], and the one it
    draws next. *)
Definition first_id : string := "000102030405060708090a0b0c0d0e0f".
Definition second_id : string := "101112131415161718191a1b1c1d1e1f".

Definition feedback_first : FeedbackRecord :=
  mkFeedbackRecord "task-1" first_id (4 # 5) 120 30 true 0.

(** A session: two variants registered, ten successes reported for the
    first, one preference, a look at the statistics, one maintenance cycle,
    a listing. *)
Definition session : list Call :=
  [CreateVariant "Review the code." None 0; CreateVariant "Explain the code." None 0]
  ++ replicate 10 (RecordFeedback feedback_first)
  ++ [RecordPreference first_id second_id "ctx" true; GetVariantStats first_id;
      MaintenanceCycle; GetAllVariants].

(** Calls that only read, none of them running the sampler. *)
Definition queries : list Call :=
  [GetAllVariants; GetVariantStats "a1"; ThompsonSample [];
   ContextualBanditSelect [] []; GetVariantStats "zz"].

(** * Properties *)

Ltac unfold_m :=
  unfold bind, ret, throw, getDb, setDb, Date_now, Math_random,
    getExplorationRate, setExplorationRate in *.

Lemma bind_Ok {A B} (m : M A) (k : A -> M B) (w w' : World) (a : A) :
  m w = Ok a w' -> bind m k w = k a w'.
Proof. intros H. unfold bind. now rewrite H. Qed.

Lemma bind_Throw {A B} (m : M A) (k : A -> M B) (w w' : World) (e : Error) :
  m w = Throw e w' -> bind m k w = Throw e w'.
Proof. intros H. unfold bind. now rewrite H. Qed.

Lemma bind_OutOfFuel {A B} (m : M A) (k : A -> M B) (w : World) :
  m w = OutOfFuel -> bind m k w = OutOfFuel.
Proof. intros H. unfold bind. now rewrite H. Qed.

(** A computation that returned went through both halves of a [bind]. *)
Lemma bind_Ok_inv {A B} (m : M A) (k : A -> M B) (w w' : World) (b : B) :
  bind m k w = Ok b w' -> exists a w1, m w = Ok a w1 /\ k a w1 = Ok b w'.
Proof. unfold bind. destruct (m w) as [a w1| |]; [eauto | discriminate..]. Qed.

(** ** Posterior store *)

Lemma getPerformance_pure (variantId : string) (w : World) :
  exists perf, getPerformance variantId w = Ok perf w.
Proof.
  unfold getPerformance; unfold_m.
  destruct (variant_performance (db w) !! variantId); eauto.
Qed.

Lemma getPerformance_stored (variantId : string) (w : World) (row : PerformanceRow) :
  variant_performance (db w) !! variantId = Some row ->
  getPerformance variantId w =
    Ok (mkVariantPerformance variantId (row_alpha row) (row_beta row)
          (total_trials row) (avg_reward row) (avg_latency_ms row)
          (avg_token_cost row)) w.
Proof. intros H. unfold getPerformance; unfold_m. now rewrite H. Qed.

Lemma getPerformance_absent (variantId : string) (w : World) :
  variant_performance (db w) !! variantId = None ->
  getPerformance variantId w = Ok (defaultPrior variantId) w.
Proof. intros H. unfold getPerformance; unfold_m. now rewrite H. Qed.

Lemma getPerformance_read (variantId : string) (w : World) :
  getPerformance variantId w = Ok (readPerformance (db w) variantId) w.
Proof.
  unfold getPerformance, readPerformance; unfold_m.
  now destruct (variant_performance (db w) !! variantId).
Qed.

Lemma getPerformance_inv (variantId : string) (w w' : World) (perf : VariantPerformance) :
  getPerformance variantId w = Ok perf w' -> w' = w.
Proof.
  destruct (getPerformance_pure variantId w) as [p Hp]. rewrite Hp. congruence.
Qed.

(** C4: for an id without a stored posterior row, [getVariantStats] returns
    the default prior (alpha 1, beta 1, no trials, averages 0), on a second
    call as on the first, and the world after the call, the database
    included, is the world before it. *)
Theorem getVariantStats_unknown_id (w : World) (variantId : string) :
  variant_performance (db w) !! variantId = None ->
  getVariantStats variantId w = Ok (mkVariantPerformance variantId 1 1 0 0 0 0) w /\
  (getVariantStats variantId ;;; getVariantStats variantId) w =
    Ok (mkVariantPerformance variantId 1 1 0 0 0 0) w.
Proof.
  intros H. unfold getVariantStats, bind.
  rewrite (getPerformance_absent _ _ H). split; [reflexivity|].
  now rewrite (getPerformance_absent _ _ H).
Qed.

Lemma getVariantStats_unknown_id_witness :
  getVariantStats "never-created" world_empty =
    Ok (mkVariantPerformance "never-created" 1 1 0 0 0 0) world_empty /\
  (getVariantStats "never-created" ;;; getVariantStats "never-created") world_empty =
    Ok (mkVariantPerformance "never-created" 1 1 0 0 0 0) world_empty.
Proof. apply (getVariantStats_unknown_id world_empty "never-created"). reflexivity. Defined.

(** C1: [recordFeedback] reads the posterior of the variant and stores
    alpha + 1 on success (alpha otherwise), beta + 1 on failure (beta
    otherwise), the trial count + 1 and, for reward, latency and cost, the
    average [(avg * n + value) / (n + 1)]; it appends one row to
    [feedback_records] and changes nothing else. *)
Theorem recordFeedback_bayesian_update (w : World) (feedback : FeedbackRecord)
    (perf : VariantPerformance) :
  getPerformance (fb_variantId feedback) w = Ok perf w ->
  0 <= totalTrials perf ->
  exists w' perf',
    recordFeedback feedback w = Ok tt w' /\
    getPerformance (fb_variantId feedback) w' = Ok perf' w' /\
    (alpha perf' == if fb_success feedback then alpha perf + 1 else alpha perf)%Q /\
    (beta perf' == if fb_success feedback then beta perf else beta perf + 1)%Q /\
    totalTrials perf' = totalTrials perf + 1 /\
    (avgReward perf' ==
       (avgReward perf * inject_Z (totalTrials perf) + fb_reward feedback)
         / inject_Z (totalTrials perf + 1))%Q /\
    (avgLatencyMs perf' ==
       (avgLatencyMs perf * inject_Z (totalTrials perf) + fb_latencyMs feedback)
         / inject_Z (totalTrials perf + 1))%Q /\
    (avgTokenCost perf' ==
       (avgTokenCost perf * inject_Z (totalTrials perf) + fb_tokenCost feedback)
         / inject_Z (totalTrials perf + 1))%Q /\
    feedback_records (db w') =
      (feedback_records (db w) ++
        [mkFeedbackRow (fb_taskId feedback) (fb_variantId feedback)
           (fb_reward feedback) (fb_latencyMs feedback) (fb_tokenCost feedback)
           (if fb_success feedback then 1 else 0)
           (Date_now_src (host w) (clock_pos w))])%list /\
    (forall k, k <> fb_variantId feedback ->
       variant_performance (db w') !! k = variant_performance (db w) !! k) /\
    prompt_variants (db w') = prompt_variants (db w) /\
    preference_comparisons (db w') = preference_comparisons (db w).
Proof.
  intros Hget _.
  unfold recordFeedback, bind at 1. rewrite Hget.
  unfold insertOrReplacePerformance, insertFeedbackRecord; unfold_m; simpl.
  eexists. eexists. split; [reflexivity|].
  split.
  { unfold getPerformance; unfold_m; simpl. rewrite lookup_insert_eq. reflexivity. }
  simpl. repeat split; try reflexivity.
  - destruct (fb_success feedback); [reflexivity | ring].
  - destruct (fb_success feedback); [ring | reflexivity].
  - intros k Hk. now rewrite lookup_insert_ne.
Qed.

Lemma recordFeedback_bayesian_update_witness :
  exists w' perf',
    recordFeedback feedback_success world_empty = Ok tt w' /\
    getPerformance "fresh" w' = Ok perf' w' /\
    (alpha perf' == 1 + 1)%Q /\
    (beta perf' == 1)%Q /\
    totalTrials perf' = 0 + 1 /\
    (avgReward perf' == (0 * inject_Z 0 + 1) / inject_Z (0 + 1))%Q /\
    (avgLatencyMs perf' == (0 * inject_Z 0 + 120) / inject_Z (0 + 1))%Q /\
    (avgTokenCost perf' == (0 * inject_Z 0 + 30) / inject_Z (0 + 1))%Q /\
    feedback_records (db w') = ([] ++ [mkFeedbackRow "task-1" "fresh" 1 120 30 1 0])%list /\
    (forall k, k <> "fresh" -> variant_performance (db w') !! k = (∅ : gmap string PerformanceRow) !! k) /\
    prompt_variants (db w') = [] /\
    preference_comparisons (db w') = [].
Proof.
  apply (recordFeedback_bayesian_update world_empty feedback_success (defaultPrior "fresh")).
  - reflexivity.
  - simpl. lia.
Defined.

(** ** Preference learning *)

Lemma recordPreference_run (w : World) (winnerId loserId context : string)
    (humanFeedback : bool) :
  recordPreference winnerId loserId context humanFeedback w =
    Ok tt
      (mkWorld (host w) (random_pos w) (bytes_pos w) (S (clock_pos w))
         (mkDatabase (prompt_variants (db w))
            (alter boostBeta loserId
               (alter boostAlpha winnerId (variant_performance (db w))))
            (feedback_records (db w))
            (preference_comparisons (db w) ++
               [mkPreferenceRow winnerId loserId context
                  (if humanFeedback then 1 else 0)
                  (Date_now_src (host w) (clock_pos w))]))
         (explorationRate w)).
Proof.
  unfold recordPreference, insertPreference, updatePerformance, getPerformance.
  unfold_m; cbn.
  destruct (variant_performance (db w) !! winnerId); cbn;
    destruct (variant_performance (db w) !! loserId); reflexivity.
Qed.

(** C9: on two different variants that both have a posterior row,
    [recordPreference] adds 1/10 to the winner's alpha and 1/10 to the
    loser's beta, appends one row to [preference_comparisons] and leaves the
    rest as it was: the other columns of both rows, the rows of all other
    variants, the variants and the feedback history. *)
Theorem recordPreference_boost (w : World) (winnerId loserId context : string)
    (humanFeedback : bool) (rw rl : PerformanceRow) :
  winnerId <> loserId ->
  variant_performance (db w) !! winnerId = Some rw ->
  variant_performance (db w) !! loserId = Some rl ->
  exists w',
    recordPreference winnerId loserId context humanFeedback w = Ok tt w' /\
    variant_performance (db w') !! winnerId =
      Some (mkPerformanceRow (row_alpha rw + (1 # 10))%Q (row_beta rw)
              (total_trials rw) (avg_reward rw) (avg_latency_ms rw)
              (avg_token_cost rw)) /\
    variant_performance (db w') !! loserId =
      Some (mkPerformanceRow (row_alpha rl) (row_beta rl + (1 # 10))%Q
              (total_trials rl) (avg_reward rl) (avg_latency_ms rl)
              (avg_token_cost rl)) /\
    (forall k, k <> winnerId -> k <> loserId ->
       variant_performance (db w') !! k = variant_performance (db w) !! k) /\
    preference_comparisons (db w') =
      (preference_comparisons (db w) ++
         [mkPreferenceRow winnerId loserId context
            (if humanFeedback then 1 else 0)
            (Date_now_src (host w) (clock_pos w))])%list /\
    prompt_variants (db w') = prompt_variants (db w) /\
    feedback_records (db w') = feedback_records (db w) /\
    explorationRate w' = explorationRate w.
Proof.
  intros Hne Hw Hl. eexists. split; [apply recordPreference_run|]. simpl.
  repeat split.
  - rewrite lookup_alter_ne by congruence. rewrite lookup_alter_eq, Hw. reflexivity.
  - rewrite lookup_alter_eq. rewrite lookup_alter_ne by congruence.
    rewrite Hl. reflexivity.
  - intros k Hk1 Hk2. now rewrite !lookup_alter_ne by congruence.
Qed.

Lemma recordPreference_boost_witness :
  exists w',
    recordPreference "w" "l" "ctx" true world_two_rows = Ok tt w' /\
    variant_performance (db w') !! "w" =
      Some (mkPerformanceRow (3 + (1 # 10))%Q 2 4 (1 # 2) 10 7) /\
    variant_performance (db w') !! "l" =
      Some (mkPerformanceRow 1 (5 + (1 # 10))%Q 4 (1 # 4) 12 9) /\
    (forall k, k <> "w" -> k <> "l" ->
       variant_performance (db w') !! k =
         variant_performance (db world_two_rows) !! k) /\
    preference_comparisons (db w') =
      ([] ++ [mkPreferenceRow "w" "l" "ctx" 1 0])%list /\
    prompt_variants (db w') = [] /\
    feedback_records (db w') = [] /\
    explorationRate w' = (3 # 10)%Q.
Proof.
  apply (recordPreference_boost world_two_rows "w" "l" "ctx" true
           (mkPerformanceRow 3 2 4 (1 # 2) 10 7) (mkPerformanceRow 1 5 4 (1 # 4) 12 9)).
  - discriminate.
  - reflexivity.
  - reflexivity.
Defined.

(** When winner and loser are the same variant the one row receives both
    boosts. *)
Lemma recordPreference_same_variant (w : World) (v context : string)
    (humanFeedback : bool) (r : PerformanceRow) :
  variant_performance (db w) !! v = Some r ->
  exists w',
    recordPreference v v context humanFeedback w = Ok tt w' /\
    variant_performance (db w') !! v =
      Some (mkPerformanceRow (row_alpha r + (1 # 10))%Q (row_beta r + (1 # 10))%Q
              (total_trials r) (avg_reward r) (avg_latency_ms r)
              (avg_token_cost r)).
Proof.
  intros Hr. eexists. split; [apply recordPreference_run|]. simpl.
  rewrite !lookup_alter_eq, Hr. reflexivity.
Qed.

(** C7 (what the source does): for a winner or loser without a posterior
    row, [recordPreference] returns normally, but its UPDATE matches no row:
    no posterior is created, and the variant still reads the default prior,
    alpha 1 for the winner and beta 1 for the loser. *)
Theorem recordPreference_unknown_ids_stay_default (w : World)
    (winnerId loserId context : string) (humanFeedback : bool) :
  variant_performance (db w) !! winnerId = None ->
  variant_performance (db w) !! loserId = None ->
  exists w',
    recordPreference winnerId loserId context humanFeedback w = Ok tt w' /\
    variant_performance (db w') = variant_performance (db w) /\
    getPerformance winnerId w' = Ok (mkVariantPerformance winnerId 1 1 0 0 0 0) w' /\
    getPerformance loserId w' = Ok (mkVariantPerformance loserId 1 1 0 0 0 0) w'.
Proof.
  intros Hw Hl. eexists. split; [apply recordPreference_run|].
  assert (Hvp : alter boostBeta loserId
                  (alter boostAlpha winnerId (variant_performance (db w)))
                = variant_performance (db w)).
  { apply map_eq. intros k.
    destruct (decide (k = loserId)) as [->|Hkl].
    - rewrite lookup_alter_eq.
      destruct (decide (loserId = winnerId)) as [->|Hlw].
      + rewrite lookup_alter_eq, Hw. reflexivity.
      + rewrite lookup_alter_ne by congruence. rewrite Hl. reflexivity.
    - rewrite lookup_alter_ne by congruence.
      destruct (decide (k = winnerId)) as [->|Hkw].
      + rewrite lookup_alter_eq, Hw. reflexivity.
      + now rewrite lookup_alter_ne by congruence. }
  simpl. split; [exact Hvp|].
  split; apply getPerformance_absent; simpl; rewrite Hvp; assumption.
Qed.

Lemma recordPreference_unknown_ids_stay_default_witness :
  exists w',
    recordPreference "ghost-winner" "ghost-loser" "ctx" false world_empty = Ok tt w' /\
    variant_performance (db w') = ∅ /\
    getPerformance "ghost-winner" w' =
      Ok (mkVariantPerformance "ghost-winner" 1 1 0 0 0 0) w' /\
    getPerformance "ghost-loser" w' =
      Ok (mkVariantPerformance "ghost-loser" 1 1 0 0 0 0) w'.
Proof.
  apply (recordPreference_unknown_ids_stay_default world_empty
           "ghost-winner" "ghost-loser" "ctx" false); reflexivity.
Defined.

(** ** Thompson sampling on no candidates *)

(** C8 (as the source behaves): on an empty candidate list [thompsonSample]
    throws nothing; it returns [undefined] and leaves the world as it was. *)
Theorem thompsonSample_empty_returns_undefined (fuel : nat) (w : World) :
  thompsonSample fuel [] w = Ok None w.
Proof. reflexivity. Qed.

(** C8 (counterexample): the call on the empty list in the empty store
    returns a value, [undefined], instead of failing. *)
Lemma thompsonSample_empty_no_error :
  thompsonSample 1 [] world_empty = Ok None world_empty /\
  forall e w', thompsonSample 1 [] world_empty <> Throw e w'.
Proof. split; [reflexivity | discriminate]. Qed.

(** ** Pruning *)

Lemma Qltb_lt (x y : Q) : Qltb x y = true <-> (x < y)%Q.
Proof.
  unfold Qltb. rewrite negb_true_iff. split.
  - intros H. apply Qnot_le_lt. intros Hle. apply Qle_bool_iff in Hle. congruence.
  - intros H. destruct (Qle_bool y x) eqn:E; [|reflexivity].
    apply Qle_bool_iff in E. exfalso. exact (Qlt_not_le _ _ H E).
Qed.

Lemma Qgtb_lt (x y : Q) : Qgtb x y = true <-> (y < x)%Q.
Proof. exact (Qltb_lt y x). Qed.

Lemma lowPerformer_spec (row : PerformanceRow) :
  lowPerformer row = true <-> lowPerformerRow row.
Proof.
  unfold lowPerformer, lowPerformerRow.
  rewrite andb_true_iff, Z.leb_le.
  destruct (Qeq_bool (row_alpha row + row_beta row) 0) eqn:E.
  - apply Qeq_bool_iff in E. split; [intros [_ H]; discriminate | tauto].
  - rewrite Qltb_lt. split; intros (H1 & H2); (split; [exact H1|]).
    + split; [|exact H2]. intros H. apply Qeq_bool_iff in H. congruence.
    + tauto.
Qed.

Lemma inPruneSet_spec (d : Database) (k : string) :
  inPruneSet d k = true <->
  exists row, variant_performance d !! k = Some row /\ lowPerformerRow row.
Proof.
  unfold inPruneSet. destruct (variant_performance d !! k) as [row|].
  - rewrite lowPerformer_spec. split; [eauto|]. intros (r & Hr & H). congruence.
  - split; [discriminate|]. intros (r & Hr & _). discriminate.
Qed.

Lemma pruneLowPerformers_run (w : World) :
  pruneLowPerformers w = Ok tt (pruned w).
Proof. reflexivity. Qed.

(** C5 (as the source behaves): one pruning pass deletes from
    [prompt_variants] exactly the variants whose posterior row has at least
    20 trials and alpha / (alpha + beta) below 5/100 (a row with
    alpha + beta = 0 has no ratio and is not selected), keeps the others in
    their order, and does not touch [variant_performance]: every posterior
    row, of a retained and of a deleted variant, stays stored. *)
Theorem pruneLowPerformers_effect (w : World) :
  exists w',
    pruneLowPerformers w = Ok tt w' /\
    (forall pv,
       pv ∈ prompt_variants (db w') <->
       pv ∈ prompt_variants (db w) /\
       ~ exists row, variant_performance (db w) !! id pv = Some row /\
                     lowPerformerRow row) /\
    prompt_variants (db w') `sublist_of` prompt_variants (db w) /\
    variant_performance (db w') = variant_performance (db w) /\
    feedback_records (db w') = feedback_records (db w) /\
    preference_comparisons (db w') = preference_comparisons (db w) /\
    explorationRate w' = explorationRate w.
Proof.
  exists (pruned w). split; [apply pruneLowPerformers_run|]. simpl.
  split; [|split; [apply sublist_filter | repeat split]].
  intros pv. rewrite list_elem_of_filter, <- inPruneSet_spec.
  destruct (inPruneSet (db w) (id pv)); split; intros [H1 H2]; split;
    congruence || assumption || (exfalso; auto).
Qed.

(** C5 (counterexample): variant "a" (25 trials, ratio 1/27) is deleted by the
    pass and its posterior row is still stored afterwards; variant "b"
    (10 trials) is retained. *)
Lemma pruneLowPerformers_keeps_posterior :
  exists w',
    pruneLowPerformers world_low_performer = Ok tt w' /\
    prompt_variants (db w') = [mkPromptVariant "b" "prompt b" None 0 2] /\
    variant_performance (db w') !! "a" = Some (mkPerformanceRow 1 26 25 0 10 1).
Proof. eexists. split; [reflexivity|]. split; reflexivity. Qed.

(** ** Evolution on an empty breeding pool *)

Lemma array_get_nil {A} (i : Z) : array_get (@nil A) i = None.
Proof. unfold array_get. destruct (i <? 0); [reflexivity | apply lookup_nil]. Qed.

Lemma randomMember_empty (w : World) :
  randomMember [] w = Ok None (advance_random 1 w).
Proof.
  unfold randomMember; unfold_m. rewrite array_get_nil.
  unfold advance_random. now rewrite Nat.add_1_r.
Qed.

Lemma tournamentSelection_empty_throws (k : nat) (w : World) :
  tournamentSelection [] (S k) w = Throw TypeError (advance_random 3 w).
Proof.
  unfold tournamentSelection. simpl. unfold bind.
  rewrite !randomMember_empty. simpl.
  unfold advance_random; simpl. unfold throw. do 2 f_equal. lia.
Qed.

Lemma evolvePrompts_loop_empty_throws (n : nat) (acc : list string) (w : World) :
  evolvePrompts_loop (S n) [] acc w = Throw TypeError (advance_random 3 w).
Proof.
  simpl. unfold bind, evolveGeneration, bind.
  now rewrite tournamentSelection_empty_throws.
Qed.

Lemma joinPerformance_filter (minTrials : Z) (d : Database) (P : PromptVariant -> Prop)
    `{!forall pv, Decision (P pv)} :
  joinPerformance minTrials d = [] ->
  joinPerformance minTrials
    (mkDatabase (filter P (prompt_variants d)) (variant_performance d)
       (feedback_records d) (preference_comparisons d)) = [].
Proof.
  unfold joinPerformance; simpl.
  induction (prompt_variants d) as [|pv l IH]; [reflexivity|].
  rewrite filter_cons. simpl.
  destruct (match variant_performance d !! id pv with
            | Some vp => if minTrials <=? total_trials vp
                         then Some (pv, avg_reward vp) else None
            | None => None
            end) eqn:E; [discriminate|].
  intros Hl. destruct (decide (P pv)); [simpl; rewrite E|]; auto.
Qed.

Lemma getTopVariants_empty_join (n : Z) (w : World) :
  joinPerformance minTrialsBeforeExploitation (db w) = [] ->
  getTopVariants n w = Ok [] w.
Proof.
  intros H. unfold getTopVariants; unfold_m. rewrite H.
  change (merge_sort by_avg_reward_desc []) with (@nil (PromptVariant * Q)).
  unfold sql_limit. destruct (n <? 0); [reflexivity|].
  now rewrite take_nil.
Qed.

(** C10: when no variant has a posterior with at least
    [minTrialsBeforeExploitation] trials, the breeding pool is empty, and
    [evolvePrompts] with at least one generation throws a [TypeError] after
    the three draws of the first tournament, the database unchanged; a
    maintenance cycle on such a store throws at its evolve step and does not
    reach the decay of the exploration rate. *)
Theorem evolvePrompts_empty_pool_throws (w : World) (populationSize nGenerations : Z) :
  joinPerformance minTrialsBeforeExploitation (db w) = [] ->
  1 <= nGenerations ->
  getTopVariants populationSize w = Ok [] w /\
  evolvePrompts populationSize nGenerations w = Throw TypeError (advance_random 3 w) /\
  exists w',
    maintenanceCycle w = Throw TypeError w' /\
    explorationRate w' = explorationRate w /\
    variant_performance (db w') = variant_performance (db w).
Proof.
  intros Hjoin Hn.
  pose proof (getTopVariants_empty_join populationSize w Hjoin) as Htop.
  split; [exact Htop|]. split.
  - unfold evolvePrompts, bind at 1. rewrite Htop.
    destruct (Z.to_nat nGenerations) as [|n] eqn:E; [lia|].
    apply evolvePrompts_loop_empty_throws.
  - assert (Hj1 : joinPerformance minTrialsBeforeExploitation (db (pruned w)) = []).
    { simpl. now apply joinPerformance_filter. }
    exists (advance_random 3 (pruned w)). split; [|split; reflexivity].
    unfold maintenanceCycle. rewrite (bind_Ok _ _ _ _ _ (pruneLowPerformers_run w)).
    apply bind_Throw. unfold evolvePrompts.
    rewrite (bind_Ok _ _ _ _ _ (getTopVariants_empty_join 5 (pruned w) Hj1)).
    apply (evolvePrompts_loop_empty_throws 1).
Qed.

Lemma evolvePrompts_empty_pool_throws_witness :
  getTopVariants 5 world_untried = Ok [] world_untried /\
  evolvePrompts 5 3 world_untried = Throw TypeError (advance_random 3 world_untried) /\
  exists w',
    maintenanceCycle world_untried = Throw TypeError w' /\
    explorationRate w' = explorationRate world_untried /\
    variant_performance (db w') = variant_performance (db world_untried).
Proof.
  apply (evolvePrompts_empty_pool_throws world_untried 5 3).
  - reflexivity.
  - lia.
Defined.

(** ** Evolution: lineage of the offspring *)

Lemma advance_random_add (a b : nat) (w : World) :
  advance_random a (advance_random b w) = advance_random (b + a) w.
Proof. unfold advance_random; simpl. f_equal. lia. Qed.

Lemma advance_random_0 (w : World) : advance_random 0 w = w.
Proof. destruct w. unfold advance_random; simpl. f_equal. lia. Qed.

Lemma Math_random_run (w : World) :
  Math_random w = Ok (Math_random_src (host w) (random_pos w)) (advance_random 1 w).
Proof. unfold Math_random, advance_random. now rewrite Nat.add_1_r. Qed.

Lemma floor_index (r : Q) (len : nat) :
  (0 <= r < 1)%Q -> (0 < len)%nat ->
  0 <= Qfloor (r * inject_Z (Z.of_nat len)) < Z.of_nat len.
Proof.
  intros [H0 H1] Hlen.
  assert (HL : (0 < inject_Z (Z.of_nat len))%Q).
  { change 0%Q with (inject_Z 0). rewrite <- Zlt_Qlt. lia. }
  split.
  - change 0 with (Qfloor 0). apply Qfloor_resp_le.
    apply Qmult_le_0_compat; [exact H0 | now apply Qlt_le_weak].
  - rewrite Zlt_Qlt.
    apply Qle_lt_trans with (r * inject_Z (Z.of_nat len))%Q; [apply Qfloor_le|].
    rewrite <- (Qmult_1_l (inject_Z (Z.of_nat len))) at 2.
    now apply Qmult_lt_compat_r.
Qed.

Lemma array_get_in_range {A} (l : list A) (i : Z) :
  0 <= i < Z.of_nat (length l) -> exists a, array_get l i = Some a /\ a ∈ l.
Proof.
  intros [H0 H1]. unfold array_get.
  destruct (Z.ltb_spec i 0) as [?|_]; [lia|].
  destruct (lookup_lt_is_Some_2 l (Z.to_nat i)) as [a Ha]; [lia|].
  exists a. split; [exact Ha|]. apply list_elem_of_lookup. eauto.
Qed.

Section Tournament.
Variable population : list PromptVariant.
Hypothesis population_nonempty : population <> [].

Lemma randomMember_valid (w : World) :
  valid_random (host w) ->
  exists c, randomMember population w = Ok c (advance_random 1 w) /\
            member population c.
Proof.
  intros Hv. unfold randomMember. rewrite (bind_Ok _ _ _ _ _ (Math_random_run w)).
  destruct (array_get_in_range population
              (Qfloor (Math_random_src (host w) (random_pos w)
                       * inject_Z (Z.of_nat (length population))))) as (p & Hp & Hin).
  { apply floor_index; [apply Hv|]. destruct population; [congruence | simpl; lia]. }
  exists (Some p). unfold ret. rewrite Hp. split; [reflexivity|]. exists p. auto.
Qed.

Lemma betterContestant_members (a b : option PromptVariant) (w : World) :
  member population a -> member population b ->
  exists r, betterContestant a b w = Ok r w /\ (r = a \/ r = b).
Proof.
  intros (pa & -> & _) (pb & -> & _). unfold betterContestant.
  destruct (getPerformance_pure (id pa) w) as [perfA HA].
  destruct (getPerformance_pure (id pb) w) as [perfB HB].
  rewrite (bind_Ok _ _ _ _ _ HA), (bind_Ok _ _ _ _ _ HB). unfold ret.
  destruct (Qgtb (avgReward perfA) (avgReward perfB)); eauto.
Qed.

Lemma drawContestants_valid (j : nat) :
  forall (contestants : list (option PromptVariant)) (w : World),
    valid_random (host w) ->
    Forall (member population) contestants ->
    exists cs, drawContestants j population contestants w = Ok cs (advance_random j w) /\
               Forall (member population) cs /\
               length cs = (length contestants + j)%nat.
Proof.
  induction j as [|j IH]; intros contestants w Hv Hall; simpl.
  - exists contestants. rewrite advance_random_0. split; [reflexivity|]. split; [assumption | lia].
  - destruct (randomMember_valid w Hv) as (c & Hc & Hm).
    rewrite (bind_Ok _ _ _ _ _ Hc).
    destruct (IH (contestants ++ [c]) (advance_random 1 w)) as (cs & Hcs & Hall' & Hlen).
    + exact Hv.
    + apply Forall_app. split; [assumption | constructor; [assumption | constructor]].
    + exists cs. rewrite Hcs, advance_random_add. split; [reflexivity|].
      split; [assumption|]. rewrite Hlen, length_app. simpl. lia.
Qed.

Lemma array_foldM_better (l : list (option PromptVariant)) :
  forall (acc : option PromptVariant) (w : World),
    member population acc -> Forall (member population) l ->
    exists r, array_foldM betterContestant acc l w = Ok r w /\ member population r.
Proof.
  induction l as [|x l IH]; intros acc w Hacc Hall; simpl.
  - exists acc. split; [reflexivity | assumption].
  - apply Forall_cons in Hall as [Hx Hall].
    destruct (betterContestant_members acc x w Hacc Hx) as (r & Hr & Hor).
    rewrite (bind_Ok _ _ _ _ _ Hr). apply IH; [|assumption].
    destruct Hor as [->| ->]; assumption.
Qed.

Lemma tournamentSelection_loop_valid (i : nat) :
  forall (selected : list (option PromptVariant)) (w : World),
    valid_random (host w) ->
    Forall (member population) selected ->
    exists res, tournamentSelection_loop i population selected w
                  = Ok res (advance_random (3 * i) w) /\
                Forall (member population) res /\
                length res = (length selected + i)%nat.
Proof.
  induction i as [|i IH]; intros selected w Hv Hall.
  - exists selected. simpl. rewrite advance_random_0.
    split; [reflexivity|]. split; [assumption | lia].
  - cbn [tournamentSelection_loop].
    destruct (drawContestants_valid 3 [] w Hv (Forall_nil_2 _)) as (cs & Hcs & Hm & Hlen).
    rewrite (bind_Ok _ _ _ _ _ Hcs).
    destruct cs as [|c0 cs]; [simpl in Hlen; lia|].
    apply Forall_cons in Hm as [Hc0 Hm].
    destruct (array_foldM_better cs c0 (advance_random 3 w) Hc0 Hm) as (best & Hbest & Hb).
    unfold array_reduce. rewrite (bind_Ok _ _ _ _ _ Hbest).
    destruct (IH (selected ++ [best]) (advance_random 3 w)) as (res & Hres & Hall' & Hl).
    + exact Hv.
    + apply Forall_app. split; [assumption | constructor; [assumption | constructor]].
    + exists res. rewrite Hres, advance_random_add.
      replace (3 + 3 * i)%nat with (3 * S i)%nat by lia.
      split; [reflexivity|]. split; [assumption|].
      rewrite Hl, length_app. simpl. lia.
Qed.

(** With a non-empty population and draws in range, the tournament
    returns [k] defined members of the population; it reads the database
    and writes nothing. *)
Lemma tournamentSelection_valid (k : nat) (w : World) :
  valid_random (host w) ->
  exists parents, tournamentSelection population k w
                    = Ok parents (advance_random (3 * k) w) /\
                  Forall (member population) parents /\
                  length parents = k.
Proof.
  intros Hv. unfold tournamentSelection.
  destruct (tournamentSelection_loop_valid k [] w Hv (Forall_nil_2 _))
    as (res & Hres & Hall & Hl).
  exists res. auto.
Qed.
End Tournament.

Lemma toHex_length (bytes : list byte) :
  String.length (toHex bytes) = (2 * length bytes)%nat.
Proof. induction bytes as [|b l IH]; simpl; [reflexivity | rewrite IH; lia]. Qed.

Lemma randomBytes_Ok_inv (n : nat) (w w1 : World) (bytes : list byte) :
  randomBytes n w = Ok bytes w1 ->
  length bytes = n /\ db w1 = db w /\ host w1 = host w /\
  clock_pos w1 = clock_pos w /\ random_pos w1 = random_pos w.
Proof.
  unfold randomBytes. intros H. injection H as <- <-.
  rewrite length_fmap, length_seq. auto.
Qed.

(** What a successful [createVariant] did: the id is the hexadecimal form of
    sixteen bytes, new as a key of both tables, and one row was added to
    each. *)
Lemma createVariant_Ok_inv (template : string) (parentId : option string)
    (generation : Z) (w w' : World) (newId : string) :
  createVariant template parentId generation w = Ok newId w' ->
  String.length newId = 32%nat /\
  (newId ∉ id <$> prompt_variants (db w)) /\
  variant_performance (db w) !! newId = None /\
  prompt_variants (db w') =
    (prompt_variants (db w) ++
       [mkPromptVariant newId template (orNull parentId) generation
          (Date_now_src (host w) (clock_pos w))]) /\
  variant_performance (db w') =
    <[newId := mkPerformanceRow 1 1 0 0 0 0]> (variant_performance (db w)) /\
  feedback_records (db w') = feedback_records (db w) /\
  preference_comparisons (db w') = preference_comparisons (db w) /\
  host w' = host w /\ random_pos w' = random_pos w.
Proof.
  intros H. unfold createVariant in H.
  apply bind_Ok_inv in H as (bytes & w1 & Hb & H).
  assert (Hb' : length bytes = 16%nat /\ db w1 = db w /\ host w1 = host w /\
                clock_pos w1 = clock_pos w /\ random_pos w1 = random_pos w).
  { now apply randomBytes_Ok_inv. }
  clear Hb. destruct Hb' as (Hlen & Hdb1 & Hh1 & Hc1 & Hr1).
  apply bind_Ok_inv in H as (now & w2 & Hnow & H).
  unfold Date_now in Hnow. injection Hnow as <- <-.
  apply bind_Ok_inv in H as ([] & w3 & Hins & H).
  apply bind_Ok_inv in H as ([] & w4 & Hperf & H).
  unfold ret in H. injection H as <- <-.
  unfold insertVariant in Hins.
  apply bind_Ok_inv in Hins as (d & w5 & Hd & Hins).
  unfold getDb in Hd. injection Hd as <- <-.
  cbn [db id] in Hins. rewrite Hdb1 in Hins.
  destruct (bool_decide (toHex bytes ∈ id <$> prompt_variants (db w))) eqn:E;
    [discriminate|].
  apply bool_decide_eq_false in E.
  unfold setDb in Hins. injection Hins as <-.
  unfold insertDefaultPerformance in Hperf.
  apply bind_Ok_inv in Hperf as (d & w6 & Hd & Hperf).
  unfold getDb in Hd. injection Hd as <- <-.
  cbn [db variant_performance] in Hperf.
  destruct (variant_performance (db w) !! toHex bytes) eqn:E2; [discriminate|].
  unfold setDb in Hperf. injection Hperf as <-.
  cbn [db host random_pos clock_pos prompt_variants variant_performance
       feedback_records preference_comparisons].
  rewrite Hh1, Hc1, Hr1, toHex_length, Hlen.
  repeat split; assumption.
Qed.

Lemma deref_Ok_inv {A} (x : option A) (w w' : World) (a : A) :
  deref x w = Ok a w' -> x = Some a /\ w' = w.
Proof. destruct x; unfold deref, ret, throw; intros H; inversion H; auto. Qed.

(** One generation that returned: the tournament chose two parents of the
    population, and the one row added to [prompt_variants] carries the id
    and the generation + 1 of the first. *)
Lemma evolveGeneration_Ok_inv (population : list PromptVariant) (w w' : World)
    (newId : string) :
  population <> [] ->
  valid_random (host w) ->
  Forall (fun pv => id pv <> "") population ->
  evolveGeneration population w = Ok newId w' ->
  exists parents wsel parent pv,
    tournamentSelection population 2 w = Ok parents wsel /\
    array_get parents 0 = Some (Some parent) /\
    parent ∈ population /\
    prompt_variants (db w') = (prompt_variants (db w) ++ [pv]) /\
    id pv = newId /\
    parentId pv = Some (id parent) /\
    generation pv = generation parent + 1 /\
    (newId ∉ id <$> prompt_variants (db w)) /\
    host w' = host w.
Proof.
  intros Hne Hv Hids Hrun. unfold evolveGeneration in Hrun.
  destruct (tournamentSelection_valid population Hne 2 w Hv) as (parents & Hsel & Hall & Hlen).
  rewrite (bind_Ok _ _ _ _ _ Hsel) in Hrun.
  destruct parents as [|o0 [|o1 [|? ?]]]; try discriminate Hlen.
  apply Forall_cons in Hall as [(p0 & -> & Hin0) Hall].
  apply Forall_cons in Hall as [(p1 & -> & Hin1) _].
  assert (E0 : array_get [Some p0; Some p1] 0 = Some (Some p0)) by reflexivity.
  assert (E1 : array_get [Some p0; Some p1] 1 = Some (Some p1)) by reflexivity.
  rewrite E0, E1 in Hrun.
  change (mjoin (Some (Some p0))) with (Some p0) in Hrun.
  change (mjoin (Some (Some p1))) with (Some p1) in Hrun.
  apply bind_Ok_inv in Hrun as (q0 & w0 & Hq0 & Hrun).
  apply deref_Ok_inv in Hq0 as [Hq0 ->]. injection Hq0 as <-.
  apply bind_Ok_inv in Hrun as (q1 & w0 & Hq1 & Hrun).
  apply deref_Ok_inv in Hq1 as [Hq1 ->]. injection Hq1 as <-.
  unfold crossoverPrompts in Hrun.
  apply bind_Ok_inv in Hrun as (off & w1 & Hoff & Hrun).
  unfold ret in Hoff. injection Hoff as <- <-.
  apply bind_Ok_inv in Hrun as (r & w2 & Hr & Hrun).
  rewrite Math_random_run in Hr. injection Hr as <- <-.
  apply bind_Ok_inv in Hrun as (mutated & w3 & Hmut & Hrun).
  assert (Hw3 : db w3 = db w /\ host w3 = host w /\ clock_pos w3 = clock_pos w) .
  { destruct (Qltb _ _) in Hmut.
    - unfold mutatePrompt in Hmut.
      apply bind_Ok_inv in Hmut as (r2 & w4 & Hr2 & Hmut).
      rewrite Math_random_run in Hr2. injection Hr2 as <- <-.
      unfold ret in Hmut. injection Hmut as _ <-. auto.
    - unfold ret in Hmut. injection Hmut as _ <-. auto. }
  destruct Hw3 as (Hdb & Hhost & Hclock).
  apply createVariant_Ok_inv in Hrun
    as (_ & Hfresh & _ & Hpv & _ & _ & _ & Hh & _).
  rewrite Hdb in Hpv, Hfresh.
  eexists _, _, p0, _. split; [exact Hsel|].
  split; [exact E0|]. split; [exact Hin0|].
  split; [exact Hpv|]. split; [reflexivity|]. cbn.
  split.
  { assert (Hid : id p0 <> "").
    { rewrite Forall_forall in Hids. now apply Hids. }
    destruct (id p0); [congruence | reflexivity]. }
  split; [reflexivity|]. split; [exact Hfresh | congruence].
Qed.

(** [createVariant] succeeds when the id it draws is new in both tables, and
    the posterior it stores is the default prior. *)
Lemma createVariant_fresh_Ok (template : string) (parentId : option string)
    (generation : Z) (w : World) :
  nextId w ∉ id <$> prompt_variants (db w) ->
  variant_performance (db w) !! nextId w = None ->
  exists w',
    createVariant template parentId generation w = Ok (nextId w) w' /\
    getVariantStats (nextId w) w' = Ok (defaultPrior (nextId w)) w'.
Proof.
  intros Hfresh Hnone. unfold createVariant.
  unfold bind at 1. unfold randomBytes at 1. fold (nextId w).
  unfold bind at 1. unfold Date_now at 1. cbn [host clock_pos].
  unfold bind at 1. unfold insertVariant at 1.
  unfold bind at 1. unfold getDb at 1. cbn [db id].
  rewrite bool_decide_eq_false_2 by exact Hfresh.
  unfold setDb at 1. cbn [host random_pos bytes_pos clock_pos explorationRate db].
  unfold bind at 1. unfold insertDefaultPerformance at 1.
  unfold bind at 1. unfold getDb at 1.
  cbn [db variant_performance prompt_variants feedback_records preference_comparisons].
  rewrite Hnone. unfold setDb, ret.
  cbn [host random_pos bytes_pos clock_pos explorationRate db].
  eexists. split; [reflexivity|].
  unfold getVariantStats.
  rewrite (getPerformance_stored _ _ (mkPerformanceRow 1 1 0 0 0 0)); [reflexivity|].
  cbn [db variant_performance]. apply lookup_insert_eq.
Qed.

(** One generation succeeds on a non-empty population when the draws are in
    range and the id drawn for the offspring is new. *)
Lemma evolveGeneration_fresh_Ok (population : list PromptVariant) (w : World) :
  population <> [] ->
  valid_random (host w) ->
  nextId w ∉ id <$> prompt_variants (db w) ->
  variant_performance (db w) !! nextId w = None ->
  exists w', evolveGeneration population w = Ok (nextId w) w'.
Proof.
  intros Hne Hv Hfresh Hnone. unfold evolveGeneration.
  destruct (tournamentSelection_valid population Hne 2 w Hv) as (parents & Hsel & Hall & Hlen).
  rewrite (bind_Ok _ _ _ _ _ Hsel).
  destruct parents as [|o0 [|o1 [|? ?]]]; try discriminate Hlen.
  apply Forall_cons in Hall as [(p0 & -> & Hin0) Hall].
  apply Forall_cons in Hall as [(p1 & -> & Hin1) _].
  assert (E0 : array_get [Some p0; Some p1] 0 = Some (Some p0)) by reflexivity.
  assert (E1 : array_get [Some p0; Some p1] 1 = Some (Some p1)) by reflexivity.
  rewrite E0, E1.
  change (mjoin (Some (Some p0))) with (Some p0).
  change (mjoin (Some (Some p1))) with (Some p1).
  unfold deref, crossoverPrompts.
  unfold bind at 1, ret at 1. unfold bind at 1, ret at 1. unfold bind at 1, ret at 1.
  rewrite (bind_Ok _ _ _ _ _ (Math_random_run _)). rewrite advance_random_add.
  assert (Hcreate : forall t (w0 : World),
            host w0 = host w -> bytes_pos w0 = bytes_pos w -> db w0 = db w ->
            exists w', createVariant t (Some (id p0)) (generation p0 + 1) w0
                       = Ok (nextId w) w').
  { intros t w0 Hh Hb Hd.
    assert (Hid : nextId w0 = nextId w) by (unfold nextId; now rewrite Hh, Hb).
    destruct (createVariant_fresh_Ok t (Some (id p0)) (generation p0 + 1) w0)
      as (w' & Hw' & _); [now rewrite Hid, Hd..|].
    exists w'. now rewrite <- Hid. }
  destruct (Qltb _ _).
  - unfold mutatePrompt. unfold bind at 1.
    rewrite (bind_Ok _ _ _ _ _ (Math_random_run _)). rewrite advance_random_add.
    unfold ret at 1. now apply Hcreate.
  - unfold bind at 1, ret at 1. now apply Hcreate.
Qed.

(** *** The breeding pool *)

#[local] Instance by_avg_reward_desc_total : Total by_avg_reward_desc.
Proof.
  intros x y. unfold by_avg_reward_desc. rewrite !Qle_bool_iff.
  destruct (Qlt_le_dec (snd x) (snd y)); [right; now apply Qlt_le_weak | now left].
Qed.

#[local] Instance by_avg_reward_desc_trans : Transitive by_avg_reward_desc.
Proof.
  intros x y z. unfold by_avg_reward_desc. rewrite !Qle_bool_iff.
  intros H1 H2. exact (Qle_trans _ _ _ H2 H1).
Qed.

Lemma joinPerformance_elem (minTrials : Z) (d : Database) (x : PromptVariant * Q) :
  x ∈ joinPerformance minTrials d ->
  fst x ∈ prompt_variants d /\
  (exists row, variant_performance d !! id (fst x) = Some row /\
               minTrials <= total_trials row) /\
  snd x = rewardOf d (fst x).
Proof.
  unfold joinPerformance. rewrite list_elem_of_omap. intros (pv & Hin & Hf).
  unfold rewardOf.
  destruct (variant_performance d !! id pv) as [row|] eqn:E; [|discriminate].
  destruct (Z.leb_spec minTrials (total_trials row)); [|discriminate].
  injection Hf as <-. simpl. rewrite E. eauto.
Qed.

Lemma StronglySorted_fmap_elem {A B} (f : A -> B) (R1 : relation A) (R2 : relation B)
    (l : list A) :
  (forall x y, x ∈ l -> y ∈ l -> R1 x y -> R2 (f x) (f y)) ->
  StronglySorted R1 l -> StronglySorted R2 (f <$> l).
Proof.
  induction l as [|a l IH]; intros Hf Hs; [constructor|].
  apply StronglySorted_cons in Hs as [Hall Hs]. rewrite fmap_cons.
  apply StronglySorted_cons. split.
  - apply Forall_fmap, Forall_forall. intros y Hy. simpl.
    apply Hf; [left | now right |]. rewrite Forall_forall in Hall. now apply Hall.
  - apply IH; [|exact Hs]. intros x y Hx Hy. apply Hf; now right.
Qed.

Lemma sql_limit_split {A} (n : Z) (rows : list A) :
  exists rest, rows = sql_limit n rows ++ rest /\
               (0 <= n -> (length (sql_limit n rows) <= Z.to_nat n)%nat).
Proof.
  unfold sql_limit. destruct (Z.ltb_spec n 0).
  - exists []. rewrite app_nil_r. split; [reflexivity | lia].
  - exists (drop (Z.to_nat n) rows). rewrite take_drop. split; [reflexivity|].
    intros _. rewrite length_take. lia.
Qed.

(** [getTopVariants] reads the database and returns a breeding pool. *)
Lemma getTopVariants_breedingPool (n : Z) (w : World) :
  exists population,
    getTopVariants n w = Ok population w /\ breedingPool n (db w) population.
Proof.
  unfold getTopVariants; unfold_m.
  set (J := joinPerformance minTrialsBeforeExploitation (db w)).
  set (S := merge_sort by_avg_reward_desc J).
  eexists. split; [reflexivity|].
  assert (HS : StronglySorted by_avg_reward_desc S)
    by (apply StronglySorted_merge_sort; apply _).
  assert (HP : S ≡ₚ J) by apply merge_sort_Permutation.
  destruct (sql_limit_split n S) as (rest & Hsplit & Hlen).
  assert (HinJ : forall x, x ∈ S -> x ∈ J) by (intros x; now rewrite HP).
  assert (Hlim : forall x, x ∈ sql_limit n S -> x ∈ S).
  { intros x Hx. rewrite Hsplit. apply elem_of_app. now left. }
  assert (Hrest : forall x, x ∈ rest -> x ∈ S).
  { intros x Hx. rewrite Hsplit. apply elem_of_app. now right. }
  assert (Hrel : forall x y, x ∈ S -> y ∈ S -> by_avg_reward_desc x y ->
                   (rewardOf (db w) (fst y) <= rewardOf (db w) (fst x))%Q).
  { intros x y Hx Hy Hxy. unfold by_avg_reward_desc in Hxy.
    apply Qle_bool_iff in Hxy.
    destruct (joinPerformance_elem _ _ _ (HinJ _ Hx)) as (_ & _ & <-).
    destruct (joinPerformance_elem _ _ _ (HinJ _ Hy)) as (_ & _ & <-).
    exact Hxy. }
  rewrite Hsplit in HS.
  split; [|split; [|split]].
  - intros p Hp. apply list_elem_of_fmap in Hp as (x & -> & Hx).
    destruct (joinPerformance_elem _ _ _ (HinJ _ (Hlim _ Hx))) as (H1 & H2 & _).
    auto.
  - apply (StronglySorted_fmap_elem fst by_avg_reward_desc).
    + intros x y Hx Hy. apply Hrel; auto.
    + exact (StronglySorted_app_1_l _ _ _ HS).
  - intros Hn. rewrite length_fmap. auto.
  - exists (fst <$> rest). split.
    + rewrite <- fmap_app, <- Hsplit. now rewrite HP.
    + intros p q Hp Hq.
      apply list_elem_of_fmap in Hp as (x & -> & Hx).
      apply list_elem_of_fmap in Hq as (y & -> & Hy).
      apply Hrel; auto.
      exact (StronglySorted_app_1_elem_of _ _ _ _ _ HS Hx Hy).
Qed.

(** *** The loop of [evolvePrompts] *)

Lemma evolvePrompts_loop_Ok_inv (population : list PromptVariant) :
  population <> [] ->
  Forall (fun pv => id pv <> "") population ->
  forall (n : nat) (acc : list string) (w w' : World) (ids : list string),
    valid_random (host w) ->
    evolvePrompts_loop n population acc w = Ok ids w' ->
    exists rows,
      ids = acc ++ (id <$> rows) /\
      length rows = n /\
      prompt_variants (db w') = prompt_variants (db w) ++ rows /\
      forall g pv, rows !! g = Some pv ->
        (id pv ∉ id <$> prompt_variants (db w)) /\
        exists wg parents wsel parent,
          generationStarts n population w !! g = Some wg /\
          tournamentSelection population 2 wg = Ok parents wsel /\
          array_get parents 0 = Some (Some parent) /\
          parent ∈ population /\
          parentId pv = Some (id parent) /\
          generation pv = generation parent + 1.
Proof.
  intros Hne Hids. induction n as [|n IH]; intros acc w w' ids Hv Hrun.
  - simpl in Hrun. unfold ret in Hrun. injection Hrun as <- <-.
    exists []. rewrite !app_nil_r.
    split; [reflexivity|]. split; [reflexivity|]. split; [reflexivity|].
    intros g pv Hlook. rewrite lookup_nil in Hlook. discriminate.
  - cbn [evolvePrompts_loop] in Hrun.
    apply bind_Ok_inv in Hrun as (newId & w1 & Hgen & Hrun).
    destruct (evolveGeneration_Ok_inv population w w1 newId Hne Hv Hids Hgen)
      as (parents & wsel & parent & pv0 & Hsel & Hp0 & Hin & Hpv & Hid & Hpar & Hg & Hfresh & Hhost).
    assert (Hv1 : valid_random (host w1)) by now rewrite Hhost.
    destruct (IH _ _ _ _ Hv1 Hrun) as (rows & -> & Hlen & Hpvs & Hrows).
    exists (pv0 :: rows). rewrite fmap_cons, Hid.
    split; [now rewrite <- app_assoc|].
    split; [simpl; now rewrite Hlen|].
    split; [rewrite Hpvs, Hpv; now rewrite <- app_assoc|].
    intros g pv Hlook. cbn [generationStarts]. rewrite Hgen.
    destruct g as [|g].
    + assert (pv = pv0) as -> by (cbn in Hlook; congruence).
      split; [now rewrite Hid|].
      exists w, parents, wsel, parent. split; [reflexivity | auto 10].
    + change (rows !! g = Some pv) in Hlook.
      destruct (Hrows g pv Hlook) as (Hnew & wg & ps & ws & p & H1 & H2).
      split.
      * rewrite Hpv, fmap_app in Hnew. intros Hc. apply Hnew.
        apply elem_of_app. now left.
      * exists wg, ps, ws, p. split; [exact H1 | exact H2].
Qed.

(** C6: when [evolvePrompts] returns on a non-empty breeding pool, the pool
    is the top [populationSize] of the variants with at least 10 trials in
    descending order of average reward; the loop added one new row to
    [prompt_variants] per generation, the returned list is the list of
    their ids in that order, and the row of generation [g] has as parent
    reference the id of the first parent chosen by the tournament of
    iteration [g], a member of that pool, and as generation that parent's
    generation + 1. *)
Theorem evolvePrompts_lineage (w w' : World) (populationSize nGenerations : Z)
    (population : list PromptVariant) (ids : list string) :
  valid_random (host w) ->
  Forall (fun pv => id pv <> "") (prompt_variants (db w)) ->
  getTopVariants populationSize w = Ok population w ->
  population <> [] ->
  evolvePrompts populationSize nGenerations w = Ok ids w' ->
  breedingPool populationSize (db w) population /\
  length ids = Z.to_nat nGenerations /\
  exists rows,
    prompt_variants (db w') = prompt_variants (db w) ++ rows /\
    id <$> rows = ids /\
    forall g pv, rows !! g = Some pv ->
      (id pv ∉ id <$> prompt_variants (db w)) /\
      exists wg parents wsel parent,
        generationStarts (Z.to_nat nGenerations) population w !! g = Some wg /\
        tournamentSelection population 2 wg = Ok parents wsel /\
        array_get parents 0 = Some (Some parent) /\
        parent ∈ population /\
        parentId pv = Some (id parent) /\
        generation pv = generation parent + 1.
Proof.
  intros Hv Hids Htop Hne Hrun.
  destruct (getTopVariants_breedingPool populationSize w) as (pop & Hpop & Hpool).
  rewrite Htop in Hpop. injection Hpop as <-.
  split; [exact Hpool|].
  unfold evolvePrompts in Hrun. rewrite (bind_Ok _ _ _ _ _ Htop) in Hrun.
  assert (Hids' : Forall (fun pv => id pv <> "") population).
  { rewrite Forall_forall in Hids |- *. intros p Hp.
    apply Hids. now apply Hpool. }
  destruct (evolvePrompts_loop_Ok_inv population Hne Hids' _ _ _ _ _ Hv Hrun)
    as (rows & -> & Hlen & Hpvs & Hrows).
  rewrite app_nil_l, length_fmap. split; [exact Hlen|].
  exists rows. auto.
Qed.

Lemma evolvePrompts_lineage_witness :
  exists ids w',
    evolvePrompts 5 2 world_pool = Ok ids w' /\
    breedingPool 5 (db world_pool) [variant_b2; variant_a1] /\
    length ids = 2%nat /\
    exists rows,
      prompt_variants (db w') = prompt_variants (db world_pool) ++ rows /\
      id <$> rows = ids /\
      forall g pv, rows !! g = Some pv ->
        (id pv ∉ id <$> prompt_variants (db world_pool)) /\
        exists wg parents wsel parent,
          generationStarts 2 [variant_b2; variant_a1] world_pool !! g = Some wg /\
          tournamentSelection [variant_b2; variant_a1] 2 wg = Ok parents wsel /\
          array_get parents 0 = Some (Some parent) /\
          parent ∈ [variant_b2; variant_a1] /\
          parentId pv = Some (id parent) /\
          generation pv = generation parent + 1.
Proof.
  eexists _, _. split; [vm_compute; reflexivity|].
  apply (evolvePrompts_lineage world_pool _ 5 2 [variant_b2; variant_a1]).
  - intros n. split; [unfold Qle; simpl; lia | reflexivity].
  - repeat constructor; discriminate.
  - vm_compute. reflexivity.
  - discriminate.
  - vm_compute. reflexivity.
Defined.

(** ** The sampler on finite numbers *)

Local Open Scope R_scope.

Lemma num_div_Fin (a b : R) : b <> 0 -> num_div (Fin a) (Fin b) = Fin (a / b).
Proof. intros H. unfold num_div. now destruct (Req_dec_T b 0). Qed.

Lemma Math_sqrt_Fin (r : R) : 0 <= r -> Math_sqrt (Fin r) = Fin (sqrt r).
Proof. intros H. unfold Math_sqrt. destruct (Rlt_dec r 0); [lra | reflexivity]. Qed.

Lemma Math_log_Fin (r : R) : 0 < r -> Math_log (Fin r) = Fin (ln r).
Proof.
  intros H. unfold Math_log. destruct (Rlt_dec r 0); [lra|].
  destruct (Req_dec_T r 0); [lra | reflexivity].
Qed.

Lemma num_ltb_Fin_true (a b : R) : a < b -> num_ltb (Fin a) (Fin b) = true.
Proof. intros H. unfold num_ltb. now destruct (Rlt_dec a b). Qed.

Lemma num_ltb_Fin_false (a b : R) : b <= a -> num_ltb (Fin a) (Fin b) = false.
Proof. intros H. unfold num_ltb. destruct (Rlt_dec a b); [lra | reflexivity]. Qed.

Lemma num_ltb_Fin_inv (a b : R) : num_ltb (Fin a) (Fin b) = true -> a < b.
Proof. unfold num_ltb. now destruct (Rlt_dec a b). Qed.

Lemma num_leb_Fin_false (a b : R) : b < a -> num_leb (Fin a) (Fin b) = false.
Proof. intros H. unfold num_leb. destruct (Rle_dec a b); [lra | reflexivity]. Qed.

Lemma num_leb_Fin_true (a b : R) : a <= b -> num_leb (Fin a) (Fin b) = true.
Proof. intros H. unfold num_leb. now destruct (Rle_dec a b). Qed.

Lemma num_leb_Fin_inv (a b : R) : num_leb (Fin a) (Fin b) = false -> b < a.
Proof. unfold num_leb. destruct (Rle_dec a b); [discriminate | lra]. Qed.

Lemma Math_pow_Fin (b e : R) :
  0 < b -> e <> 0 -> Math_pow (Fin b) (Fin e) = Fin (Rpower b e).
Proof.
  intros Hb He. unfold Math_pow.
  destruct (Req_dec_T e 0); [contradiction|].
  destruct (Rlt_dec b 0); [lra|].
  destruct (Req_dec_T b 0); [lra | reflexivity].
Qed.

Lemma ln_neg (u : R) : 0 < u < 1 -> ln u < 0.
Proof. intros [H0 H1]. rewrite <- ln_1. now apply ln_increasing. Qed.

Lemma Math_random_num_run (w : World) :
  Math_random_num w = Ok (Fin (draw w 0)) (advance_random 1 w).
Proof.
  unfold Math_random_num. rewrite (bind_Ok _ _ _ _ _ (Math_random_run w)).
  unfold ret, ofQ, draw. now rewrite Nat.add_0_r.
Qed.

Lemma draw_advance (w : World) (n k : nat) :
  draw (advance_random n w) k = draw w (n + k).
Proof. unfold draw, advance_random; simpl. now rewrite Nat.add_assoc. Qed.

(** Box-Muller on two draws inside the open unit interval. *)
Lemma randomNormal_run (w : World) :
  0 < draw w 0 < 1 ->
  randomNormal w =
    Ok (Fin (sqrt (-2 * ln (draw w 0)) * cos (2 * PI * draw w 1)))
       (advance_random 2 w).
Proof.
  intros Hu. unfold randomNormal.
  rewrite (bind_Ok _ _ _ _ _ (Math_random_num_run w)).
  rewrite (bind_Ok _ _ _ _ _ (Math_random_num_run (advance_random 1 w))).
  rewrite advance_random_add, draw_advance. unfold ret. simpl (1 + 0)%nat.
  rewrite Math_log_Fin by tauto.
  change (- num_2 * Fin (ln (draw w 0)))%num with (Fin (- 2 * ln (draw w 0))).
  rewrite Math_sqrt_Fin.
  - reflexivity.
  - pose proof (ln_neg _ Hu). lra.
Qed.

Lemma num_add_Fin (a b : R) : (Fin a + Fin b)%num = Fin (a + b).
Proof. reflexivity. Qed.

Lemma num_sub_Fin (a b : R) : (Fin a - Fin b)%num = Fin (a - b).
Proof. reflexivity. Qed.

Lemma num_mul_Fin (a b : R) : (Fin a * Fin b)%num = Fin (a * b).
Proof. reflexivity. Qed.

Lemma num_neg_Fin (a : R) : (- Fin a)%num = Fin (- a).
Proof. reflexivity. Qed.

Create Rewrite HintDb fin_arith.
#[local] Hint Rewrite num_add_Fin num_sub_Fin num_mul_Fin num_neg_Fin : fin_arith.

Lemma cos_quarter_turn : cos (2 * PI * (1 / 4)) = 0.
Proof. replace (2 * PI * (1 / 4)) with (PI / 2) by field. apply cos_PI2. Qed.

(** A run of [sampleGamma] that accepts its first candidate: with a shape of
    at least 1, a first draw strictly between 0 and 1 and a second draw of
    1/4, the normal deviate is 0, the candidate is 1, and any third draw
    below 1 passes the first test. *)
Lemma sampleGamma_accept_first (fuel : nat) (s : R) (w : World) :
  1 <= s ->
  0 < draw w 0 < 1 ->
  draw w 1 = 1 / 4 ->
  draw w 2 < 1 ->
  sampleGamma (S (S fuel)) (Fin s) (Fin 1) w = Ok (Fin (s - 1 / 3)) (advance_random 3 w).
Proof.
  intros Hs Hu1 Hu2 Hu3.
  cbn [sampleGamma]. unfold num_1 at 1. rewrite num_ltb_Fin_false by exact Hs.
  unfold num_1, num_3, num_9. rewrite num_div_Fin by lra.
  autorewrite with fin_arith.
  rewrite Math_sqrt_Fin by lra.
  rewrite num_div_Fin by (apply Rgt_not_eq, sqrt_lt_R0; lra).
  set (d := s - 1 / 3). set (c := 1 / sqrt (9 * d)).
  cbn [sampleGamma_loop sampleGamma_candidate].
  unfold bind at 1.
  rewrite (bind_Ok _ _ _ _ _ (randomNormal_run w Hu1)).
  rewrite Hu2, cos_quarter_turn, Rmult_0_r.
  unfold num_1, num_0. autorewrite with fin_arith.
  rewrite num_leb_Fin_false by lra.
  unfold ret at 1. cbn [fst snd].
  rewrite (bind_Ok _ _ _ _ _ (Math_random_num_run (advance_random 2 w))).
  rewrite draw_advance, advance_random_add. simpl (2 + 0)%nat. simpl (2 + 1)%nat.
  unfold num_0_0331. autorewrite with fin_arith.
  rewrite num_ltb_Fin_true by lra.
  unfold ret. do 2 f_equal. ring.
Qed.

Lemma Q2R_quarter : Q2R (1 # 4) = 1 / 4.
Proof. unfold Q2R; simpl. lra. Qed.

Lemma Q2R_half : Q2R (1 # 2) = 1 / 2.
Proof. unfold Q2R; simpl. lra. Qed.

(** [sampleBeta] when every draw is 1/4: each [sampleGamma] accepts its
    first candidate. *)
Lemma sampleBeta_quarter (fuel : nat) (a b : R) (w : World) :
  (forall n, Math_random_src (host w) n = (1 # 4)%Q) ->
  1 <= a -> 1 <= b ->
  sampleBeta (S (S fuel)) (Fin a) (Fin b) w =
    Ok (Fin ((a - 1 / 3) / ((a - 1 / 3) + (b - 1 / 3)))) (advance_random 6 w).
Proof.
  intros Hq Ha Hb.
  assert (Hd : forall w1 k, host w1 = host w -> draw w1 k = 1 / 4).
  { intros w1 k Hh. unfold draw. rewrite Hh, Hq. apply Q2R_quarter. }
  unfold sampleBeta.
  rewrite (bind_Ok _ _ _ _ _ (sampleGamma_accept_first fuel a w Ha
             ltac:(rewrite Hd by reflexivity; lra) (Hd w 1%nat eq_refl)
             ltac:(rewrite Hd by reflexivity; lra))).
  rewrite (bind_Ok _ _ _ _ _ (sampleGamma_accept_first fuel b (advance_random 3 w) Hb
             ltac:(rewrite Hd by reflexivity; lra) (Hd (advance_random 3 w) 1%nat eq_refl)
             ltac:(rewrite Hd by reflexivity; lra))).
  rewrite advance_random_add. autorewrite with fin_arith.
  rewrite num_div_Fin by lra. reflexivity.
Qed.

Lemma Math_pow_zero_base (e : R) : 0 < e -> Math_pow (Fin 0) (Fin e) = Fin 0.
Proof.
  intros He. unfold Math_pow.
  destruct (Req_dec_T e 0); [lra|].
  destruct (Rlt_dec 0 0); [lra|].
  destruct (Req_dec_T 0 0); [|lra].
  destruct (Rlt_dec 0 e); [reflexivity | lra].
Qed.

(** *** Draws in range, a draw of 0 included *)

Lemma num_mul_pos_PInf (a : R) : 0 < a -> (Fin a * PInf)%num = PInf.
Proof. intros H. unfold num_mul, num_sign. now destruct (Rlt_dec 0 a). Qed.

Lemma num_mul_pos_NInf (a : R) : 0 < a -> (Fin a * NInf)%num = NInf.
Proof. intros H. unfold num_mul, num_sign. now destruct (Rlt_dec 0 a). Qed.

Lemma valid_random_draw (w : World) (k : nat) :
  valid_random (host w) -> 0 <= draw w k < 1.
Proof.
  intros H. destruct (H (random_pos w + k)%nat) as [H0 H1]. unfold draw.
  apply Qreals.Qle_Rle in H0. apply Qreals.Qlt_Rlt in H1.
  rewrite RMicromega.Q2R_0 in H0. rewrite RMicromega.Q2R_1 in H1. tauto.
Qed.

(** What [randomNormal] returns on draws in range: a real, or, when the
    first draw is 0, an infinity or [NaN]. *)
Lemma randomNormal_valid (w : World) :
  valid_random (host w) ->
  exists x, randomNormal w = Ok x (advance_random 2 w).
Proof.
  intros _. unfold randomNormal.
  rewrite (bind_Ok _ _ _ _ _ (Math_random_num_run w)).
  rewrite (bind_Ok _ _ _ _ _ (Math_random_num_run (advance_random 1 w))).
  rewrite advance_random_add. eexists. reflexivity.
Qed.

Lemma randomNormal_value (w : World) (x : number) (w' : World) :
  randomNormal w = Ok x w' ->
  x = (Math_sqrt (- num_2 * Math_log (Fin (draw w 0)))
       * Math_cos (num_2 * Math_PI * Fin (draw w 1)))%num /\
  w' = advance_random 2 w.
Proof.
  unfold randomNormal.
  rewrite (bind_Ok _ _ _ _ _ (Math_random_num_run w)).
  rewrite (bind_Ok _ _ _ _ _ (Math_random_num_run (advance_random 1 w))).
  rewrite advance_random_add, draw_advance. unfold ret.
  intros H. injection H as <- <-. auto.
Qed.

(** The normal deviate is a real, an infinity or [NaN]; with a positive
    factor [c], [1 + c * x] is then a real, the same infinity or [NaN]. *)
Lemma candidate_value (c : R) (x : number) :
  0 < c ->
  match x with
  | Fin r => (num_1 + Fin c * x)%num = Fin (1 + c * r)
  | PInf => (num_1 + Fin c * x)%num = PInf
  | NInf => (num_1 + Fin c * x)%num = NInf
  | NaN => (num_1 + Fin c * x)%num = NaN
  end.
Proof.
  intros Hc. destruct x; try reflexivity.
  - now rewrite num_mul_pos_PInf.
  - now rewrite num_mul_pos_NInf.
Qed.

Lemma sampleGamma_candidate_shape (c : R) (fuel : nat) :
  0 < c ->
  forall (w w' : World) (xv : number * number),
    sampleGamma_candidate fuel (Fin c) w = Ok xv w' ->
    candidateShape xv /\ host w' = host w.
Proof.
  intros Hc. induction fuel as [|fuel IH]; intros w w' xv Hrun; [discriminate|].
  cbn [sampleGamma_candidate] in Hrun.
  apply bind_Ok_inv in Hrun as (x & w1 & Hx & Hrun).
  apply randomNormal_value in Hx as [_ ->].
  pose proof (candidate_value c x Hc) as Hv.
  destruct x as [r| | |]; rewrite Hv in Hrun.
  - destruct (num_leb (Fin (1 + c * r)) num_0) eqn:E.
    + apply IH in Hrun as [Hs Hh]. auto.
    + unfold ret in Hrun. injection Hrun as <- <-.
      apply num_leb_Fin_inv in E. split; [|reflexivity]. left. eauto.
  - cbn in Hrun. unfold ret in Hrun. injection Hrun as <- <-.
    split; [|reflexivity]. right. now left.
  - cbn [num_leb num_0] in Hrun. apply IH in Hrun as [Hs Hh]. auto.
  - cbn in Hrun. unfold ret in Hrun. injection Hrun as <- <-.
    split; [|reflexivity]. right. now right.
Qed.

Lemma sampleGamma_loop_valid (d c : R) (fuel : nat) :
  0 < d -> 0 < c ->
  forall (w w' : World) (g : number),
    valid_random (host w) ->
    sampleGamma_loop fuel (Fin d) (Fin c) (Fin 1) w = Ok g w' ->
    exists x, g = Fin x /\ 0 < x /\ host w' = host w.
Proof.
  intros Hd Hc. induction fuel as [|fuel IH]; intros w w' g Hv Hrun; [discriminate|].
  cbn [sampleGamma_loop] in Hrun.
  apply bind_Ok_inv in Hrun as (xv & w1 & Hxv & Hrun).
  apply sampleGamma_candidate_shape in Hxv as [Hshape Hh1]; [|exact Hc].
  rewrite (bind_Ok _ _ _ _ _ (Math_random_num_run w1)) in Hrun.
  assert (Hv1 : valid_random (host (advance_random 1 w1))) by (simpl; now rewrite Hh1).
  assert (Hrec : sampleGamma_loop fuel (Fin d) (Fin c) (Fin 1) (advance_random 1 w1)
                 = Ok g w' -> exists x, g = Fin x /\ 0 < x /\ host w' = host w).
  { intros H. destruct (IH _ _ _ Hv1 H) as (r & Hr & Hr0 & Hh).
    exists r. split; [exact Hr|]. split; [exact Hr0|]. simpl in Hh. congruence. }
  destruct Hshape as [(x & v & -> & Hvpos)|[-> | ->]]; cbn [fst snd] in Hrun.
  - change (Fin d * (Fin v * Fin v * Fin v) * Fin 1)%num
      with (Fin (d * (v * v * v) * 1)) in Hrun.
    assert (Hpos : 0 < d * (v * v * v) * 1).
    { rewrite Rmult_1_r. repeat apply Rmult_lt_0_compat; assumption. }
    destruct (num_ltb _ _) in Hrun.
    { unfold ret in Hrun. injection Hrun as <- <-. exists (d * (v * v * v) * 1).
      split; [reflexivity|]. split; [exact Hpos | exact Hh1]. }
    destruct (num_ltb _ _) in Hrun.
    { unfold ret in Hrun. injection Hrun as <- <-. exists (d * (v * v * v) * 1).
      split; [reflexivity|]. split; [exact Hpos | exact Hh1]. }
    now apply Hrec.
  - assert (E1 : num_ltb (Fin (draw w1 0))
                   (num_1 - num_0_0331 * (PInf * PInf) * (PInf * PInf))%num = false).
    { unfold num_0_0331. change (PInf * PInf)%num with PInf.
      rewrite num_mul_pos_PInf by lra. reflexivity. }
    assert (E2 : forall u, num_ltb u
                   (num_half * (PInf * PInf)
                    + Fin d * (num_1 - PInf * PInf * PInf + Math_log (PInf * PInf * PInf)))%num
                 = false).
    { intros u. change (PInf * PInf)%num with PInf.
      change (num_1 - PInf + Math_log PInf)%num with NaN.
      unfold num_half. rewrite num_mul_pos_PInf by lra.
      destruct u; reflexivity. }
    rewrite E1, E2 in Hrun. now apply Hrec.
  - assert (E1 : num_ltb (Fin (draw w1 0))
                   (num_1 - num_0_0331 * (NaN * NaN) * (NaN * NaN))%num = false).
    { unfold num_0_0331. reflexivity. }
    assert (E2 : forall u, num_ltb u
                   (num_half * (NaN * NaN)
                    + Fin d * (num_1 - NaN * NaN * NaN + Math_log (NaN * NaN * NaN)))%num
                 = false).
    { intros u. unfold num_half. cbn [num_mul num_add]. destruct u; reflexivity. }
    rewrite E1, E2 in Hrun. now apply Hrec.
Qed.

Lemma sampleGamma_valid (fuel : nat) (s : R) (w w' : World) (g : number) :
  1 <= s ->
  valid_random (host w) ->
  sampleGamma fuel (Fin s) (Fin 1) w = Ok g w' ->
  exists x, g = Fin x /\ 0 < x /\ host w' = host w.
Proof.
  intros Hs Hv Hrun. destruct fuel as [|fuel]; [discriminate|].
  cbn [sampleGamma] in Hrun. unfold num_1 at 1 in Hrun.
  rewrite num_ltb_Fin_false in Hrun by exact Hs.
  unfold num_1, num_3, num_9 in Hrun. rewrite num_div_Fin in Hrun by lra.
  autorewrite with fin_arith in Hrun.
  rewrite Math_sqrt_Fin in Hrun by lra.
  assert (Hsq : 0 < sqrt (9 * (s - 1 / 3))) by (apply sqrt_lt_R0; lra).
  rewrite num_div_Fin in Hrun by lra.
  apply sampleGamma_loop_valid in Hrun; [exact Hrun | lra | | exact Hv].
  apply Rdiv_lt_0_compat; lra.
Qed.

Lemma sampleBeta_valid (fuel : nat) (a b : R) (w w' : World) (r : number) :
  1 <= a -> 1 <= b ->
  valid_random (host w) ->
  sampleBeta fuel (Fin a) (Fin b) w = Ok r w' ->
  inOpenUnit r /\ host w' = host w.
Proof.
  intros Ha Hb Hv Hrun. unfold sampleBeta in Hrun.
  apply bind_Ok_inv in Hrun as (x & w1 & Hx & Hrun).
  apply sampleGamma_valid in Hx as (x' & -> & Hx' & Hh1); [|exact Ha|exact Hv].
  apply bind_Ok_inv in Hrun as (y & w2 & Hy & Hrun).
  apply sampleGamma_valid in Hy as (y' & -> & Hy' & Hh2); [|exact Hb|now rewrite Hh1].
  autorewrite with fin_arith in Hrun. rewrite num_div_Fin in Hrun by lra.
  unfold ret in Hrun. injection Hrun as <- <-. split; [|congruence]. simpl.
  assert (Hsum : 0 < x' + y') by lra.
  split.
  - apply Rdiv_lt_0_compat; assumption.
  - apply (Rmult_lt_reg_r (x' + y')); [exact Hsum|].
    unfold Rdiv. rewrite Rmult_assoc, Rinv_l by lra. lra.
Qed.

Lemma num_div_zero_zero : (Fin 0 / Fin 0)%num = NaN.
Proof.
  unfold num_div, num_sign. destruct (Req_dec_T 0 0); [|lra].
  destruct (Rlt_dec 0 0); [lra | reflexivity].
Qed.

(** For a positive shape and draws in range, a result of [sampleGamma] is a
    real that is not negative: below shape 1 it is a positive real times
    [Math.pow(u, 1 / shape)], which is 0 for a draw [u] of 0. *)
Lemma sampleGamma_nonneg (fuel : nat) (s : R) (w w' : World) (g : number) :
  0 < s ->
  valid_random (host w) ->
  sampleGamma fuel (Fin s) (Fin 1) w = Ok g w' ->
  exists x, g = Fin x /\ 0 <= x /\ host w' = host w.
Proof.
  intros Hs Hv Hrun.
  destruct (Rlt_dec s 1) as [Hlt|Hge].
  2:{ apply sampleGamma_valid in Hrun as (x & -> & Hx & Hh); [|lra|exact Hv].
      exists x. split; [reflexivity|]. split; [lra | exact Hh]. }
  destruct fuel as [|fuel]; [discriminate|].
  cbn [sampleGamma] in Hrun. unfold num_1 at 1 in Hrun.
  rewrite num_ltb_Fin_true in Hrun by exact Hlt.
  apply bind_Ok_inv in Hrun as (g0 & w1 & Hg0 & Hrun).
  unfold num_1 in Hg0. rewrite num_add_Fin in Hg0.
  apply sampleGamma_valid in Hg0 as (x0 & -> & Hx0 & Hh1); [|lra|exact Hv].
  rewrite (bind_Ok _ _ _ _ _ (Math_random_num_run w1)) in Hrun.
  assert (Hv1 : valid_random (host w1)) by now rewrite Hh1.
  destruct (valid_random_draw w1 0 Hv1) as [Hu0 Hu1].
  unfold num_1 in Hrun. rewrite num_div_Fin in Hrun by lra.
  assert (He : 0 < 1 / s) by (apply Rdiv_lt_0_compat; lra).
  destruct (Req_dec_T (draw w1 0) 0) as [E0|Hne].
  - rewrite E0, Math_pow_zero_base in Hrun by exact He.
    rewrite num_mul_Fin in Hrun. unfold ret in Hrun. injection Hrun as <- <-.
    eexists. split; [reflexivity|]. split; [lra | exact Hh1].
  - rewrite Math_pow_Fin in Hrun by lra.
    rewrite num_mul_Fin in Hrun. unfold ret in Hrun. injection Hrun as <- <-.
    eexists. split; [reflexivity|]. split; [|exact Hh1].
    apply Rmult_le_pos; [lra|]. unfold Rpower. left. apply exp_pos.
Qed.

(** C2 (as the source behaves): for alpha > 0 and beta > 0 and draws of
    [Math.random] in range, a draw of 0 included, a result of [sampleBeta]
    is [NaN] or a number from 0 to 1, both ends included. *)
Theorem sampleBeta_closed_unit (fuel : nat) (a b : R) (w w' : World) (r : number) :
  0 < a -> 0 < b ->
  valid_random (host w) ->
  sampleBeta fuel (Fin a) (Fin b) w = Ok r w' ->
  inClosedUnitOrNaN r.
Proof.
  intros Ha Hb Hv Hrun. unfold sampleBeta in Hrun.
  apply bind_Ok_inv in Hrun as (x & w1 & Hx & Hrun).
  apply sampleGamma_nonneg in Hx as (x' & -> & Hx' & Hh1); [|exact Ha|exact Hv].
  apply bind_Ok_inv in Hrun as (y & w2 & Hy & Hrun).
  apply sampleGamma_nonneg in Hy as (y' & -> & Hy' & Hh2);
    [|exact Hb|now rewrite Hh1].
  rewrite num_add_Fin in Hrun.
  destruct (Req_dec_T (x' + y') 0) as [E|Hne].
  - assert (E' : x' = 0) by lra. rewrite E, E', num_div_zero_zero in Hrun.
    unfold ret in Hrun. injection Hrun as <- _. exact I.
  - rewrite num_div_Fin in Hrun by exact Hne.
    unfold ret in Hrun. injection Hrun as <- _. simpl.
    assert (Hsum : 0 < x' + y') by lra.
    split.
    + apply Rmult_le_pos; [exact Hx'|]. left. now apply Rinv_0_lt_compat.
    + apply (Rmult_le_reg_r (x' + y')); [exact Hsum|].
      unfold Rdiv. rewrite Rmult_assoc, Rinv_l by lra. lra.
Qed.

Lemma world_quarter_valid : valid_random (host world_quarter).
Proof. intros n. split; [unfold Qle; simpl; lia | reflexivity]. Defined.

Lemma sampleBeta_closed_unit_witness :
  inClosedUnitOrNaN (Fin ((1 - 1 / 3) / ((1 - 1 / 3) + (1 - 1 / 3)))).
Proof.
  apply (sampleBeta_closed_unit 2 1 1 world_quarter (advance_random 6 world_quarter)).
  - lra.
  - lra.
  - exact world_quarter_valid.
  - apply sampleBeta_quarter; [reflexivity | lra | lra].
Defined.

Lemma sampleGamma_unfold (fuel : nat) (shape scale : number) :
  sampleGamma (S fuel) shape scale =
    if num_ltb shape num_1 then
      (g <- sampleGamma fuel (shape + num_1)%num scale ;;
       u <- Math_random_num ;;
       ret (g * Math_pow u (num_1 / shape))%num)
    else
      sampleGamma_loop fuel (shape - num_1 / num_3)%num
        (num_1 / Math_sqrt (num_9 * (shape - num_1 / num_3)))%num scale.
Proof. reflexivity. Qed.

(** A shape below 1 and a fourth draw of 0: the gamma sample is a positive
    real times [Math.pow(0, 1 / shape)] = 0. *)
Lemma sampleGamma_zero_power (fuel : nat) (s : R) (w : World) :
  0 < s < 1 ->
  0 < draw w 0 < 1 ->
  draw w 1 = 1 / 4 ->
  draw w 2 < 1 ->
  draw w 3 = 0 ->
  sampleGamma (S (S (S fuel))) (Fin s) (Fin 1) w = Ok (Fin 0) (advance_random 4 w).
Proof.
  intros Hs Hu1 Hu2 Hu3 Hu4.
  rewrite sampleGamma_unfold. unfold num_1 at 1. rewrite num_ltb_Fin_true by lra.
  unfold num_1. rewrite num_add_Fin.
  rewrite (bind_Ok _ _ _ _ _ (sampleGamma_accept_first fuel (s + 1) w
             ltac:(lra) Hu1 Hu2 Hu3)).
  rewrite (bind_Ok _ _ _ _ _ (Math_random_num_run _)).
  rewrite advance_random_add, draw_advance. simpl (3 + 1)%nat. simpl (3 + 0)%nat.
  rewrite Hu4. rewrite num_div_Fin by lra.
  rewrite Math_pow_zero_base by (apply Rdiv_lt_0_compat; lra).
  rewrite num_mul_Fin. unfold ret. do 2 f_equal. ring.
Qed.

(** C2 (counterexample): alpha = 1/2, beta = 1 and the draws 1/2, 1/4, 1/2,
    0, 1/2, 1/4, 1/2, all of them results [Math.random] may give: the
    gamma sample for alpha is 7/6 times [Math.pow(0, 2)] = 0, the one for
    beta is 2/3, and [sampleBeta] returns 0, which is not above 0. *)
Lemma sampleBeta_zero_draw_returns_zero :
  valid_random (host world_zero_draw) /\
  (0 < Q2R (1 # 2) /\ 0 < Q2R 1) /\
  sampleBeta 3 (ofQ (1 # 2)) (ofQ 1) world_zero_draw
    = Ok (Fin 0) (advance_random 7 world_zero_draw) /\
  ~ inOpenUnit (Fin 0).
Proof.
  split; [|split; [|split]].
  - intros n. do 6 (destruct n as [|n]; [split; [unfold Qle; simpl; lia | reflexivity]|]).
    split; [unfold Qle; simpl; lia | reflexivity].
  - rewrite Q2R_half, RMicromega.Q2R_1. lra.
  - unfold sampleBeta, ofQ. rewrite Q2R_half, RMicromega.Q2R_1.
    assert (Hx : sampleGamma 3 (Fin (1 / 2)) num_1 world_zero_draw
                 = Ok (Fin 0) (advance_random 4 world_zero_draw)).
    { cbn [sampleGamma]. unfold num_1 at 1. rewrite num_ltb_Fin_true by lra.
      unfold num_1. autorewrite with fin_arith.
      rewrite (bind_Ok _ _ _ _ _ (sampleGamma_accept_first 0 (1 / 2 + 1) world_zero_draw
                 ltac:(lra)
                 ltac:(unfold draw; simpl; rewrite Q2R_half; lra)
                 ltac:(unfold draw; simpl; apply Q2R_quarter)
                 ltac:(unfold draw; simpl; rewrite Q2R_half; lra))).
      rewrite (bind_Ok _ _ _ _ _ (Math_random_num_run _)).
      rewrite advance_random_add. simpl (3 + 1)%nat.
      replace (draw (advance_random 3 world_zero_draw) 0) with 0
        by (unfold draw; simpl; now rewrite RMicromega.Q2R_0).
      rewrite num_div_Fin by lra.
      rewrite Math_pow_zero_base by lra.
      autorewrite with fin_arith. unfold ret. do 2 f_equal. ring. }
    rewrite (bind_Ok _ _ _ _ _ Hx).
    rewrite (bind_Ok _ _ _ _ _ (sampleGamma_accept_first 1 1 (advance_random 4 world_zero_draw)
               ltac:(lra)
               ltac:(unfold draw; simpl; rewrite Q2R_half; lra)
               ltac:(unfold draw; simpl; apply Q2R_quarter)
               ltac:(unfold draw; simpl; rewrite Q2R_half; lra))).
    rewrite advance_random_add. simpl (4 + 3)%nat.
    autorewrite with fin_arith. rewrite num_div_Fin by lra.
    unfold ret. do 2 f_equal. field.
  - simpl. lra.
Qed.

(** The upper end is reached as well: with alpha = 1, beta = 1/2 and a
    seventh draw of 0 the gamma sample for beta is 0 and [sampleBeta] returns
    2/3 / (2/3 + 0) = 1. *)
Lemma sampleBeta_zero_draw_returns_one :
  valid_random (host world_zero_draw_beta) /\
  sampleBeta 3 (Fin 1) (Fin (1 / 2)) world_zero_draw_beta
    = Ok (Fin 1) (advance_random 7 world_zero_draw_beta).
Proof.
  split.
  - intros n. do 7 (destruct n as [|n]; [split; [unfold Qle; simpl; lia | reflexivity]|]).
    split; [unfold Qle; simpl; lia | reflexivity].
  - unfold sampleBeta.
    rewrite (bind_Ok _ _ _ _ _ (sampleGamma_accept_first 1 1 world_zero_draw_beta
               ltac:(lra)
               ltac:(unfold draw; simpl; rewrite Q2R_half; lra)
               ltac:(unfold draw; simpl; apply Q2R_quarter)
               ltac:(unfold draw; simpl; rewrite Q2R_half; lra))).
    rewrite (bind_Ok _ _ _ _ _ (sampleGamma_zero_power 0 (1 / 2)
               (advance_random 3 world_zero_draw_beta)
               ltac:(lra)
               ltac:(unfold draw; simpl; rewrite Q2R_half; lra)
               ltac:(unfold draw; simpl; apply Q2R_quarter)
               ltac:(unfold draw; simpl; rewrite Q2R_half; lra)
               ltac:(unfold draw; simpl; apply RMicromega.Q2R_0))).
    rewrite advance_random_add. simpl (3 + 4)%nat.
    rewrite num_add_Fin, num_div_Fin by lra.
    unfold ret. do 2 f_equal. field.
Qed.

(** And [NaN] is reached: with alpha = beta = 1/2 and a fourth and an eighth
    draw of 0 both gamma samples are 0 and [sampleBeta] returns 0 / 0. *)
Lemma sampleBeta_zero_draws_return_NaN :
  valid_random (host world_zero_draws) /\
  sampleBeta 3 (Fin (1 / 2)) (Fin (1 / 2)) world_zero_draws
    = Ok NaN (advance_random 8 world_zero_draws).
Proof.
  split.
  - intros n. do 8 (destruct n as [|n]; [split; [unfold Qle; simpl; lia | reflexivity]|]).
    split; [unfold Qle; simpl; lia | reflexivity].
  - unfold sampleBeta.
    rewrite (bind_Ok _ _ _ _ _ (sampleGamma_zero_power 0 (1 / 2) world_zero_draws
               ltac:(lra)
               ltac:(unfold draw; simpl; rewrite Q2R_half; lra)
               ltac:(unfold draw; simpl; apply Q2R_quarter)
               ltac:(unfold draw; simpl; rewrite Q2R_half; lra)
               ltac:(unfold draw; simpl; apply RMicromega.Q2R_0))).
    rewrite (bind_Ok _ _ _ _ _ (sampleGamma_zero_power 0 (1 / 2)
               (advance_random 4 world_zero_draws)
               ltac:(lra)
               ltac:(unfold draw; simpl; rewrite Q2R_half; lra)
               ltac:(unfold draw; simpl; apply Q2R_quarter)
               ltac:(unfold draw; simpl; rewrite Q2R_half; lra)
               ltac:(unfold draw; simpl; apply RMicromega.Q2R_0))).
    rewrite advance_random_add. simpl (4 + 4)%nat.
    rewrite num_add_Fin. replace (0 + 0) with 0 by ring.
    rewrite num_div_zero_zero. reflexivity.
Qed.

(** *** Draws on which the rejection loop never ends *)

Lemma ln_hundredth : ln (1 / 100) <= - 3.
Proof.
  assert (H3 : exp 3 <= 100).
  { replace 3 with (1 + (1 + 1)) by ring. rewrite !exp_plus.
    pose proof exp_le_3 as H. pose proof (exp_pos 1) as Hp.
    apply Rle_trans with (3 * (3 * 3)); [|lra].
    apply Rmult_le_compat; try lra.
    - apply Rmult_le_pos; lra.
    - apply Rmult_le_compat; lra. }
  unfold Rdiv. rewrite Rmult_1_l, ln_Rinv by lra.
  assert (3 <= ln 100); [|lra].
  rewrite <- (ln_exp 3). destruct H3 as [Hlt|Heq].
  - left. apply ln_increasing; [apply exp_pos | exact Hlt].
  - rewrite Heq. right. reflexivity.
Qed.

Lemma rejected_candidate :
  1 + 1 / sqrt (9 * (1 - 1 / 3)) * (sqrt (-2 * ln (1 / 100)) * cos (2 * PI * (1 / 2))) <= 0.
Proof.
  replace (2 * PI * (1 / 2)) with PI by field. rewrite cos_PI.
  replace (9 * (1 - 1 / 3)) with 6 by field.
  pose proof ln_hundredth as Hln.
  assert (H6 : 0 < sqrt 6) by (apply sqrt_lt_R0; lra).
  assert (Hle : sqrt 6 <= sqrt (-2 * ln (1 / 100))) by (apply sqrt_le_1_alt; lra).
  assert (Hq : 1 <= sqrt (-2 * ln (1 / 100)) / sqrt 6).
  { apply (Rmult_le_reg_r (sqrt 6)); [exact H6|].
    unfold Rdiv. rewrite Rmult_assoc, Rinv_l by lra. lra. }
  unfold Rdiv in *. rewrite Rmult_1_l.
  replace (/ sqrt 6 * (sqrt (-2 * ln (1 * / 100)) * -1))
    with (- (sqrt (-2 * ln (1 * / 100)) * / sqrt 6)) by ring.
  lra.
Qed.

Lemma Q2R_hundredth : Q2R (1 # 100) = 1 / 100.
Proof. unfold Q2R; simpl. lra. Qed.

Lemma sampleGamma_candidate_rejecting (fuel : nat) :
  forall w : World,
    host w = host world_rejecting ->
    Nat.even (random_pos w) = true ->
    sampleGamma_candidate fuel (Fin (1 / sqrt (9 * (1 - 1 / 3)))) w = OutOfFuel.
Proof.
  induction fuel as [|fuel IH]; intros w Hh Hev; [reflexivity|].
  assert (Hd0 : draw w 0 = 1 / 100).
  { unfold draw. rewrite Hh, Nat.add_0_r. simpl. unfold rejecting_src.
    rewrite Hev. apply Q2R_hundredth. }
  assert (Hd1 : draw w 1 = 1 / 2).
  { unfold draw. rewrite Hh. simpl. unfold rejecting_src.
    rewrite Nat.add_1_r, Nat.even_succ, <- Nat.negb_even, Hev. apply Q2R_half. }
  cbn [sampleGamma_candidate].
  rewrite (bind_Ok _ _ _ _ _ (randomNormal_run w ltac:(rewrite Hd0; lra))).
  rewrite Hd0, Hd1. unfold num_1, num_0. autorewrite with fin_arith.
  rewrite num_leb_Fin_true by exact rejected_candidate.
  apply IH; [exact Hh|].
  simpl. rewrite Nat.add_comm. simpl. exact Hev.
Qed.

(** On the draws 1/100, 1/2, 1/100, 1/2, ... every candidate of
    [sampleGamma] for shape 1 is rejected: [sampleBeta] returns within no
    bound on the number of iterations. *)
Lemma sampleBeta_rejecting_draws (fuel : nat) :
  valid_random (host world_rejecting) /\
  open_random (host world_rejecting) /\
  sampleBeta fuel (Fin 1) (Fin 1) world_rejecting = OutOfFuel.
Proof.
  assert (Hopen : open_random (host world_rejecting)).
  { intros n. simpl. unfold rejecting_src. destruct (Nat.even n); split; reflexivity. }
  split; [|split; [exact Hopen|]].
  - intros n. destruct (Hopen n) as [H0 H1]. split; [now apply Qlt_le_weak | exact H1].
  - unfold sampleBeta. apply bind_OutOfFuel.
    destruct fuel as [|fuel]; [reflexivity|].
    cbn [sampleGamma]. unfold num_1 at 1. rewrite num_ltb_Fin_false by lra.
    unfold num_1, num_3, num_9. rewrite num_div_Fin by lra.
    autorewrite with fin_arith.
    rewrite Math_sqrt_Fin by lra.
    rewrite num_div_Fin by (apply Rgt_not_eq, sqrt_lt_R0; lra).
    destruct fuel as [|fuel]; [reflexivity|].
    cbn [sampleGamma_loop]. apply bind_OutOfFuel.
    apply sampleGamma_candidate_rejecting; reflexivity.
Qed.

Local Close Scope R_scope.

(** ** Statistical evaluation *)

(** The sampler only draws: it leaves the database as it is. *)
Lemma randomNormal_db (w w' : World) (x : number) :
  randomNormal w = Ok x w' -> db w' = db w.
Proof.
  intros H. unfold randomNormal, Math_random_num in H; unfold_m.
  now injection H as _ <-.
Qed.

Lemma sampleGamma_candidate_db (fuel : nat) :
  forall (c : number) (w w' : World) (xv : number * number),
    sampleGamma_candidate fuel c w = Ok xv w' -> db w' = db w.
Proof.
  induction fuel as [|fuel IH]; intros c w w' xv H; [discriminate|].
  cbn [sampleGamma_candidate] in H.
  apply bind_Ok_inv in H as (x & w1 & Hx & H). apply randomNormal_db in Hx.
  destruct (num_leb _ _).
  - apply IH in H. congruence.
  - unfold ret in H. injection H as _ <-. exact Hx.
Qed.

Lemma sampleGamma_loop_db (fuel : nat) :
  forall (d c scale : number) (w w' : World) (g : number),
    sampleGamma_loop fuel d c scale w = Ok g w' -> db w' = db w.
Proof.
  induction fuel as [|fuel IH]; intros d c scale w w' g H; [discriminate|].
  cbn [sampleGamma_loop] in H.
  apply bind_Ok_inv in H as (xv & w1 & Hxv & H). apply sampleGamma_candidate_db in Hxv.
  apply bind_Ok_inv in H as (u & w2 & Hu & H).
  rewrite Math_random_num_run in Hu. injection Hu as _ <-.
  destruct (num_ltb _ _); [unfold ret in H; injection H as _ <-; exact Hxv|].
  destruct (num_ltb _ _); [unfold ret in H; injection H as _ <-; exact Hxv|].
  apply IH in H. simpl in H. congruence.
Qed.

Lemma sampleGamma_db (fuel : nat) :
  forall (shape scale : number) (w w' : World) (g : number),
    sampleGamma fuel shape scale w = Ok g w' -> db w' = db w.
Proof.
  induction fuel as [|fuel IH]; intros shape scale w w' g H; [discriminate|].
  cbn [sampleGamma] in H. destruct (num_ltb shape num_1).
  - apply bind_Ok_inv in H as (g0 & w1 & Hg0 & H). apply IH in Hg0.
    apply bind_Ok_inv in H as (u & w2 & Hu & H).
    rewrite Math_random_num_run in Hu. injection Hu as _ <-.
    unfold ret in H. injection H as _ <-. exact Hg0.
  - now apply sampleGamma_loop_db in H.
Qed.

Lemma sampleBeta_db (fuel : nat) (a b : number) (w w' : World) (r : number) :
  sampleBeta fuel a b w = Ok r w' -> db w' = db w.
Proof.
  intros H. unfold sampleBeta in H.
  apply bind_Ok_inv in H as (x & w1 & Hx & H). apply sampleGamma_db in Hx.
  apply bind_Ok_inv in H as (y & w2 & Hy & H). apply sampleGamma_db in Hy.
  unfold ret in H. injection H as _ <-. congruence.
Qed.

Lemma evaluateABTest_loop_db (fuel : nat) (perfA perfB : VariantPerformance)
    (n : nat) :
  forall (countAWins : Z) (w w' : World) (result : Z),
    evaluateABTest_loop n fuel perfA perfB countAWins w = Ok result w' ->
    db w' = db w.
Proof.
  induction n as [|n IH]; intros c w w' result Hrun.
  - simpl in Hrun. unfold ret in Hrun. now injection Hrun as _ <-.
  - cbn [evaluateABTest_loop] in Hrun.
    apply bind_Ok_inv in Hrun as (sampleA & w1 & HA & Hrun).
    apply bind_Ok_inv in Hrun as (sampleB & w2 & HB & Hrun).
    apply sampleBeta_db in HA, HB. apply IH in Hrun. congruence.
Qed.

Lemma evaluateABTest_loop_bounds (fuel : nat) (perfA perfB : VariantPerformance)
    (n : nat) :
  forall (countAWins : Z) (w w' : World) (result : Z),
    evaluateABTest_loop n fuel perfA perfB countAWins w = Ok result w' ->
    countAWins <= result <= countAWins + Z.of_nat n.
Proof.
  induction n as [|n IH]; intros c w w' result Hrun.
  - simpl in Hrun. unfold ret in Hrun. injection Hrun as <- _. lia.
  - cbn [evaluateABTest_loop] in Hrun.
    apply bind_Ok_inv in Hrun as (sampleA & w1 & _ & Hrun).
    apply bind_Ok_inv in Hrun as (sampleB & w2 & _ & Hrun).
    apply IH in Hrun. destruct (num_ltb sampleB sampleA); lia.
Qed.

Lemma probability_bounds (wins : Z) :
  0 <= wins <= nSamples ->
  (0 <= inject_Z wins / inject_Z nSamples <= 1)%Q.
Proof.
  intros [H0 H1]. unfold nSamples in *. split.
  - apply Qle_shift_div_l; [reflexivity|]. rewrite Qmult_0_l.
    change 0%Q with (inject_Z 0). now rewrite <- Zle_Qle.
  - apply Qle_shift_div_r; [reflexivity|]. rewrite Qmult_1_l.
    now rewrite <- Zle_Qle.
Qed.

Lemma winsOfA_cons (sampleA sampleB : number) (rest : list (number * number)) :
  winsOfA ((sampleA, sampleB) :: rest) =
    (if num_ltb sampleB sampleA then 1 else 0) + winsOfA rest.
Proof.
  unfold winsOfA. destruct (num_ltb sampleB sampleA) eqn:E.
  - rewrite filter_cons_True by exact E. cbn [length]. lia.
  - rewrite filter_cons_False by (cbn; congruence). lia.
Qed.

Lemma winsOfA_bounds (pairs : list (number * number)) :
  0 <= winsOfA pairs <= Z.of_nat (length pairs).
Proof.
  unfold winsOfA.
  pose proof (length_filter (fun ab => num_ltb (snd ab) (fst ab) = true) pairs).
  lia.
Qed.

(** The loop of [evaluateABTest] counts the wins of A among the sample
    pairs it draws. *)
Lemma evaluateABTest_loop_pairs (fuel : nat) (perfA perfB : VariantPerformance)
    (n : nat) :
  forall (countAWins : Z) (w w' : World) (pairs : list (number * number)),
    drawPairs fuel perfA perfB n w = Ok pairs w' ->
    evaluateABTest_loop n fuel perfA perfB countAWins w =
      Ok (countAWins + winsOfA pairs) w' /\
    length pairs = n.
Proof.
  induction n as [|n IH]; intros c w w' pairs Hrun; cbn [drawPairs] in Hrun.
  - unfold ret in Hrun. injection Hrun as <- <-. cbn. split; [|reflexivity].
    unfold ret. f_equal. unfold winsOfA. cbn. lia.
  - apply bind_Ok_inv in Hrun as (sampleA & w1 & HA & Hrun).
    apply bind_Ok_inv in Hrun as (sampleB & w2 & HB & Hrun).
    apply bind_Ok_inv in Hrun as (rest & w3 & Hrest & Hrun).
    unfold ret in Hrun. injection Hrun as <- <-.
    cbn [evaluateABTest_loop].
    rewrite (bind_Ok _ _ _ _ _ HA), (bind_Ok _ _ _ _ _ HB).
    destruct (IH (if num_ltb sampleB sampleA then c + 1 else c) _ _ _ Hrest)
      as [Hloop Hlen].
    rewrite Hloop, winsOfA_cons. split; [|cbn; now rewrite Hlen].
    f_equal. destruct (num_ltb sampleB sampleA); lia.
Qed.

(** Every run of the loop that returns drew such pairs. *)
Lemma evaluateABTest_loop_pairs_inv (fuel : nat) (perfA perfB : VariantPerformance)
    (n : nat) :
  forall (countAWins : Z) (w w' : World) (result : Z),
    evaluateABTest_loop n fuel perfA perfB countAWins w = Ok result w' ->
    exists pairs, drawPairs fuel perfA perfB n w = Ok pairs w'.
Proof.
  induction n as [|n IH]; intros c w w' result Hrun; cbn [evaluateABTest_loop] in Hrun.
  - unfold ret in Hrun. injection Hrun as _ <-. exists []. reflexivity.
  - apply bind_Ok_inv in Hrun as (sampleA & w1 & HA & Hrun).
    apply bind_Ok_inv in Hrun as (sampleB & w2 & HB & Hrun).
    destruct (IH _ _ _ _ Hrun) as (rest & Hrest).
    exists ((sampleA, sampleB) :: rest). cbn [drawPairs].
    rewrite (bind_Ok _ _ _ _ _ HA), (bind_Ok _ _ _ _ _ HB), (bind_Ok _ _ _ _ _ Hrest).
    reflexivity.
Qed.

(** Every result of [evaluateABTest] comes from 10000 such pairs drawn for
    the stored posteriors of the two variants. *)
Lemma evaluateABTest_Ok_pairs (fuel : nat) (variantA variantB : string)
    (w w' : World) (r : ABTestResult) :
  evaluateABTest fuel variantA variantB w = Ok r w' ->
  exists pairs,
    drawPairs fuel (readPerformance (db w) variantA) (readPerformance (db w) variantB)
      (Z.to_nat nSamples) w = Ok pairs w'.
Proof.
  intros Hrun. unfold evaluateABTest in Hrun.
  rewrite (bind_Ok _ _ _ _ _ (getPerformance_read variantA w)) in Hrun.
  rewrite (bind_Ok _ _ _ _ _ (getPerformance_read variantB w)) in Hrun.
  apply bind_Ok_inv in Hrun as (wins & w1 & Hloop & Hrun).
  unfold ret in Hrun. injection Hrun as _ <-.
  exact (evaluateABTest_loop_pairs_inv _ _ _ _ _ _ _ _ Hloop).
Qed.

(** C3: for every outcome of the Monte-Carlo loop, 10000 pairs of samples
    drawn for the stored posteriors of A and of B, [evaluateABTest] returns:
    with [wins] the number of pairs in which the sample of A is above that of
    B and p = wins / 10000, the confidence is max(p, 1 - p), between 1/2 and
    1; the p-value is 2 * min(p, 1 - p), between 0 and 1; the winner is A
    when confidence > 0.95 and p > 0.5, B when confidence > 0.95 and
    p <= 0.5, and none when confidence <= 0.95.  The store is unchanged. *)
Theorem evaluateABTest_verdict (fuel : nat) (variantA variantB : string)
    (w w' : World) (pairs : list (number * number)) :
  drawPairs fuel (readPerformance (db w) variantA) (readPerformance (db w) variantB)
    (Z.to_nat nSamples) w = Ok pairs w' ->
  exists r,
    evaluateABTest fuel variantA variantB w = Ok r w' /\
    length pairs = Z.to_nat nSamples /\
    0 <= winsOfA pairs <= 10000 /\
    let p := (inject_Z (winsOfA pairs) / inject_Z 10000)%Q in
    confidence r = Qmax p (1 - p) /\
    (1 # 2 <= confidence r <= 1)%Q /\
    pValue r = (2 * Qmin p (1 - p))%Q /\
    (0 <= pValue r <= 1)%Q /\
    ((95 # 100 < confidence r)%Q -> (5 # 10 < p)%Q -> winner r = Some variantA) /\
    ((95 # 100 < confidence r)%Q -> (p <= 5 # 10)%Q -> winner r = Some variantB) /\
    ((confidence r <= 95 # 100)%Q -> winner r = None) /\
    db w' = db w.
Proof.
  intros Hpairs.
  destruct (evaluateABTest_loop_pairs _ _ _ _ 0 _ _ _ Hpairs) as [Hloop Hlen].
  pose proof (evaluateABTest_loop_db _ _ _ _ _ _ _ _ Hloop) as Hdb.
  pose proof (winsOfA_bounds pairs) as Hwins. rewrite Hlen in Hwins.
  change (Z.of_nat (Z.to_nat nSamples)) with 10000 in Hwins.
  rewrite Z.add_0_l in Hloop.
  assert (Hrun : exists r,
            evaluateABTest fuel variantA variantB w = Ok r w' /\
            r = (let p := (inject_Z (winsOfA pairs) / inject_Z nSamples)%Q in
                 mkABTestResult
                   (if Qgtb (Qmax p (1 - p)) (95 # 100) then
                      (if Qgtb p (5 # 10) then Some variantA else Some variantB)
                    else None)
                   (Qmax p (1 - p)) (2 * Qmin p (1 - p))%Q)).
  { unfold evaluateABTest.
    rewrite (bind_Ok _ _ _ _ _ (getPerformance_read variantA w)).
    rewrite (bind_Ok _ _ _ _ _ (getPerformance_read variantB w)).
    rewrite (bind_Ok _ _ _ _ _ Hloop). eexists. split; reflexivity. }
  destruct Hrun as (r & Hrun & ->). eexists. split; [exact Hrun|].
  split; [exact Hlen|]. split; [exact Hwins|].
  intros p. cbn [confidence pValue winner].
  change (inject_Z (winsOfA pairs) / inject_Z nSamples)%Q with p.
  assert (Hp : (0 <= p <= 1)%Q) by (apply probability_bounds; unfold nSamples; lia).
  destruct Hp as [Hp0 Hp1]. clearbody p.
  split; [reflexivity|].
  split.
  { destruct (Q.max_spec p (1 - p)) as [[H1 H2]|[H1 H2]]; rewrite H2; split; Lqa.lra. }
  split; [reflexivity|].
  split.
  { destruct (Q.min_spec p (1 - p)) as [[H1 H2]|[H1 H2]]; rewrite H2; split; Lqa.lra. }
  split; [|split; [|split; [|exact Hdb]]].
  - intros Hc Hgt. apply Qgtb_lt in Hc, Hgt. now rewrite Hc, Hgt.
  - intros Hc Hle. apply Qgtb_lt in Hc. rewrite Hc.
    destruct (Qgtb p (5 # 10)) eqn:E; [|reflexivity].
    apply Qgtb_lt in E. Lqa.lra.
  - intros Hc. destruct (Qgtb (Qmax p (1 - p)) (95 # 100)) eqn:E; [|reflexivity].
    apply Qgtb_lt in E. Lqa.lra.
Qed.

(** The Monte-Carlo loop on two default priors when every draw is 1/4: the
    two samples are equal in every iteration and A wins none. *)
Lemma evaluateABTest_loop_quarter (idA idB : string) (n : nat) :
  forall (countAWins : Z) (w : World),
    (forall k, Math_random_src (host w) k = (1 # 4)%Q) ->
    evaluateABTest_loop n 2 (defaultPrior idA) (defaultPrior idB) countAWins w =
      Ok countAWins (advance_random (12 * n) w).
Proof.
  assert (H1 : (1 <= Q2R 1)%R) by (rewrite RMicromega.Q2R_1; lra).
  induction n as [|n IH]; intros c w Hq.
  - simpl. now rewrite advance_random_0.
  - cbn [evaluateABTest_loop]. unfold defaultPrior at 1 2 3 4. cbn [alpha beta]. unfold ofQ.
    rewrite (bind_Ok _ _ _ _ _ (sampleBeta_quarter 0 _ _ w Hq H1 H1)).
    rewrite (bind_Ok _ _ _ _ _ (sampleBeta_quarter 0 _ _ (advance_random 6 w) Hq H1 H1)).
    rewrite num_ltb_Fin_false by lra.
    rewrite IH by exact Hq. rewrite !advance_random_add.
    do 2 f_equal. lia.
Qed.

Lemma evaluateABTest_quarter (idA idB : string) :
  exists r,
    evaluateABTest 2 idA idB world_quarter =
      Ok r (advance_random (12 * Z.to_nat nSamples) world_quarter) /\
    winner r = Some idB /\ (confidence r == 1)%Q /\ (pValue r == 0)%Q.
Proof.
  unfold evaluateABTest.
  rewrite (bind_Ok _ _ _ _ _ (getPerformance_absent idA world_quarter (lookup_empty _))).
  rewrite (bind_Ok _ _ _ _ _ (getPerformance_absent idB world_quarter (lookup_empty _))).
  rewrite (bind_Ok _ _ _ _ _
             (evaluateABTest_loop_quarter idA idB _ 0 world_quarter (fun _ => eq_refl))).
  eexists. split; [reflexivity|]. cbn [winner confidence pValue].
  split; [|split]; reflexivity.
Qed.

Lemma evaluateABTest_verdict_witness :
  exists pairs r w',
    drawPairs 2 (readPerformance (db world_quarter) "A")
      (readPerformance (db world_quarter) "B") (Z.to_nat nSamples) world_quarter
      = Ok pairs w' /\
    evaluateABTest 2 "A" "B" world_quarter = Ok r w' /\
    length pairs = Z.to_nat nSamples /\
    0 <= winsOfA pairs <= 10000 /\
    let p := (inject_Z (winsOfA pairs) / inject_Z 10000)%Q in
    confidence r = Qmax p (1 - p) /\
    (1 # 2 <= confidence r <= 1)%Q /\
    pValue r = (2 * Qmin p (1 - p))%Q /\
    (0 <= pValue r <= 1)%Q /\
    ((95 # 100 < confidence r)%Q -> (5 # 10 < p)%Q -> winner r = Some "A") /\
    ((95 # 100 < confidence r)%Q -> (p <= 5 # 10)%Q -> winner r = Some "B") /\
    ((confidence r <= 95 # 100)%Q -> winner r = None) /\
    db w' = db world_quarter.
Proof.
  destruct (evaluateABTest_quarter "A" "B") as (r0 & Hrun & _).
  destruct (evaluateABTest_Ok_pairs _ _ _ _ _ _ Hrun) as (pairs & Hpairs).
  destruct (evaluateABTest_verdict 2 "A" "B" world_quarter _ pairs Hpairs)
    as (r & Hr & Hrest).
  exists pairs, r, (advance_random (12 * Z.to_nat nSamples) world_quarter).
  split; [exact Hpairs|]. split; [exact Hr | exact Hrest].
Defined.

(** * Further properties of the code *)

(** ** Creating variants *)

Lemma hexDigit_isHexChar (n : N) : isHexChar (hexDigit n).
Proof.
  unfold isHexChar, hexDigit.
  destruct n as [|p]; [|do 4 (try destruct p as [p|p|])]; cbn; repeat constructor.
Qed.

Lemma toHex_isHexChar (bytes : list byte) :
  Forall isHexChar (list_ascii_of_string (toHex bytes)).
Proof.
  induction bytes as [|b l IH]; cbn; [constructor|].
  repeat (constructor; [apply hexDigit_isHexChar|]). exact IH.
Qed.

Lemma createVariant_Ok_nextId (template : string) (parentId : option string)
    (generation : Z) (w w' : World) (newId : string) :
  createVariant template parentId generation w = Ok newId w' -> newId = nextId w.
Proof.
  intros H. unfold createVariant in H.
  apply bind_Ok_inv in H as (bytes & w1 & Hb & H).
  assert (Hbytes : toHex bytes = nextId w).
  { unfold randomBytes in Hb. unfold nextId. congruence. }
  apply bind_Ok_inv in H as (now & w2 & _ & H).
  apply bind_Ok_inv in H as ([] & w3 & _ & H).
  apply bind_Ok_inv in H as ([] & w4 & _ & H).
  unfold ret in H. congruence.
Qed.

(** X1: a [createVariant] that returns gives an id of 32 lowercase
    hexadecimal digits that no stored variant had; the variant is stored last
    with the given template and generation and with [parentId || null] as
    parent, and [getVariantStats] of the new id reads the default prior with
    no trials. *)
Theorem createVariant_round_trip (template : string) (parentId : option string)
    (generation : Z) (w w' : World) (newId : string) :
  createVariant template parentId generation w = Ok newId w' ->
  String.length newId = 32%nat /\
  Forall isHexChar (list_ascii_of_string newId) /\
  (newId ∉ id <$> prompt_variants (db w)) /\
  prompt_variants (db w') =
    prompt_variants (db w) ++
      [mkPromptVariant newId template (orNull parentId) generation
         (Date_now_src (host w) (clock_pos w))] /\
  getVariantStats newId w' = Ok (mkVariantPerformance newId 1 1 0 0 0 0) w'.
Proof.
  intros H. pose proof (createVariant_Ok_nextId _ _ _ _ _ _ H) as Hid.
  apply createVariant_Ok_inv in H as (Hlen & Hfresh & _ & Hpv & Hvp & _).
  split; [exact Hlen|]. split; [rewrite Hid; apply toHex_isHexChar|].
  split; [exact Hfresh|]. split; [exact Hpv|].
  unfold getVariantStats.
  rewrite (getPerformance_stored _ _ (mkPerformanceRow 1 1 0 0 0 0)); [reflexivity|].
  rewrite Hvp. apply lookup_insert_eq.
Qed.

Lemma createVariant_round_trip_witness :
  exists newId w',
    createVariant "Summarise the diff." (Some "") 0 world_pool = Ok newId w' /\
    String.length newId = 32%nat /\
    Forall isHexChar (list_ascii_of_string newId) /\
    (newId ∉ id <$> prompt_variants (db world_pool)) /\
    prompt_variants (db w') =
      prompt_variants (db world_pool) ++
        [mkPromptVariant newId "Summarise the diff." None 0 100] /\
    getVariantStats newId w' = Ok (mkVariantPerformance newId 1 1 0 0 0 0) w'.
Proof.
  eexists _, _. split; [vm_compute; reflexivity|].
  apply (createVariant_round_trip "Summarise the diff." (Some "") 0 world_pool).
  vm_compute. reflexivity.
Defined.

(** ** Evolution without generations *)

Lemma getTopVariants_pure (n : Z) (w : World) :
  exists population, getTopVariants n w = Ok population w.
Proof. unfold getTopVariants; unfold_m. eauto. Qed.

(** X2: with a generation count of zero or less, [evolvePrompts] returns
    the empty list and leaves the world as it was, whatever the breeding pool
    (an empty pool included: nothing is thrown). *)
Theorem evolvePrompts_no_generations (populationSize nGenerations : Z) (w : World) :
  nGenerations <= 0 ->
  evolvePrompts populationSize nGenerations w = Ok [] w.
Proof.
  intros Hn. unfold evolvePrompts.
  destruct (getTopVariants_pure populationSize w) as (pop & Hpop).
  rewrite (bind_Ok _ _ _ _ _ Hpop).
  replace (Z.to_nat nGenerations) with 0%nat by lia. reflexivity.
Qed.

Lemma evolvePrompts_no_generations_witness :
  evolvePrompts 5 0 world_untried = Ok [] world_untried.
Proof. apply (evolvePrompts_no_generations 5 0 world_untried). lia. Defined.

(** ** Pruning twice *)

Lemma pruned_idempotent (w : World) : pruned (pruned w) = pruned w.
Proof.
  unfold pruned. cbn [host random_pos bytes_pos clock_pos db explorationRate
    prompt_variants variant_performance feedback_records preference_comparisons].
  do 2 f_equal.
  assert (Hin : forall d1 d2 k, variant_performance d1 = variant_performance d2 ->
                  inPruneSet d1 k = inPruneSet d2 k).
  { intros d1 d2 k Hvp. unfold inPruneSet. now rewrite Hvp. }
  induction (prompt_variants (db w)) as [|pv l IH]; [reflexivity|].
  rewrite filter_cons. destruct (decide (inPruneSet (db w) (id pv) = false)) as [Hk|Hk].
  - rewrite filter_cons. rewrite decide_True.
    + f_equal. exact IH.
    + rewrite <- Hk. now apply Hin.
  - exact IH.
Qed.

(** X3: pruning is idempotent: a second pass right after a pass deletes
    nothing more, since the pass decides from the posterior table, which it
    does not change. *)
Theorem pruneLowPerformers_idempotent (w : World) :
  (pruneLowPerformers ;;; pruneLowPerformers) w = pruneLowPerformers w.
Proof.
  rewrite (bind_Ok _ _ _ _ _ (pruneLowPerformers_run w)).
  rewrite !pruneLowPerformers_run. now rewrite pruned_idempotent.
Qed.

(** ** Confidence and p-value *)

Lemma evaluateABTest_Ok_inv (fuel : nat) (variantA variantB : string)
    (w w' : World) (r : ABTestResult) :
  evaluateABTest fuel variantA variantB w = Ok r w' ->
  exists p : Q,
    (0 <= p <= 1)%Q /\
    confidence r = Qmax p (1 - p) /\
    pValue r = (2 * Qmin p (1 - p))%Q /\
    winner r =
      (if Qgtb (Qmax p (1 - p)) (95 # 100)
       then if Qgtb p (5 # 10) then Some variantA else Some variantB
       else None).
Proof.
  intros Hrun. unfold evaluateABTest in Hrun.
  apply bind_Ok_inv in Hrun as (perfA & w1 & _ & Hrun).
  apply bind_Ok_inv in Hrun as (perfB & w2 & _ & Hrun).
  apply bind_Ok_inv in Hrun as (wins & w3 & Hloop & Hrun).
  apply evaluateABTest_loop_bounds in Hloop.
  unfold ret in Hrun. injection Hrun as <- _.
  exists (inject_Z wins / inject_Z nSamples)%Q.
  split; [|repeat split].
  apply probability_bounds. change (Z.of_nat (Z.to_nat nSamples)) with nSamples in Hloop.
  lia.
Qed.

(** X4: in every result of [evaluateABTest] a winner is named exactly when
    the p-value is below 1/10, and the winner is then one of the two
    variants. *)
Theorem evaluateABTest_winner_pValue (fuel : nat) (variantA variantB : string)
    (w w' : World) (r : ABTestResult) :
  evaluateABTest fuel variantA variantB w = Ok r w' ->
  (winner r <> None <-> (pValue r < 1 # 10)%Q) /\
  (winner r = None \/ winner r = Some variantA \/ winner r = Some variantB).
Proof.
  intros Hrun.
  apply evaluateABTest_Ok_inv in Hrun as (p & [Hp0 Hp1] & Hc & Hpv & Hw).
  rewrite Hpv, Hw.
  assert (Hsum : (Qmin p (1 - p) == 1 - Qmax p (1 - p))%Q).
  { destruct (Q.max_spec p (1 - p)) as [[H1 H2]|[H1 H2]]; rewrite H2.
    - rewrite Q.min_l by (apply Qlt_le_weak; exact H1). Lqa.lra.
    - rewrite Q.min_r by exact H1. Lqa.lra. }
  split.
  - rewrite Hsum. destruct (Qgtb (Qmax p (1 - p)) (95 # 100)) eqn:E.
    + apply Qgtb_lt in E. split; [intros _; Lqa.lra|].
      intros _. destruct (Qgtb p (5 # 10)); discriminate.
    + split; [congruence|]. intros Hlt. exfalso.
      assert (Hgt : (95 # 100 < Qmax p (1 - p))%Q) by Lqa.lra.
      apply Qgtb_lt in Hgt. congruence.
  - destruct (Qgtb (Qmax p (1 - p)) (95 # 100)); [|now left].
    destruct (Qgtb p (5 # 10)); auto.
Qed.

Lemma evaluateABTest_winner_pValue_witness :
  exists r,
    (winner r <> None <-> (pValue r < 1 # 10)%Q) /\
    (winner r = None \/ winner r = Some "A" \/ winner r = Some "B").
Proof.
  destruct (evaluateABTest_quarter "A" "B") as (r & Hrun & _).
  exists r.
  exact (evaluateABTest_winner_pValue 2 "A" "B" world_quarter _ r Hrun).
Defined.

(** ** Preferences and posterior means *)

Lemma mean_increases (a b d : Q) :
  (0 < a)%Q -> (0 < b)%Q -> (0 < d)%Q ->
  (a / (a + b) < (a + d) / (a + d + b))%Q.
Proof.
  intros Ha Hb Hd.
  apply Qlt_shift_div_l; [Lqa.lra|].
  assert (E : (a / (a + b) * (a + d + b) == a * (a + d + b) / (a + b))%Q)
    by (field; Lqa.lra).
  rewrite E.
  apply Qlt_shift_div_r; [Lqa.lra|].
  assert (H : (0 < d * b)%Q) by (apply Qmult_lt_0_compat; assumption).
  Lqa.nra.
Qed.

Lemma mean_decreases (a b d : Q) :
  (0 < a)%Q -> (0 < b)%Q -> (0 < d)%Q ->
  (a / (a + (b + d)) < a / (a + b))%Q.
Proof.
  intros Ha Hb Hd.
  apply Qlt_shift_div_l; [Lqa.lra|].
  assert (E : (a / (a + (b + d)) * (a + b) == a * (a + b) / (a + (b + d)))%Q)
    by (field; Lqa.lra).
  rewrite E.
  apply Qlt_shift_div_r; [Lqa.lra|].
  assert (H : (0 < a * d)%Q) by (apply Qmult_lt_0_compat; assumption).
  Lqa.nra.
Qed.

(** X5: for two different variants whose posterior rows have positive alpha
    and beta, [recordPreference] strictly raises the winner's posterior mean
    alpha / (alpha + beta) and strictly lowers the loser's. *)
Theorem recordPreference_moves_means (w : World) (winnerId loserId context : string)
    (humanFeedback : bool) (rw rl : PerformanceRow) :
  winnerId <> loserId ->
  variant_performance (db w) !! winnerId = Some rw ->
  variant_performance (db w) !! loserId = Some rl ->
  (0 < row_alpha rw)%Q -> (0 < row_beta rw)%Q ->
  (0 < row_alpha rl)%Q -> (0 < row_beta rl)%Q ->
  exists w' rw' rl',
    recordPreference winnerId loserId context humanFeedback w = Ok tt w' /\
    variant_performance (db w') !! winnerId = Some rw' /\
    variant_performance (db w') !! loserId = Some rl' /\
    (posteriorMean rw < posteriorMean rw')%Q /\
    (posteriorMean rl' < posteriorMean rl)%Q.
Proof.
  intros Hne Hw Hl Haw Hbw Hal Hbl.
  eexists _, (boostAlpha rw), (boostBeta rl).
  split; [apply recordPreference_run|]. cbn [db variant_performance].
  split; [|split; [|split]].
  - rewrite lookup_alter_ne by congruence. now rewrite lookup_alter_eq, Hw.
  - rewrite lookup_alter_eq. rewrite lookup_alter_ne by congruence. now rewrite Hl.
  - unfold posteriorMean, boostAlpha. cbn [row_alpha row_beta].
    apply mean_increases; [assumption..|reflexivity].
  - unfold posteriorMean, boostBeta. cbn [row_alpha row_beta].
    apply mean_decreases; [assumption..|reflexivity].
Qed.

Lemma recordPreference_moves_means_witness :
  exists w' rw' rl',
    recordPreference "w" "l" "ctx" true world_two_rows = Ok tt w' /\
    variant_performance (db w') !! "w" = Some rw' /\
    variant_performance (db w') !! "l" = Some rl' /\
    (posteriorMean (mkPerformanceRow 3 2 4 (1 # 2) 10 7) < posteriorMean rw')%Q /\
    (posteriorMean rl' < posteriorMean (mkPerformanceRow 1 5 4 (1 # 4) 12 9))%Q.
Proof.
  apply (recordPreference_moves_means world_two_rows "w" "l" "ctx" true
           (mkPerformanceRow 3 2 4 (1 # 2) 10 7) (mkPerformanceRow 1 5 4 (1 # 4) 12 9));
    try reflexivity.
  discriminate.
Defined.

(** ** Pruning in terms of outcomes *)

Lemma lowPerformer_counts (row : PerformanceRow) (s f : Z) :
  0 <= s -> 0 <= f ->
  (row_alpha row == inject_Z (1 + s))%Q ->
  (row_beta row == inject_Z (1 + f))%Q ->
  total_trials row = s + f ->
  lowPerformer row = true <-> 20 <= s + f /\ 18 + 19 * s < f.
Proof.
  intros Hs Hf Ha Hb Ht. rewrite lowPerformer_spec. unfold lowPerformerRow.
  rewrite Ht, Ha, Hb.
  rewrite !inject_Z_plus. change (inject_Z 1) with 1%Q.
  assert (Hqs : (0 <= inject_Z s)%Q) by (change 0%Q with (inject_Z 0); now rewrite <- Zle_Qle).
  assert (Hqf : (0 <= inject_Z f)%Q) by (change 0%Q with (inject_Z 0); now rewrite <- Zle_Qle).
  assert (Hiff : 18 + 19 * s < f <->
                 (18 + 19 * inject_Z s < inject_Z f)%Q).
  { rewrite Zlt_Qlt, inject_Z_plus, inject_Z_mult. reflexivity. }
  rewrite Hiff. set (qs := inject_Z s) in *. set (qf := inject_Z f) in *.
  clearbody qs qf.
  split.
  - intros (H1 & H2 & H3). split; [exact H1|].
    assert (Hy : (0 < 1 + qs + (1 + qf))%Q) by Lqa.lra.
    apply (Qmult_lt_compat_r _ _ _ Hy) in H3.
    assert (E : ((1 + qs) / (1 + qs + (1 + qf)) * (1 + qs + (1 + qf)) == 1 + qs)%Q)
      by (field; Lqa.lra).
    rewrite E in H3. Lqa.lra.
  - intros (H1 & H2). split; [exact H1|]. split; [Lqa.lra|].
    apply Qlt_shift_div_r; Lqa.lra.
Qed.

(** ** Sequences of feedback *)

(** The row [recordFeedback] stores. *)
Lemma recordFeedback_run (feedback : FeedbackRecord) (w : World) :
  exists w',
    recordFeedback feedback w = Ok tt w' /\
    host w' = host w /\
    prompt_variants (db w') = prompt_variants (db w) /\
    preference_comparisons (db w') = preference_comparisons (db w) /\
    explorationRate w' = explorationRate w /\
    feedback_records (db w') =
      feedback_records (db w) ++
        [mkFeedbackRow (fb_taskId feedback) (fb_variantId feedback)
           (fb_reward feedback) (fb_latencyMs feedback) (fb_tokenCost feedback)
           (if fb_success feedback then 1 else 0)
           (Date_now_src (host w) (clock_pos w))] /\
    variant_performance (db w') =
      <[fb_variantId feedback :=
          let perf := readPerformance (db w) (fb_variantId feedback) in
          mkPerformanceRow
            (alpha perf + (if fb_success feedback then 1 else 0))%Q
            (beta perf + (if fb_success feedback then 0 else 1))%Q
            (totalTrials perf + 1)
            ((avgReward perf * inject_Z (totalTrials perf) + fb_reward feedback)
               / inject_Z (totalTrials perf + 1))%Q
            ((avgLatencyMs perf * inject_Z (totalTrials perf) + fb_latencyMs feedback)
               / inject_Z (totalTrials perf + 1))%Q
            ((avgTokenCost perf * inject_Z (totalTrials perf) + fb_tokenCost feedback)
               / inject_Z (totalTrials perf + 1))%Q]>
        (variant_performance (db w)).
Proof.
  unfold recordFeedback.
  rewrite (bind_Ok _ _ _ _ _ (getPerformance_read _ w)).
  unfold insertOrReplacePerformance, insertFeedbackRecord; unfold_m; cbn.
  eexists. split; [reflexivity|]. cbn. repeat split.
Qed.

Lemma average_step (avg r : Q) (n : Z) (total : Q) :
  0 <= n ->
  (avg * inject_Z n == total)%Q ->
  ((avg * inject_Z n + r) / inject_Z (n + 1) * inject_Z (n + 1) == total + r)%Q.
Proof.
  intros Hn Htot.
  assert (Hpos : (0 < inject_Z (n + 1))%Q).
  { change 0%Q with (inject_Z 0). rewrite <- Zlt_Qlt. lia. }
  rewrite <- Htot. field. Lqa.lra.
Qed.

Lemma sumOf_cons (f : FeedbackRecord -> Q) (fb : FeedbackRecord)
    (fbs : list FeedbackRecord) :
  sumOf f (fb :: fbs) = (f fb + sumOf f fbs)%Q.
Proof. reflexivity. Qed.

(** Feedback for one variant, folded into whatever posterior it had. *)
Lemma recordFeedbackAll_fold (variantId : string) (fbs : list FeedbackRecord) :
  Forall (fun fb => fb_variantId fb = variantId) fbs ->
  forall (w : World) (tr tl tc : Q),
    let p := readPerformance (db w) variantId in
    0 <= totalTrials p ->
    (avgReward p * inject_Z (totalTrials p) == tr)%Q ->
    (avgLatencyMs p * inject_Z (totalTrials p) == tl)%Q ->
    (avgTokenCost p * inject_Z (totalTrials p) == tc)%Q ->
    exists w',
      recordFeedbackAll fbs w = Ok tt w' /\
      let p' := readPerformance (db w') variantId in
      totalTrials p' = totalTrials p + Z.of_nat (length fbs) /\
      (alpha p' == alpha p + inject_Z (successes fbs))%Q /\
      (beta p' == beta p + inject_Z (failures fbs))%Q /\
      (avgReward p' * inject_Z (totalTrials p') == tr + sumOf fb_reward fbs)%Q /\
      (avgLatencyMs p' * inject_Z (totalTrials p') == tl + sumOf fb_latencyMs fbs)%Q /\
      (avgTokenCost p' * inject_Z (totalTrials p') == tc + sumOf fb_tokenCost fbs)%Q /\
      prompt_variants (db w') = prompt_variants (db w) /\
      (forall k, k <> variantId ->
         variant_performance (db w') !! k = variant_performance (db w) !! k).
Proof.
  induction 1 as [|fb fbs Hid Hall IH]; intros w tr tl tc p Hn Hr Hl Hc.
  - exists w. split; [reflexivity|]. cbn. fold p.
    unfold successes, failures. cbn.
    split; [lia|]. split; [ring|]. split; [ring|].
    split; [rewrite Hr; ring|]. split; [rewrite Hl; ring|]. split; [rewrite Hc; ring|].
    split; [reflexivity|]. intros k _. reflexivity.
  - destruct (recordFeedback_run fb w) as (w1 & Hrun & _ & Hpv & _ & _ & _ & Hvp).
    rewrite Hid in Hvp. fold p in Hvp. cbv zeta in Hvp.
    cbn [recordFeedbackAll]. rewrite (bind_Ok _ _ _ _ _ Hrun).
    assert (Hp1 : readPerformance (db w1) variantId =
                  mkVariantPerformance variantId
                    (alpha p + (if fb_success fb then 1 else 0))%Q
                    (beta p + (if fb_success fb then 0 else 1))%Q
                    (totalTrials p + 1)
                    ((avgReward p * inject_Z (totalTrials p) + fb_reward fb)
                       / inject_Z (totalTrials p + 1))%Q
                    ((avgLatencyMs p * inject_Z (totalTrials p) + fb_latencyMs fb)
                       / inject_Z (totalTrials p + 1))%Q
                    ((avgTokenCost p * inject_Z (totalTrials p) + fb_tokenCost fb)
                       / inject_Z (totalTrials p + 1))%Q).
    { unfold readPerformance at 1. rewrite Hvp, lookup_insert_eq. reflexivity. }
    destruct (IH w1 (tr + fb_reward fb)%Q (tl + fb_latencyMs fb)%Q (tc + fb_tokenCost fb)%Q)
      as (w' & Hrun' & Ht & Ha & Hb & Har & Hal & Hac & Hpv' & Hother).
    + rewrite Hp1. cbn. lia.
    + rewrite Hp1. cbn [avgReward totalTrials]. now apply average_step.
    + rewrite Hp1. cbn [avgLatencyMs totalTrials]. now apply average_step.
    + rewrite Hp1. cbn [avgTokenCost totalTrials]. now apply average_step.
    + exists w'. split; [exact Hrun'|]. cbv zeta.
      rewrite Hp1 in Ht, Ha, Hb. cbn [totalTrials alpha beta] in Ht, Ha, Hb.
      split; [rewrite Ht; cbn [length]; lia|].
      split.
      { rewrite Ha. unfold successes. rewrite filter_cons.
        destruct (fb_success fb); cbn.
        - rewrite decide_True by reflexivity. cbn [length].
          rewrite Nat2Z.inj_succ, <- Z.add_1_l, inject_Z_plus. ring.
        - rewrite decide_False by discriminate. ring. }
      split.
      { rewrite Hb. unfold failures. rewrite filter_cons.
        destruct (fb_success fb); cbn.
        - rewrite decide_False by discriminate. ring.
        - rewrite decide_True by reflexivity. cbn [length].
          rewrite Nat2Z.inj_succ, <- Z.add_1_l, inject_Z_plus. ring. }
      split; [rewrite Har, sumOf_cons; ring|].
      split; [rewrite Hal, sumOf_cons; ring|].
      split; [rewrite Hac, sumOf_cons; ring|].
      split; [congruence|].
      intros k Hk. rewrite (Hother k Hk), Hvp. now rewrite lookup_insert_ne.
Qed.

Lemma successes_failures (fbs : list FeedbackRecord) :
  successes fbs + failures fbs = Z.of_nat (length fbs).
Proof.
  unfold successes, failures. induction fbs as [|fb fbs IH]; [reflexivity|].
  rewrite !filter_cons. destruct (fb_success fb); cbn [length].
  - rewrite decide_True by reflexivity. rewrite decide_False by discriminate.
    cbn [length]. lia.
  - rewrite decide_False by discriminate. rewrite decide_True by reflexivity.
    cbn [length]. lia.
Qed.

(** X6: after any sequence of [recordFeedback] calls for a variant that
    started from the default prior (no row, or the row [createVariant]
    stores), its posterior has as many trials as there were calls, alpha = 1 +
    the number of successes and beta = 1 + the number of failures; the
    variants and the posteriors of other variants are unchanged. *)
Theorem recordFeedback_sequence_counts (variantId : string) (fbs : list FeedbackRecord)
    (w : World) :
  Forall (fun fb => fb_variantId fb = variantId) fbs ->
  readPerformance (db w) variantId = defaultPrior variantId ->
  exists w' perf,
    recordFeedbackAll fbs w = Ok tt w' /\
    getVariantStats variantId w' = Ok perf w' /\
    totalTrials perf = Z.of_nat (length fbs) /\
    (alpha perf == 1 + inject_Z (successes fbs))%Q /\
    (beta perf == 1 + inject_Z (failures fbs))%Q /\
    prompt_variants (db w') = prompt_variants (db w) /\
    (forall k, k <> variantId ->
       variant_performance (db w') !! k = variant_performance (db w) !! k).
Proof.
  intros Hall Hdef.
  destruct (recordFeedbackAll_fold variantId fbs Hall w 0 0 0)%Q
    as (w' & Hrun & Ht & Ha & Hb & Hr & Hl & Hc & Hpv & Hother);
    try (rewrite Hdef; cbn; try lia; reflexivity).
  rewrite Hdef in Ht, Ha, Hb. cbn [defaultPrior totalTrials alpha beta] in Ht, Ha, Hb.
  exists w', (readPerformance (db w') variantId).
  split; [exact Hrun|]. split; [apply getPerformance_read|].
  split; [lia|]. split; [exact Ha|]. split; [exact Hb|].
  split; assumption.
Qed.

Lemma recordFeedback_sequence_counts_witness :
  let fbs := [mkFeedbackRecord "t1" "v" 1 100 30 true 0;
              mkFeedbackRecord "t2" "v" 0 300 10 false 0;
              mkFeedbackRecord "t3" "v" (1 # 2) 200 20 true 0] in
  exists w' perf,
    recordFeedbackAll fbs world_empty = Ok tt w' /\
    getVariantStats "v" w' = Ok perf w' /\
    totalTrials perf = Z.of_nat (length fbs) /\
    (alpha perf == 1 + inject_Z (successes fbs))%Q /\
    (beta perf == 1 + inject_Z (failures fbs))%Q /\
    prompt_variants (db w') = prompt_variants (db world_empty) /\
    (forall k, k <> "v" ->
       variant_performance (db w') !! k = variant_performance (db world_empty) !! k).
Proof.
  intros fbs. apply (recordFeedback_sequence_counts "v" fbs world_empty).
  - repeat constructor.
  - reflexivity.
Defined.

(** X7: a stored variant that started from the default prior and then
    received only feedback, [s] successes and [f] failures, survives the next
    pruning pass unless it has at least 20 trials and [f > 18 + 19 * s]; with
    no success it is deleted exactly from the twentieth failure on. *)
Theorem pruneLowPerformers_after_feedback (pv : PromptVariant)
    (fbs : list FeedbackRecord) (w : World) :
  pv ∈ prompt_variants (db w) ->
  Forall (fun fb => fb_variantId fb = id pv) fbs ->
  readPerformance (db w) (id pv) = defaultPrior (id pv) ->
  exists w',
    (recordFeedbackAll fbs ;;; pruneLowPerformers) w = Ok tt w' /\
    (pv ∈ prompt_variants (db w') <->
     ~ (20 <= Z.of_nat (length fbs) /\ 18 + 19 * successes fbs < failures fbs)).
Proof.
  intros Hin Hall Hdef.
  destruct (recordFeedbackAll_fold (id pv) fbs Hall w 0 0 0)%Q
    as (w1 & Hrun & Ht & Ha & Hb & _ & _ & _ & Hpv & _);
    try (rewrite Hdef; cbn; try lia; reflexivity).
  rewrite Hdef in Ht, Ha, Hb. cbn [defaultPrior totalTrials alpha beta] in Ht, Ha, Hb.
  exists (pruned w1). split.
  { rewrite (bind_Ok _ _ _ _ _ Hrun). apply pruneLowPerformers_run. }
  cbn [pruned db prompt_variants]. rewrite list_elem_of_filter, Hpv.
  pose proof (successes_failures fbs) as Hsf.
  assert (Hs : 0 <= successes fbs) by (unfold successes; lia).
  assert (Hf : 0 <= failures fbs) by (unfold failures; lia).
  unfold inPruneSet. unfold readPerformance in Ht, Ha, Hb.
  destruct (variant_performance (db w1) !! id pv) as [row|];
    cbn [totalTrials alpha beta] in Ht, Ha, Hb.
  - assert (Hlow : lowPerformer row = true <->
                   20 <= successes fbs + failures fbs /\
                   18 + 19 * successes fbs < failures fbs).
    { apply lowPerformer_counts; try assumption; try lia.
      - rewrite Ha, inject_Z_plus. reflexivity.
      - rewrite Hb, inject_Z_plus. reflexivity. }
    rewrite Hsf in Hlow. rewrite <- Hlow.
    destruct (lowPerformer row); split; try tauto; try congruence.
    intros [Hc _]. discriminate.
  - split; [intros _; lia | auto].
Qed.

Lemma pruneLowPerformers_after_feedback_witness :
  exists w',
    (recordFeedbackAll (replicate 20 (mkFeedbackRecord "t" "c3" 0 10 1 false 0))
       ;;; pruneLowPerformers)
      (mkWorld (host world_empty) 0 0 0
         (mkDatabase [variant_c3] ∅ [] []) (3 # 10)%Q) = Ok tt w' /\
    (variant_c3 ∈ prompt_variants (db w') <->
     ~ (20 <= Z.of_nat (length (replicate 20 (mkFeedbackRecord "t" "c3" 0 10 1 false 0))) /\
        18 + 19 * successes (replicate 20 (mkFeedbackRecord "t" "c3" 0 10 1 false 0))
        < failures (replicate 20 (mkFeedbackRecord "t" "c3" 0 10 1 false 0)))).
Proof.
  apply (pruneLowPerformers_after_feedback variant_c3
           (replicate 20 (mkFeedbackRecord "t" "c3" 0 10 1 false 0))
           (mkWorld (host world_empty) 0 0 0
              (mkDatabase [variant_c3] ∅ [] []) (3 # 10)%Q)).
  - repeat constructor.
  - repeat constructor.
  - reflexivity.
Defined.

(** ** A preference of a variant over itself *)

(** X9: [recordPreference] does not compare its two ids: called with the
    same variant as winner and loser, on a stored row, it returns normally,
    stores the comparison with that id on both sides, and applies both
    updates to the one row, alpha + 1/10 and beta + 1/10; the other columns
    of the row and all other rows stay as they were. *)
Theorem recordPreference_self_comparison (w : World) (v context : string)
    (humanFeedback : bool) (r : PerformanceRow) :
  variant_performance (db w) !! v = Some r ->
  exists w',
    recordPreference v v context humanFeedback w = Ok tt w' /\
    variant_performance (db w') !! v =
      Some (mkPerformanceRow (row_alpha r + (1 # 10))%Q (row_beta r + (1 # 10))%Q
              (total_trials r) (avg_reward r) (avg_latency_ms r)
              (avg_token_cost r)) /\
    (forall k, k <> v ->
       variant_performance (db w') !! k = variant_performance (db w) !! k) /\
    preference_comparisons (db w') =
      preference_comparisons (db w) ++
        [mkPreferenceRow v v context (if humanFeedback then 1 else 0)
           (Date_now_src (host w) (clock_pos w))] /\
    prompt_variants (db w') = prompt_variants (db w) /\
    feedback_records (db w') = feedback_records (db w).
Proof.
  intros Hr. eexists. split; [apply recordPreference_run|].
  cbn [db variant_performance preference_comparisons prompt_variants feedback_records].
  split; [now rewrite !lookup_alter_eq, Hr|].
  split; [|repeat split].
  intros k Hk. now rewrite !lookup_alter_ne by congruence.
Qed.

Lemma recordPreference_self_comparison_witness :
  exists w',
    recordPreference "w" "w" "ctx" false world_two_rows = Ok tt w' /\
    variant_performance (db w') !! "w" =
      Some (mkPerformanceRow (3 + (1 # 10))%Q (2 + (1 # 10))%Q 4 (1 # 2) 10 7) /\
    (forall k, k <> "w" ->
       variant_performance (db w') !! k = variant_performance (db world_two_rows) !! k) /\
    preference_comparisons (db w') =
      preference_comparisons (db world_two_rows) ++
        [mkPreferenceRow "w" "w" "ctx" 0
           (Date_now_src (host world_two_rows) (clock_pos world_two_rows))] /\
    prompt_variants (db w') = prompt_variants (db world_two_rows) /\
    feedback_records (db w') = feedback_records (db world_two_rows).
Proof.
  apply (recordPreference_self_comparison world_two_rows "w" "ctx" false
           (mkPerformanceRow 3 2 4 (1 # 2) 10 7)).
  reflexivity.
Defined.

(** ** Crossover and mutation *)

Lemma firstLine_spec (s : string) :
  (forall c, c ∈ list_ascii_of_string (firstLine s) -> c <> "010"%char) /\
  (s = firstLine s \/ exists rest, s = (firstLine s ++ newline ++ rest)%string).
Proof.
  induction s as [|c s [IH1 IH2]]; cbn [firstLine].
  - split; [intros c Hc; cbn in Hc; inversion Hc | now left].
  - destruct (Ascii.eqb_spec c "010"%char) as [->|Hc].
    + split; [intros c Hc; cbn in Hc; inversion Hc|].
      right. exists s. reflexivity.
    + split.
      * intros c' Hc'. cbn in Hc'. apply elem_of_cons in Hc' as [->|Hc']; auto.
      * destruct IH2 as [IH2|(rest & IH2)].
        -- left. now f_equal.
        -- right. exists rest.
           change (String c s = String c (firstLine s ++ newline ++ rest)%string).
           now f_equal.
Qed.

(** X10: [crossoverPrompts] draws nothing and changes nothing; its result
    is prompt A, an empty line, and "Additionally: " followed by the first
    line of prompt B: a string without a line feed that is all of B or is
    followed in B by a line feed. *)
Theorem crossoverPrompts_first_line (promptA promptB : string) (w : World) :
  exists line,
    crossoverPrompts promptA promptB w =
      Ok (promptA ++ newline ++ newline ++ "Additionally: " ++ line)%string w /\
    (forall c, c ∈ list_ascii_of_string line -> c <> "010"%char) /\
    (promptB = line \/ exists rest, promptB = (line ++ newline ++ rest)%string).
Proof.
  exists (firstLine promptB). split; [reflexivity|]. apply firstLine_spec.
Qed.

(** X11: with a draw of [Math.random] in range, [mutatePrompt] appends
    exactly one of its five phrases to the prompt (never the text
    "undefined") and consumes that one draw. *)
Theorem mutatePrompt_appends_phrase (prompt : string) (w : World) :
  valid_random (host w) ->
  exists phrase,
    phrase ∈ mutations /\
    mutatePrompt prompt w = Ok (prompt ++ phrase)%string (advance_random 1 w).
Proof.
  intros Hv. unfold mutatePrompt. rewrite (bind_Ok _ _ _ _ _ (Math_random_run w)).
  destruct (array_get_in_range mutations
              (Qfloor (Math_random_src (host w) (random_pos w)
                       * inject_Z (Z.of_nat (length mutations))))) as (m & Hm & Hin).
  { apply floor_index; [apply Hv | cbn; lia]. }
  exists m. split; [exact Hin|]. unfold ret. now rewrite Hm.
Qed.

Lemma mutatePrompt_appends_phrase_witness :
  exists phrase,
    phrase ∈ mutations /\
    mutatePrompt "Review." world_empty = Ok ("Review." ++ phrase)%string
                                            (advance_random 1 world_empty).
Proof.
  apply (mutatePrompt_appends_phrase "Review." world_empty).
  intros n. split; [unfold Qle; simpl; lia | reflexivity].
Defined.

(** ** Contextual selection *)

Lemma array_mapM_const {A B} (f : A -> M B) (b : B) (l : list A) (w : World) :
  (forall a, f a w = Ok b w) ->
  array_mapM f l w = Ok (replicate (length l) b) w.
Proof.
  intros Hf. induction l as [|a l IH]; [reflexivity|].
  cbn [array_mapM]. rewrite (bind_Ok _ _ _ _ _ (Hf a)).
  rewrite (bind_Ok _ _ _ _ _ IH). reflexivity.
Qed.

Lemma num_eqb_refl (x : number) : x <> NaN -> num_eqb x x = true.
Proof.
  destruct x as [r| | |]; intros H; try reflexivity; [|congruence].
  unfold num_eqb. now destruct (Req_dec_T r r).
Qed.

Lemma num_ltb_irrefl (x : number) : num_ltb x x = false.
Proof.
  destruct x as [r| | |]; try reflexivity.
  unfold num_ltb. destruct (Rlt_dec r r) as [H|]; [|reflexivity].
  exfalso. exact (Rlt_irrefl _ H).
Qed.

Lemma Math_max2_same (x : number) : Math_max2 x x = x.
Proof. destruct x; try reflexivity. unfold Math_max2. now rewrite num_ltb_irrefl. Qed.

Lemma Math_max_replicate (n : nat) (x : number) :
  Math_max (replicate (S n) x) = x.
Proof.
  unfold Math_max. cbn [replicate fold_left].
  assert (H0 : Math_max2 NInf x = x).
  { destruct x as [r| | |]; try reflexivity. }
  rewrite H0. induction n as [|n IH]; [reflexivity|].
  cbn [replicate fold_left]. now rewrite Math_max2_same.
Qed.

Lemma array_indexOf_NaN (l : list number) (i : Z) :
  array_indexOf_from i l NaN = -1.
Proof.
  revert i. induction l as [|x l IH]; intros i; [reflexivity|].
  cbn [array_indexOf_from]. destruct x; apply IH.
Qed.

(** Every candidate gets the same score, computed from the context and the
    exploration rate alone. *)
Lemma contextualBanditSelect_score (candidateIds : list string)
    (contextFeatures : list number) (w : World) :
  let score := linUCBScore contextFeatures (ofQ (explorationRate w)) in
  contextualBanditSelect candidateIds contextFeatures w =
    Ok (match score with NaN => None | _ => head candidateIds end) w.
Proof.
  intros score. unfold contextualBanditSelect.
  rewrite (bind_Ok _ _ _ _ _
             (array_mapM_const _ score candidateIds w (fun _ => eq_refl))).
  unfold ret. f_equal.
  destruct candidateIds as [|c cs].
  - cbn. now destruct score.
  - cbn [length]. rewrite Math_max_replicate. cbn [replicate head].
    unfold array_indexOf. cbn [array_indexOf_from].
    destruct score as [r| | |] eqn:E; try reflexivity.
    + rewrite num_eqb_refl by discriminate. reflexivity.
    + cbn [num_eqb]. now rewrite array_indexOf_NaN.
Qed.

Lemma linUCBScore_no_features (alpha : number) : linUCBScore [] alpha = NaN.
Proof.
  unfold linUCBScore, array_length. cbn [fold_left length INR].
  unfold num_0, num_div. destruct (Req_dec_T 0 0) as [_|H]; [|congruence].
  unfold num_sign. destruct (Rlt_dec 0 0) as [H|_]; [exfalso; lra|]. reflexivity.
Qed.

Lemma linUCBScore_finite_features (features : list number) (rate : Q) :
  features <> [] -> Forall isFinite features ->
  linUCBScore features (ofQ rate) <> NaN.
Proof.
  intros Hne Hfin. unfold linUCBScore, array_length.
  assert (Hsum : forall l acc, Forall isFinite l ->
            isFinite (fold_left (fun sum f => sum + f)%num l (Fin acc))).
  { induction l as [|x l IH]; intros acc Hl; [exact I|].
    apply Forall_cons in Hl as [Hx Hl]. destruct x as [r| | |]; try contradiction.
    cbn [fold_left]. apply IH. exact Hl. }
  specialize (Hsum features 0%R Hfin). unfold num_0.
  destruct (fold_left _ features (Fin 0)) as [s| | |]; try contradiction.
  assert (Hlen : (0 < INR (length features))%R).
  { apply lt_0_INR. destruct features; [congruence | cbn; lia]. }
  rewrite num_div_Fin by lra. rewrite Math_sqrt_Fin by lra. discriminate.
Qed.

(** X12: [contextualBanditSelect] gives every candidate the same score and
    so does not tell candidates apart: with a non-empty vector of finite
    features it returns the first candidate ([undefined] when there is no
    candidate), and with an empty feature vector, whose score is 0 / 0, it
    returns [undefined] whatever the candidates.  The world is left as it
    was. *)
Theorem contextualBanditSelect_first_candidate (candidateIds : list string)
    (contextFeatures : list number) (w : World) :
  (contextFeatures = [] ->
   contextualBanditSelect candidateIds contextFeatures w = Ok None w) /\
  (contextFeatures <> [] -> Forall isFinite contextFeatures ->
   contextualBanditSelect candidateIds contextFeatures w = Ok (head candidateIds) w).
Proof.
  pose proof (contextualBanditSelect_score candidateIds contextFeatures w) as Hrun.
  cbv zeta in Hrun. split.
  - intros ->. now rewrite Hrun, linUCBScore_no_features.
  - intros Hne Hfin. rewrite Hrun.
    pose proof (linUCBScore_finite_features contextFeatures (explorationRate w) Hne Hfin).
    now destruct (linUCBScore contextFeatures (ofQ (explorationRate w))).
Qed.

(** ** Listing the variants *)

#[local] Instance by_created_at_desc_total : Total by_created_at_desc.
Proof. intros x y. unfold by_created_at_desc. lia. Qed.

#[local] Instance by_created_at_desc_trans : Transitive by_created_at_desc.
Proof. intros x y z. unfold by_created_at_desc. lia. Qed.

Lemma getAllVariants_run (w : World) :
  getAllVariants w = Ok (merge_sort by_created_at_desc (prompt_variants (db w))) w.
Proof. reflexivity. Qed.

#[local] Instance PromptVariant_eq_dec : EqDecision PromptVariant.
Proof. solve_decision. Defined.

(** X13: on every store, [getAllVariants] returns every stored variant
    once, in descending order of creation time, and changes nothing; a
    stored variant that is strictly newer than all others heads the list. *)
Theorem getAllVariants_newest_first (w : World) :
  exists all,
    getAllVariants w = Ok all w /\
    all ≡ₚ prompt_variants (db w) /\
    StronglySorted (fun v1 v2 => createdAt v2 <= createdAt v1) all /\
    forall newest,
      newest ∈ prompt_variants (db w) ->
      (forall pv, pv ∈ prompt_variants (db w) -> pv <> newest ->
         createdAt pv < createdAt newest) ->
      head all = Some newest.
Proof.
  set (all := merge_sort by_created_at_desc (prompt_variants (db w))).
  assert (HP : all ≡ₚ prompt_variants (db w)) by apply merge_sort_Permutation.
  assert (HS : StronglySorted by_created_at_desc all)
    by (apply StronglySorted_merge_sort; apply _).
  exists all. split; [apply getAllVariants_run|].
  split; [exact HP|]. split; [exact HS|].
  intros newest Hin Hlater. rewrite <- HP in Hin.
  destruct all as [|h rest]; [inversion Hin|].
  cbn [head]. destruct (decide (h = newest)) as [->|Hne]; [reflexivity|].
  exfalso.
  assert (Hh : h ∈ prompt_variants (db w)) by (rewrite <- HP; apply list_elem_of_here).
  specialize (Hlater h Hh Hne).
  apply elem_of_cons in Hin as [Heq|Hin]; [congruence|].
  apply StronglySorted_cons in HS as [Hall _].
  rewrite Forall_forall in Hall. specialize (Hall _ Hin).
  unfold by_created_at_desc in Hall. lia.
Qed.

(** ** The winner of a tournament *)

Lemma betterContestant_run (a b : PromptVariant) (w : World) :
  betterContestant (Some a) (Some b) w =
    Ok (if Qgtb (avgReward (readPerformance (db w) (id a)))
                (avgReward (readPerformance (db w) (id b)))
        then Some a else Some b) w.
Proof.
  unfold betterContestant.
  rewrite (bind_Ok _ _ _ _ _ (getPerformance_read (id a) w)).
  rewrite (bind_Ok _ _ _ _ _ (getPerformance_read (id b) w)).
  reflexivity.
Qed.

Lemma array_foldM_better_max (w : World) (l : list PromptVariant) :
  forall acc : PromptVariant,
  exists best,
    array_foldM betterContestant (Some acc) (Some <$> l) w = Ok (Some best) w /\
    best ∈ acc :: l /\
    forall c, c ∈ acc :: l ->
      (avgReward (readPerformance (db w) (id c))
       <= avgReward (readPerformance (db w) (id best)))%Q.
Proof.
  induction l as [|x l IH]; intros acc.
  - exists acc. split; [reflexivity|]. split; [apply list_elem_of_here|].
    intros c Hc. apply list_elem_of_singleton in Hc as ->. apply Qle_refl.
  - cbn [fmap list_fmap array_foldM]. rewrite (bind_Ok _ _ _ _ _ (betterContestant_run acc x w)).
    destruct (Qgtb _ _) eqn:E.
    + destruct (IH acc) as (best & Hrun & Hin & Hmax).
      exists best. split; [exact Hrun|]. split.
      * apply elem_of_cons in Hin as [->|Hin]; [apply list_elem_of_here|].
        now do 2 apply list_elem_of_further.
      * intros c Hc. apply Qgtb_lt in E.
        apply elem_of_cons in Hc as [->|Hc]; [apply Hmax, list_elem_of_here|].
        apply elem_of_cons in Hc as [->|Hc].
        -- apply Qle_trans with (avgReward (readPerformance (db w) (id acc))).
           ++ now apply Qlt_le_weak.
           ++ apply Hmax, list_elem_of_here.
        -- now apply Hmax, list_elem_of_further.
    + destruct (IH x) as (best & Hrun & Hin & Hmax).
      exists best. split; [exact Hrun|]. split; [now apply list_elem_of_further|].
      intros c Hc.
      assert (Hle : (avgReward (readPerformance (db w) (id acc))
                     <= avgReward (readPerformance (db w) (id x)))%Q).
      { unfold Qgtb in E. apply negb_false_iff, Qle_bool_iff in E. exact E. }
      apply elem_of_cons in Hc as [->|Hc]; [|now apply Hmax].
      apply Qle_trans with (avgReward (readPerformance (db w) (id x))); [exact Hle|].
      apply Hmax, list_elem_of_here.
Qed.

(** X14: the [reduce] of [tournamentSelection] over defined contestants
    returns one of them whose stored average reward is not below that of any
    contestant, and reads the store without changing the world. *)
Theorem tournament_reduce_picks_best (contestants : list PromptVariant) (w : World) :
  contestants <> [] ->
  exists best,
    array_reduce betterContestant (Some <$> contestants) w = Ok (Some best) w /\
    best ∈ contestants /\
    forall c, c ∈ contestants ->
      (avgReward (readPerformance (db w) (id c))
       <= avgReward (readPerformance (db w) (id best)))%Q.
Proof.
  intros Hne. destruct contestants as [|c0 cs]; [congruence|].
  cbn [fmap list_fmap array_reduce]. apply array_foldM_better_max.
Qed.

Lemma tournament_reduce_picks_best_witness :
  exists best,
    array_reduce betterContestant (Some <$> [variant_a1; variant_b2; variant_c3]) world_pool
      = Ok (Some best) world_pool /\
    best ∈ [variant_a1; variant_b2; variant_c3] /\
    forall c, c ∈ [variant_a1; variant_b2; variant_c3] ->
      (avgReward (readPerformance (db world_pool) (id c))
       <= avgReward (readPerformance (db world_pool) (id best)))%Q.
Proof.
  apply (tournament_reduce_picks_best [variant_a1; variant_b2; variant_c3] world_pool).
  discriminate.
Defined.

(** ** Pruned variants do not breed *)

(** X15: after a pruning pass, the breeding pool [getTopVariants] returns
    holds no variant that meets the pruning criterion: every member is a
    stored variant with at least 10 trials whose posterior row is not a low
    performer's. *)
Theorem getTopVariants_after_pruning (n : Z) (w w' : World)
    (population : list PromptVariant) :
  (pruneLowPerformers ;;; getTopVariants n) w = Ok population w' ->
  forall p, p ∈ population ->
    p ∈ prompt_variants (db w) /\
    exists row,
      variant_performance (db w) !! id p = Some row /\
      minTrialsBeforeExploitation <= total_trials row /\
      ~ lowPerformerRow row.
Proof.
  intros Hrun p Hp.
  rewrite (bind_Ok _ _ _ _ _ (pruneLowPerformers_run w)) in Hrun.
  destruct (getTopVariants_breedingPool n (pruned w)) as (pop & Hpop & Hpool & _).
  rewrite Hrun in Hpop. injection Hpop as <- _.
  destruct (Hpool p Hp) as (Hin & row & Hrow & Htrials).
  cbn [pruned db prompt_variants variant_performance] in Hin, Hrow.
  apply list_elem_of_filter in Hin as [Hkeep Hin].
  split; [exact Hin|]. exists row. split; [exact Hrow|]. split; [exact Htrials|].
  intros Hlow. unfold inPruneSet in Hkeep. rewrite Hrow in Hkeep.
  apply lowPerformer_spec in Hlow. congruence.
Qed.

Lemma getTopVariants_after_pruning_witness :
  variant_b2 ∈ prompt_variants (db world_pool) /\
  exists row,
    variant_performance (db world_pool) !! id variant_b2 = Some row /\
    minTrialsBeforeExploitation <= total_trials row /\
    ~ lowPerformerRow row.
Proof.
  apply (getTopVariants_after_pruning 5 world_pool (pruned world_pool)
           [variant_b2; variant_a1]).
  - vm_compute. reflexivity.
  - apply list_elem_of_here.
Defined.

(** ** What every method keeps *)

#[local] Instance unchanged_preorder : PreOrder unchanged.
Proof.
  split.
  - intros w. unfold unchanged. auto.
  - intros w1 w2 w3 (H1 & H2 & H3) (H4 & H5 & H6). unfold unchanged.
    repeat split; congruence.
Qed.

Lemma posteriorsGrow_refl (d : Database) : posteriorsGrow d d.
Proof.
  intros k row H. exists row. split; [exact H|].
  split; [apply Qle_refl|]. split; [apply Qle_refl | lia].
Qed.

Lemma posteriorsGrow_trans (d1 d2 d3 : Database) :
  posteriorsGrow d1 d2 -> posteriorsGrow d2 d3 -> posteriorsGrow d1 d3.
Proof.
  intros H12 H23 k row H.
  destruct (H12 k row H) as (r2 & Hr2 & Ha & Hb & Ht).
  destruct (H23 k r2 Hr2) as (r3 & Hr3 & Ha' & Hb' & Ht').
  exists r3. split; [exact Hr3|].
  split; [exact (Qle_trans _ _ _ Ha Ha')|]. split; [exact (Qle_trans _ _ _ Hb Hb') | lia].
Qed.

#[local] Instance storeGrows_preorder : PreOrder storeGrows.
Proof.
  split.
  - intros w. split; auto using posteriorsGrow_refl.
  - intros w1 w2 w3 [] []. split; try congruence; try tauto.
    + etransitivity; eassumption.
    + etransitivity; eassumption.
    + eapply posteriorsGrow_trans; eassumption.
Qed.

#[local] Instance evolves_preorder : PreOrder evolves.
Proof.
  split.
  - intros w. split; auto using posteriorsGrow_refl.
    intros H. split; [exact H | apply Qle_refl].
  - intros w1 w2 w3 [] []. split; try congruence; try tauto.
    + intros H. destruct (ev_rate0 H) as [H1 H2]. destruct (ev_rate1 H1) as [H3 H4].
      split; [exact H3 | exact (Qle_trans _ _ _ H4 H2)].
    + etransitivity; eassumption.
    + etransitivity; eassumption.
    + eapply posteriorsGrow_trans; eassumption.
Qed.

Lemma unchanged_storeGrows (w w' : World) : unchanged w w' -> storeGrows w w'.
Proof.
  intros (Hh & Hd & Hr). split; try assumption; rewrite Hd; auto using posteriorsGrow_refl.
Qed.

Lemma storeGrows_evolves (w w' : World) : storeGrows w w' -> evolves w w'.
Proof.
  intros []. split; try assumption.
  intros H. rewrite sg_rate0. split; [exact H | apply Qle_refl].
Qed.

Lemma respects_weaken {A} (R1 R2 : World -> World -> Prop) (m : M A) :
  (forall w w', R1 w w' -> R2 w w') -> respects R1 m -> respects R2 m.
Proof.
  intros HR Hm w. specialize (Hm w). destruct (m w); auto.
Qed.

Lemma respects_ret {A} (R : World -> World -> Prop) `{!PreOrder R} (a : A) :
  respects R (ret a).
Proof. intros w. cbn. reflexivity. Qed.

Lemma respects_throw {A} (R : World -> World -> Prop) `{!PreOrder R} (e : Error) :
  respects R (@throw A e).
Proof. intros w. cbn. reflexivity. Qed.

Lemma respects_bind {A B} (R : World -> World -> Prop) `{!PreOrder R}
    (m : M A) (k : A -> M B) :
  respects R m -> (forall a, respects R (k a)) -> respects R (bind m k).
Proof.
  intros Hm Hk w. unfold bind. specialize (Hm w).
  destruct (m w) as [a w1|e w1|]; [|exact Hm|exact I].
  specialize (Hk a w1). destruct (k a w1); [| |exact I]; etransitivity; eassumption.
Qed.

Lemma respects_out_of_fuel {A} (R : World -> World -> Prop) :
  respects R (fun _ : World => @OutOfFuel A).
Proof. intros w. exact I. Qed.

(** *** Queries *)

Lemma Math_random_unchanged : respects unchanged Math_random.
Proof. intros w. cbn. unfold unchanged. auto. Qed.

Lemma Date_now_unchanged : respects unchanged Date_now.
Proof. intros w. cbn. unfold unchanged. auto. Qed.

Lemma randomBytes_unchanged (n : nat) : respects unchanged (randomBytes n).
Proof. intros w. cbn. unfold unchanged. auto. Qed.

Lemma getDb_unchanged : respects unchanged getDb.
Proof. intros w. cbn. reflexivity. Qed.

Lemma getExplorationRate_unchanged : respects unchanged getExplorationRate.
Proof. intros w. cbn. reflexivity. Qed.

Lemma getPerformance_unchanged (variantId : string) :
  respects unchanged (getPerformance variantId).
Proof. intros w. rewrite getPerformance_read. reflexivity. Qed.

Ltac respects_unchanged :=
  repeat first
    [ apply respects_ret; apply _
    | apply respects_throw; apply _
    | apply respects_out_of_fuel
    | apply Math_random_unchanged
    | apply Date_now_unchanged
    | apply randomBytes_unchanged
    | apply getDb_unchanged
    | apply getExplorationRate_unchanged
    | apply getPerformance_unchanged
    | assumption
    | apply respects_bind; [apply _ | | intros ?]
    | match goal with
      | |- respects _ (if ?b then _ else _) => destruct b
      | |- respects _ (match ?x with _ => _ end) => destruct x
      end ].

Lemma Math_random_num_unchanged : respects unchanged Math_random_num.
Proof. unfold Math_random_num. respects_unchanged. Qed.

Lemma randomNormal_unchanged : respects unchanged randomNormal.
Proof. unfold randomNormal. pose proof Math_random_num_unchanged. respects_unchanged. Qed.

Lemma sampleGamma_candidate_unchanged (fuel : nat) (c : number) :
  respects unchanged (sampleGamma_candidate fuel c).
Proof.
  induction fuel as [|fuel IH]; cbn [sampleGamma_candidate].
  - apply respects_out_of_fuel.
  - pose proof randomNormal_unchanged. respects_unchanged.
Qed.

Lemma sampleGamma_loop_unchanged (fuel : nat) (d c scale : number) :
  respects unchanged (sampleGamma_loop fuel d c scale).
Proof.
  induction fuel as [|fuel IH]; cbn [sampleGamma_loop].
  - apply respects_out_of_fuel.
  - pose proof (sampleGamma_candidate_unchanged (S fuel) c).
    pose proof Math_random_num_unchanged. respects_unchanged.
Qed.

Lemma sampleGamma_unchanged (fuel : nat) :
  forall shape scale, respects unchanged (sampleGamma fuel shape scale).
Proof.
  induction fuel as [|fuel IH]; intros shape scale; cbn [sampleGamma].
  - apply respects_out_of_fuel.
  - pose proof Math_random_num_unchanged.
    pose proof (sampleGamma_loop_unchanged fuel).
    destruct (num_ltb shape num_1).
    + apply respects_bind; [apply _ | apply IH | intros g]. respects_unchanged.
    + auto.
Qed.

Lemma sampleBeta_unchanged (fuel : nat) (a b : number) :
  respects unchanged (sampleBeta fuel a b).
Proof.
  unfold sampleBeta. pose proof (sampleGamma_unchanged fuel a num_1).
  pose proof (sampleGamma_unchanged fuel b num_1). respects_unchanged.
Qed.

Lemma array_mapM_respects {A B} (R : World -> World -> Prop) `{!PreOrder R}
    (f : A -> M B) (l : list A) :
  (forall a, respects R (f a)) -> respects R (array_mapM f l).
Proof.
  intros Hf. induction l as [|a l IH]; cbn [array_mapM].
  - apply respects_ret; apply _.
  - apply respects_bind; [apply _ | apply Hf | intros b].
    apply respects_bind; [apply _ | apply IH | intros bs].
    apply respects_ret; apply _.
Qed.

Lemma thompsonSample_unchanged (fuel : nat) (candidateIds : list string) :
  respects unchanged (thompsonSample fuel candidateIds).
Proof.
  unfold thompsonSample.
  apply respects_bind; [apply _ | | intros perfs].
  { apply array_mapM_respects; [apply _ | apply getPerformance_unchanged]. }
  apply respects_bind; [apply _ | | intros samples].
  { apply array_mapM_respects; [apply _ | intros perf; apply sampleBeta_unchanged]. }
  apply respects_ret; apply _.
Qed.

Lemma evaluateABTest_loop_unchanged (fuel : nat) (perfA perfB : VariantPerformance)
    (n : nat) :
  forall c, respects unchanged (evaluateABTest_loop n fuel perfA perfB c).
Proof.
  induction n as [|n IH]; intros c; cbn [evaluateABTest_loop].
  - apply respects_ret; apply _.
  - apply respects_bind; [apply _ | apply sampleBeta_unchanged | intros sA].
    apply respects_bind; [apply _ | apply sampleBeta_unchanged | intros sB].
    apply IH.
Qed.

Lemma evaluateABTest_unchanged (fuel : nat) (variantA variantB : string) :
  respects unchanged (evaluateABTest fuel variantA variantB).
Proof.
  unfold evaluateABTest.
  apply respects_bind; [apply _ | apply getPerformance_unchanged | intros perfA].
  apply respects_bind; [apply _ | apply getPerformance_unchanged | intros perfB].
  apply respects_bind; [apply _ | apply evaluateABTest_loop_unchanged | intros wins].
  apply respects_ret; apply _.
Qed.

Lemma contextualBanditSelect_unchanged (candidateIds : list string)
    (contextFeatures : list number) :
  respects unchanged (contextualBanditSelect candidateIds contextFeatures).
Proof.
  unfold contextualBanditSelect.
  apply respects_bind; [apply _ | | intros scores].
  { apply array_mapM_respects; [apply _ | intros i]. respects_unchanged. }
  apply respects_ret; apply _.
Qed.

Lemma getAllVariants_unchanged : respects unchanged getAllVariants.
Proof. unfold getAllVariants. respects_unchanged. Qed.

Lemma getTopVariants_unchanged (n : Z) : respects unchanged (getTopVariants n).
Proof. unfold getTopVariants. respects_unchanged. Qed.

Lemma tournamentSelection_unchanged (population : list PromptVariant) (k : nat) :
  respects unchanged (tournamentSelection population k).
Proof.
  assert (Hmember : respects unchanged (randomMember population)).
  { unfold randomMember. respects_unchanged. }
  assert (Hbetter : forall a b, respects unchanged (betterContestant a b)).
  { intros a b. unfold betterContestant. respects_unchanged. }
  assert (Hfold : forall l acc, respects unchanged (array_foldM betterContestant acc l)).
  { induction l as [|x l IH]; intros acc; cbn [array_foldM].
    - apply respects_ret; apply _.
    - apply respects_bind; [apply _ | apply Hbetter | intros acc']. apply IH. }
  assert (Hdraw : forall j cs, respects unchanged (drawContestants j population cs)).
  { induction j as [|j IH]; intros cs; cbn [drawContestants].
    - apply respects_ret; apply _.
    - apply respects_bind; [apply _ | apply Hmember | intros c]. apply IH. }
  unfold tournamentSelection. generalize (@nil (option PromptVariant)).
  induction k as [|k IH]; intros selected; cbn [tournamentSelection_loop].
  - apply respects_ret; apply _.
  - apply respects_bind; [apply _ | apply Hdraw | intros cs].
    apply respects_bind; [apply _ | | intros best; apply IH].
    unfold array_reduce. destruct cs; [apply respects_throw; apply _ | apply Hfold].
Qed.

(** *** Methods that write *)

Lemma rowInRange_default : rowInRange (mkPerformanceRow 1 1 0 0 0 0).
Proof. unfold rowInRange; cbn. repeat split; try lia; unfold Qle; cbn; lia. Qed.

Lemma rowInRange_feedback (row : PerformanceRow) (success : bool) (r l c : Q) :
  rowInRange row ->
  rowInRange
    (mkPerformanceRow (row_alpha row + (if success then 1 else 0))%Q
       (row_beta row + (if success then 0 else 1))%Q (total_trials row + 1) r l c).
Proof.
  intros (Ha & Hb & Ht & Hs). unfold rowInRange; cbn.
  rewrite inject_Z_plus. change (inject_Z 1) with 1%Q.
  destruct success; repeat split; try lia; Lqa.lra.
Qed.

Lemma rowInRange_boostAlpha (row : PerformanceRow) :
  rowInRange row -> rowInRange (boostAlpha row).
Proof.
  intros (Ha & Hb & Ht & Hs). unfold rowInRange, boostAlpha; cbn.
  repeat split; try lia; Lqa.lra.
Qed.

Lemma rowInRange_boostBeta (row : PerformanceRow) :
  rowInRange row -> rowInRange (boostBeta row).
Proof.
  intros (Ha & Hb & Ht & Hs). unfold rowInRange, boostBeta; cbn.
  repeat split; try lia; Lqa.lra.
Qed.

(** A store whose variants are the same and whose posterior table lost no
    row and holds rows in range is well formed as before. *)
Lemma wellFormed_posteriors (d : Database) (m : gmap string PerformanceRow)
    (fb : list FeedbackRow) (pc : list PreferenceRow) :
  wellFormed d ->
  (forall k, is_Some (variant_performance d !! k) -> is_Some (m !! k)) ->
  (forall k row, m !! k = Some row -> rowInRange row) ->
  wellFormed (mkDatabase (prompt_variants d) m fb pc).
Proof.
  intros [Hd Hl Hp Hr] Hkeep Hrange. split; cbn; try assumption.
  eapply Forall_impl; [exact Hp|]. intros pv. apply Hkeep.
Qed.

Lemma alter_posteriorsGrow (f : PerformanceRow -> PerformanceRow) (k : string)
    (d : Database) (fb : list FeedbackRow) (pc : list PreferenceRow) :
  (forall row, (row_alpha row <= row_alpha (f row))%Q /\
               (row_beta row <= row_beta (f row))%Q /\
               total_trials row <= total_trials (f row)) ->
  posteriorsGrow d
    (mkDatabase (prompt_variants d) (alter f k (variant_performance d)) fb pc).
Proof.
  intros Hf k' row Hrow. cbn.
  destruct (decide (k = k')) as [<-|Hne].
  - exists (f row). rewrite lookup_alter_eq, Hrow. split; [reflexivity | apply Hf].
  - exists row. rewrite lookup_alter_ne by exact Hne. split; [exact Hrow|].
    split; [apply Qle_refl|]. split; [apply Qle_refl | lia].
Qed.

Lemma alter_wellFormed (f : PerformanceRow -> PerformanceRow) (k : string)
    (d : Database) (fb : list FeedbackRow) (pc : list PreferenceRow) :
  (forall row, rowInRange row -> rowInRange (f row)) ->
  wellFormed d ->
  wellFormed (mkDatabase (prompt_variants d) (alter f k (variant_performance d)) fb pc).
Proof.
  intros Hf Hwf. apply wellFormed_posteriors; [exact Hwf| |].
  - intros k'. now rewrite lookup_alter_is_Some.
  - intros k' row. destruct (decide (k = k')) as [<-|Hne].
    + rewrite lookup_alter_eq.
      destruct (variant_performance d !! k) as [r|] eqn:E; [|discriminate].
      cbn. intros [= <-]. apply Hf. exact (wf_rows d Hwf _ _ E).
    + rewrite lookup_alter_ne by exact Hne. apply (wf_rows d Hwf).
Qed.

Lemma recordFeedback_storeGrows (feedback : FeedbackRecord) :
  respects storeGrows (recordFeedback feedback).
Proof.
  intros w.
  destruct (recordFeedback_run feedback w)
    as (w' & -> & Hh & Hv & Hp & Hrate & Hf & Hperf).
  assert (Hread : forall row,
            variant_performance (db w) !! fb_variantId feedback = Some row ->
            alpha (readPerformance (db w) (fb_variantId feedback)) = row_alpha row /\
            beta (readPerformance (db w) (fb_variantId feedback)) = row_beta row /\
            totalTrials (readPerformance (db w) (fb_variantId feedback)) =
              total_trials row).
  { intros row E. unfold readPerformance. rewrite E. auto. }
  split.
  - exact Hh.
  - exact Hrate.
  - intros Hwf. destruct (db w') as [pv' vp' fr' pc'] eqn:Edb'. cbn in Hv, Hperf.
    subst pv' vp'. apply wellFormed_posteriors; [exact Hwf| |].
    + intros k Hk. destruct (decide (fb_variantId feedback = k)) as [<-|Hne].
      * rewrite lookup_insert_eq. eauto.
      * now rewrite lookup_insert_ne.
    + intros k row. destruct (decide (fb_variantId feedback = k)) as [<-|Hne].
      * rewrite lookup_insert_eq. intros [= <-].
        unfold readPerformance.
        destruct (variant_performance (db w) !! fb_variantId feedback) as [r|] eqn:E;
          cbn [alpha beta totalTrials].
        -- apply rowInRange_feedback. exact (wf_rows _ Hwf _ _ E).
        -- apply (rowInRange_feedback (mkPerformanceRow 1 1 0 0 0 0)).
           exact rowInRange_default.
      * rewrite lookup_insert_ne by exact Hne. apply (wf_rows _ Hwf).
  - rewrite Hf. now apply prefix_app_r.
  - now rewrite Hp.
  - intros k row Hrow. rewrite Hperf.
    destruct (decide (fb_variantId feedback = k)) as [<-|Hne].
    + rewrite lookup_insert_eq. eexists. split; [reflexivity|].
      destruct (Hread row Hrow) as (Ea & Eb & Et).
      cbn zeta. cbn [row_alpha row_beta total_trials]. rewrite Ea, Eb, Et.
      destruct (fb_success feedback); repeat split; try lia; Lqa.lra.
    + rewrite lookup_insert_ne by exact Hne. exists row. split; [exact Hrow|].
      split; [apply Qle_refl|]. split; [apply Qle_refl | lia].
Qed.

Lemma recordPreference_storeGrows (winnerId loserId context : string)
    (humanFeedback : bool) :
  respects storeGrows (recordPreference winnerId loserId context humanFeedback).
Proof.
  intros w. rewrite recordPreference_run.
  assert (Ha : forall row, (row_alpha row <= row_alpha (boostAlpha row))%Q /\
                           (row_beta row <= row_beta (boostAlpha row))%Q /\
                           total_trials row <= total_trials (boostAlpha row)).
  { intros row. cbn. repeat split; try lia; Lqa.lra. }
  assert (Hb : forall row, (row_alpha row <= row_alpha (boostBeta row))%Q /\
                           (row_beta row <= row_beta (boostBeta row))%Q /\
                           total_trials row <= total_trials (boostBeta row)).
  { intros row. cbn. repeat split; try lia; Lqa.lra. }
  split; cbn [host db explorationRate feedback_records preference_comparisons].
  - reflexivity.
  - reflexivity.
  - intros Hwf.
    refine (alter_wellFormed boostBeta loserId
              (mkDatabase (prompt_variants (db w))
                 (alter boostAlpha winnerId (variant_performance (db w)))
                 (feedback_records (db w)) (preference_comparisons (db w)))
              _ _ rowInRange_boostBeta _).
    apply alter_wellFormed; [exact rowInRange_boostAlpha | exact Hwf].
  - reflexivity.
  - now apply prefix_app_r.
  - eapply posteriorsGrow_trans.
    + exact (alter_posteriorsGrow boostAlpha winnerId (db w)
               (feedback_records (db w)) (preference_comparisons (db w)) Ha).
    + exact (alter_posteriorsGrow boostBeta loserId
               (mkDatabase (prompt_variants (db w))
                  (alter boostAlpha winnerId (variant_performance (db w)))
                  (feedback_records (db w)) (preference_comparisons (db w)))
               (feedback_records (db w)) _ Hb).
Qed.

Lemma Forall_filter_keep {A} (P : A -> Prop) (Q : A -> Prop)
    `{!forall x, Decision (Q x)} (l : list A) :
  Forall P l -> Forall P (filter Q l).
Proof.
  rewrite !Forall_forall. intros HP x Hx. apply HP.
  apply list_elem_of_filter in Hx. tauto.
Qed.

Lemma pruneLowPerformers_storeGrows : respects storeGrows pruneLowPerformers.
Proof.
  intros w. rewrite pruneLowPerformers_run. unfold pruned.
  split; cbn [host db explorationRate feedback_records preference_comparisons
              variant_performance].
  - reflexivity.
  - reflexivity.
  - intros [Hd Hl Hp Hr]. split; cbn; [| | |exact Hr].
    + eapply sublist_NoDup; [exact Hd|]. apply fmap_sublist, sublist_filter.
    + apply Forall_filter_keep, Hl.
    + apply Forall_filter_keep, Hp.
  - reflexivity.
  - reflexivity.
  - intros k row Hrow. exists row. split; [exact Hrow|].
    split; [apply Qle_refl|]. split; [apply Qle_refl | lia].
Qed.

Lemma posteriorsGrow_same_table (d d' : Database) :
  variant_performance d' = variant_performance d -> posteriorsGrow d d'.
Proof.
  intros E k row Hrow. exists row. rewrite E. split; [exact Hrow|].
  split; [apply Qle_refl|]. split; [apply Qle_refl | lia].
Qed.

(** [createVariant] returns after both inserts, or throws at the first
    insert with nothing written, or throws at the second with the variant
    written: then a posterior row of that id was stored already. *)
Lemma createVariant_storeGrows (template : string) (parentId : option string)
    (generation : Z) :
  respects storeGrows (createVariant template parentId generation).
Proof.
  intros w. unfold createVariant.
  unfold bind at 1. unfold randomBytes at 1.
  fold (nextId w).
  assert (Hlen : String.length (nextId w) = 32%nat).
  { unfold nextId. now rewrite toHex_length, length_fmap, length_seq. }
  revert Hlen. generalize (nextId w) as newId. intros newId Hlen.
  unfold insertVariant, insertDefaultPerformance. unfold_m.
  cbn [db host explorationRate prompt_variants variant_performance feedback_records
       preference_comparisons id].
  destruct (bool_decide (newId ∈ id <$> prompt_variants (db w))) eqn:Enew.
  { split; cbn; auto using posteriorsGrow_refl. }
  apply bool_decide_eq_false in Enew.
  cbn [db host explorationRate prompt_variants variant_performance feedback_records
       preference_comparisons id].
  assert (Hvariants : forall row, id row = newId ->
            NoDup (id <$> prompt_variants (db w)) ->
            NoDup (id <$> (prompt_variants (db w) ++ [row]))).
  { intros row Hid Hd. rewrite fmap_app. apply NoDup_app. split; [exact Hd|].
    split; [|apply NoDup_singleton].
    intros x Hx Hx'. cbn in Hx'. apply list_elem_of_singleton in Hx'. congruence. }
  destruct (variant_performance (db w) !! newId) as [stored|] eqn:Erow.
  - split; cbn [db host explorationRate prompt_variants variant_performance
                feedback_records preference_comparisons];
      [reflexivity | reflexivity | | reflexivity | reflexivity
      | now apply posteriorsGrow_same_table].
    intros [Hd Hl Hp Hr]. split; cbn; [| | |exact Hr].
    + now apply Hvariants.
    + apply Forall_app. split; [exact Hl|]. now constructor.
    + apply Forall_app. split; [exact Hp|]. constructor; [|constructor].
      cbn. rewrite Erow. eauto.
  - split; cbn [db host explorationRate prompt_variants variant_performance
                feedback_records preference_comparisons];
      [reflexivity | reflexivity | | reflexivity | reflexivity | ].
    + intros [Hd Hl Hp Hr]. split; cbn.
      * now apply Hvariants.
      * apply Forall_app. split; [exact Hl|]. now constructor.
      * apply Forall_app. split.
        -- eapply Forall_impl; [exact Hp|]. intros pv Hpv.
           destruct (decide (newId = id pv)) as [<-|Hne].
           ++ rewrite lookup_insert_eq. eauto.
           ++ now rewrite lookup_insert_ne.
        -- constructor; [|constructor]. cbn. rewrite lookup_insert_eq. eauto.
      * intros k row. destruct (decide (newId = k)) as [<-|Hne].
        -- rewrite lookup_insert_eq. intros [= <-]. exact rowInRange_default.
        -- rewrite lookup_insert_ne by exact Hne. apply Hr.
    + intros k row Hrow. exists row.
      assert (Hne : newId <> k) by congruence.
      cbn [variant_performance].
      rewrite lookup_insert_ne by exact Hne. split; [exact Hrow|].
      split; [apply Qle_refl|]. split; [apply Qle_refl | lia].
Qed.

Lemma evolveGeneration_storeGrows (population : list PromptVariant) :
  respects storeGrows (evolveGeneration population).
Proof.
  assert (Hq : forall A (m : M A), respects unchanged m -> respects storeGrows m).
  { intros A m. apply respects_weaken. exact unchanged_storeGrows. }
  unfold evolveGeneration.
  apply respects_bind; [apply _ | apply Hq, tournamentSelection_unchanged | intros parents].
  apply respects_bind; [apply _ | | intros parent0].
  { unfold deref. destruct (mjoin _); [apply respects_ret | apply respects_throw]; apply _. }
  apply respects_bind; [apply _ | | intros parent1].
  { unfold deref. destruct (mjoin _); [apply respects_ret | apply respects_throw]; apply _. }
  apply respects_bind; [apply _ | apply respects_ret; apply _ | intros offspring].
  apply respects_bind; [apply _ | apply Hq, Math_random_unchanged | intros r].
  apply respects_bind; [apply _ | | intros mutated; apply createVariant_storeGrows].
  destruct (Qltb r (2 # 10)); [|apply respects_ret; apply _].
  apply Hq. unfold mutatePrompt. respects_unchanged.
Qed.

Lemma evolvePrompts_storeGrows (populationSize nGenerations : Z) :
  respects storeGrows (evolvePrompts populationSize nGenerations).
Proof.
  unfold evolvePrompts.
  apply respects_bind; [apply _ | | intros population].
  { eapply respects_weaken; [exact unchanged_storeGrows | apply getTopVariants_unchanged]. }
  generalize (@nil string).
  induction (Z.to_nat nGenerations) as [|n IH]; intros newVariants;
    cbn [evolvePrompts_loop].
  - apply respects_ret; apply _.
  - apply respects_bind; [apply _ | apply evolveGeneration_storeGrows | intros newId].
    apply IH.
Qed.

Lemma maintenanceCycle_evolves : respects evolves maintenanceCycle.
Proof.
  unfold maintenanceCycle.
  apply respects_bind; [apply _ | | intros _].
  { eapply respects_weaken; [exact storeGrows_evolves | apply pruneLowPerformers_storeGrows]. }
  apply respects_bind; [apply _ | | intros _].
  { eapply respects_weaken; [exact storeGrows_evolves | apply evolvePrompts_storeGrows]. }
  intros w. unfold_m. cbn.
  split; cbn; auto using posteriorsGrow_refl.
  intros Hfloor. split; [apply Q.le_max_l|].
  apply Q.max_lub; [exact Hfloor|].
  assert (H0 : (0 <= explorationRate w)%Q) by Lqa.lra. Lqa.lra.
Qed.

Lemma perform_evolves (fuel : nat) (c : Call) : respects evolves (perform fuel c).
Proof.
  assert (Hq : forall A (m : M A),
            respects unchanged m -> respects evolves (m ;;; ret tt)).
  { intros A m Hm. apply respects_bind; [apply _ | | intros _; apply respects_ret; apply _].
    eapply respects_weaken; [|exact Hm].
    intros w w' H. apply storeGrows_evolves, unchanged_storeGrows, H. }
  assert (Hs : forall A (m : M A), respects storeGrows m -> respects evolves m).
  { intros A m. apply respects_weaken. exact storeGrows_evolves. }
  destruct c; cbn [perform].
  - apply Hq, thompsonSample_unchanged.
  - apply Hs, recordFeedback_storeGrows.
  - apply Hq, evaluateABTest_unchanged.
  - apply respects_bind; [apply _ | | intros _; apply respects_ret; apply _].
    apply Hs, evolvePrompts_storeGrows.
  - apply respects_bind; [apply _ | | intros _; apply respects_ret; apply _].
    apply Hs, createVariant_storeGrows.
  - apply Hq, contextualBanditSelect_unchanged.
  - apply Hs, recordPreference_storeGrows.
  - apply maintenanceCycle_evolves.
  - apply Hq, getAllVariants_unchanged.
  - apply Hq. unfold getVariantStats. apply getPerformance_unchanged.
Qed.

Lemma performAll_evolves (fuel : nat) (calls : list Call) :
  forall w w', performAll fuel calls w = Some w' -> evolves w w'.
Proof.
  induction calls as [|c rest IH]; intros w w' Hrun; cbn [performAll] in Hrun.
  - injection Hrun as <-. reflexivity.
  - pose proof (perform_evolves fuel c w) as Hc.
    destruct (perform fuel c w) as [[] w1|e w1|]; [| |discriminate];
      (etransitivity; [exact Hc | exact (IH _ _ Hrun)]).
Qed.

Lemma perform_query_unchanged (fuel : nat) (c : Call) :
  isQuery c -> respects unchanged (perform fuel c).
Proof.
  assert (Hq : forall A (m : M A),
            respects unchanged m -> respects unchanged (m ;;; ret tt)).
  { intros A m Hm. apply respects_bind; [apply _ | exact Hm | intros _].
    apply respects_ret; apply _. }
  destruct c; cbn [isQuery perform]; intros Hc; try contradiction.
  - apply Hq, thompsonSample_unchanged.
  - apply Hq, evaluateABTest_unchanged.
  - apply Hq, contextualBanditSelect_unchanged.
  - apply Hq, getAllVariants_unchanged.
  - apply Hq. unfold getVariantStats. apply getPerformance_unchanged.
Qed.

(** ** Thompson sampling on stored posteriors *)

Lemma array_mapM_getPerformance (ids : list string) (w : World) :
  array_mapM getPerformance ids w = Ok (readPerformance (db w) <$> ids) w.
Proof.
  induction ids as [|k ids IH]; [reflexivity|].
  cbn [array_mapM]. rewrite (bind_Ok _ _ _ _ _ (getPerformance_read k w)).
  rewrite (bind_Ok _ _ _ _ _ IH). reflexivity.
Qed.

Lemma readPerformance_in_range (d : Database) (k : string) :
  (forall k' row, variant_performance d !! k' = Some row -> rowInRange row) ->
  (1 <= alpha (readPerformance d k))%Q /\ (1 <= beta (readPerformance d k))%Q.
Proof.
  intros Hr. unfold readPerformance.
  destruct (variant_performance d !! k) as [row|] eqn:E; cbn.
  - destruct (Hr _ _ E) as (Ha & Hb & _). auto.
  - split; apply Qle_refl.
Qed.

Lemma array_mapM_sampleBeta (fuel : nat) (perfs : list VariantPerformance) :
  Forall (fun p => (1 <= alpha p)%Q /\ (1 <= beta p)%Q) perfs ->
  forall w w' samples,
    valid_random (host w) ->
    array_mapM (fun perf => sampleBeta fuel (ofQ (alpha perf)) (ofQ (beta perf)))
      perfs w = Ok samples w' ->
    Forall inOpenUnit samples /\ length samples = length perfs.
Proof.
  induction 1 as [|p perfs [Ha Hb] Hperfs IH]; intros w w' samples Hv Hrun.
  - injection Hrun as <- <-. split; [constructor | reflexivity].
  - cbn [array_mapM] in Hrun.
    apply bind_Ok_inv in Hrun as (s & w1 & Hs & Hrun).
    apply bind_Ok_inv in Hrun as (ss & w2 & Hss & Hrun).
    injection Hrun as <- <-.
    apply Qreals.Qle_Rle in Ha, Hb. rewrite RMicromega.Q2R_1 in Ha, Hb.
    destruct (sampleBeta_valid _ _ _ _ _ _ Ha Hb Hv Hs) as [Hunit Hh].
    destruct (IH w1 w2 ss ltac:(now rewrite Hh) Hss) as [Hall Hlen].
    split; [now constructor | cbn; now rewrite Hlen].
Qed.

Lemma Math_max2_choice (x y : number) :
  isFinite x -> isFinite y -> Math_max2 x y = x \/ Math_max2 x y = y.
Proof.
  intros Hx Hy. destruct x as [a| | |], y as [b| | |]; try contradiction.
  unfold Math_max2. destruct (num_ltb (Fin a) (Fin b)); auto.
Qed.

Lemma fold_Math_max2_member (l : list number) :
  Forall isFinite l ->
  forall acc, isFinite acc -> fold_left Math_max2 l acc ∈ acc :: l.
Proof.
  induction 1 as [|x l Hx Hl IH]; intros acc Hacc; cbn [fold_left].
  - apply list_elem_of_here.
  - destruct (Math_max2_choice acc x Hacc Hx) as [E|E]; rewrite E.
    + specialize (IH acc Hacc). apply elem_of_cons in IH as [->|IH].
      * apply list_elem_of_here.
      * now do 2 apply list_elem_of_further.
    + apply list_elem_of_further, IH, Hx.
Qed.

Lemma Math_max_member (l : list number) :
  l <> [] -> Forall isFinite l -> Math_max l ∈ l.
Proof.
  destruct l as [|x l]; [congruence|]. intros _ Hl.
  apply Forall_cons in Hl as [Hx Hl]. unfold Math_max. cbn [fold_left].
  assert (E : Math_max2 NInf x = x) by (destruct x; try contradiction; reflexivity).
  rewrite E. now apply fold_Math_max2_member.
Qed.

Lemma array_indexOf_member (l : list number) (x : number) :
  x ∈ l -> x <> NaN ->
  forall i, i <= array_indexOf_from i l x < i + Z.of_nat (length l).
Proof.
  intros Hin Hx. induction l as [|y l IH]; intros i.
  - now apply elem_of_nil in Hin.
  - cbn [array_indexOf_from length]. destruct (num_eqb y x) eqn:E; [lia|].
    apply elem_of_cons in Hin as [->|Hin].
    + rewrite num_eqb_refl in E by exact Hx. discriminate.
    + specialize (IH Hin (i + 1)). lia.
Qed.

Lemma array_get_member {A} (l : list A) (i : Z) :
  0 <= i < Z.of_nat (length l) -> exists a, array_get l i = Some a /\ a ∈ l.
Proof.
  intros Hi. unfold array_get. destruct (i <? 0) eqn:E; [lia|].
  destruct (lookup_lt_is_Some_2 l (Z.to_nat i) ltac:(lia)) as [a Ha].
  exists a. split; [exact Ha|]. eapply list_elem_of_lookup_2, Ha.
Qed.

Lemma inOpenUnit_isFinite (x : number) : inOpenUnit x -> isFinite x.
Proof. destruct x; cbn; tauto. Qed.

Lemma thompsonSample_Ok_inv (fuel : nat) (candidateIds : list string)
    (w w' : World) (res : option string) :
  (forall k row, variant_performance (db w) !! k = Some row -> rowInRange row) ->
  valid_random (host w) ->
  thompsonSample fuel candidateIds w = Ok res w' ->
  exists samples,
    Forall inOpenUnit samples /\ length samples = length candidateIds /\
    res = array_get candidateIds (array_indexOf samples (Math_max samples)).
Proof.
  intros Hr Hv Hrun. unfold thompsonSample in Hrun.
  rewrite (bind_Ok _ _ _ _ _ (array_mapM_getPerformance candidateIds w)) in Hrun.
  apply bind_Ok_inv in Hrun as (samples & w1 & Hs & Hrun).
  injection Hrun as <- <-.
  apply array_mapM_sampleBeta in Hs as [Hall Hlen]; [| |exact Hv].
  - exists samples. rewrite Hlen, length_fmap. auto.
  - apply Forall_fmap, Forall_forall. intros k _. cbn.
    now apply readPerformance_in_range.
Qed.

(** X17: on a store whose posterior rows have alpha >= 1 and beta >= 1 (the
    rows of every well-formed store) and with draws of [Math.random] in
    [0, 1), a call of [thompsonSample] with at least one candidate that
    returns, returns one of the candidates, never [undefined], and leaves the
    store as it was. *)
Theorem thompsonSample_returns_candidate (fuel : nat) (candidateIds : list string)
    (w w' : World) (res : option string) :
  (forall k row, variant_performance (db w) !! k = Some row -> rowInRange row) ->
  valid_random (host w) ->
  candidateIds <> [] ->
  thompsonSample fuel candidateIds w = Ok res w' ->
  (exists chosen, res = Some chosen /\ chosen ∈ candidateIds) /\ db w' = db w.
Proof.
  intros Hr Hv Hne Hrun. split.
  - destruct (thompsonSample_Ok_inv _ _ _ _ _ Hr Hv Hrun) as (samples & Hall & Hlen & ->).
    assert (Hfin : Forall isFinite samples).
    { eapply Forall_impl; [exact Hall | exact inOpenUnit_isFinite]. }
    assert (Hne' : samples <> []).
    { intros ->. destruct candidateIds; [congruence | discriminate]. }
    pose proof (Math_max_member samples Hne' Hfin) as Hmax.
    assert (Hnan : Math_max samples <> NaN).
    { intros E. rewrite Forall_forall in Hfin. specialize (Hfin _ Hmax).
      now rewrite E in Hfin. }
    pose proof (array_indexOf_member samples _ Hmax Hnan 0) as Hidx.
    fold (array_indexOf samples (Math_max samples)) in Hidx.
    apply array_get_member. rewrite <- Hlen. lia.
  - pose proof (thompsonSample_unchanged fuel candidateIds w) as Hu.
    rewrite Hrun in Hu. apply Hu.
Qed.

Lemma thompsonSample_quarter :
  thompsonSample 2 ["A"; "B"] world_quarter =
    Ok (Some "A") (advance_random 12 world_quarter).
Proof.
  assert (H1 : (1 <= Q2R 1)%R) by (rewrite RMicromega.Q2R_1; lra).
  unfold thompsonSample.
  rewrite (bind_Ok _ _ _ _ _ (array_mapM_getPerformance _ world_quarter)).
  assert (E : readPerformance (db world_quarter) <$> ["A"; "B"] =
              [defaultPrior "A"; defaultPrior "B"]) by reflexivity.
  rewrite E. cbn [array_mapM]. unfold defaultPrior. cbn [alpha beta]. unfold ofQ.
  unfold bind, ret.
  rewrite (sampleBeta_quarter 0 _ _ world_quarter (fun _ => eq_refl) H1 H1).
  cbv beta iota.
  rewrite (sampleBeta_quarter 0 _ _ (advance_random 6 world_quarter)
             (fun _ => eq_refl) H1 H1).
  cbv beta iota. rewrite advance_random_add.
  set (s := Fin _).
  change [s; s] with (replicate 2 s). rewrite Math_max_replicate.
  cbn [replicate array_indexOf array_indexOf_from].
  rewrite num_eqb_refl by discriminate. reflexivity.
Qed.

Lemma rows_in_range_empty (k : string) (row : PerformanceRow) :
  variant_performance emptyDatabase !! k = Some row -> rowInRange row.
Proof. cbn. rewrite lookup_empty. discriminate. Defined.

Lemma thompsonSample_returns_candidate_witness :
  (exists chosen, Some "A" = Some chosen /\ chosen ∈ ["A"; "B"]) /\
  db (advance_random 12 world_quarter) = db world_quarter.
Proof.
  apply (thompsonSample_returns_candidate 2 ["A"; "B"] world_quarter).
  - exact rows_in_range_empty.
  - exact world_quarter_valid.
  - discriminate.
  - exact thompsonSample_quarter.
Defined.

(** ** Sequences of calls *)

Lemma wellFormed_empty : wellFormed emptyDatabase.
Proof.
  split; cbn.
  - constructor.
  - constructor.
  - constructor.
  - exact rows_in_range_empty.
Defined.

(** X18: every sequence of calls of the public methods and of maintenance
    cycles keeps a well-formed store well formed: the variant ids stay
    distinct and 32 characters long, every stored variant has a posterior row,
    and every posterior row has alpha >= 1, beta >= 1, a trial count >= 0 and
    alpha + beta >= trials + 2.  A call that throws is included: the store
    it leaves is well formed too. *)
Theorem calls_keep_store_wellFormed (fuel : nat) (calls : list Call) (w w' : World) :
  wellFormed (db w) ->
  performAll fuel calls w = Some w' ->
  wellFormed (db w').
Proof.
  intros Hwf Hrun. exact (ev_wellFormed _ _ (performAll_evolves _ _ _ _ Hrun) Hwf).
Qed.

Lemma calls_keep_store_wellFormed_witness :
  exists w', performAll 0 session world_quarter = Some w' /\ wellFormed (db w').
Proof.
  eexists. split; [vm_compute; reflexivity|].
  apply (calls_keep_store_wellFormed 0 session world_quarter).
  - exact wellFormed_empty.
  - vm_compute. reflexivity.
Defined.

(** X19: the two histories are append-only: whatever calls are made, the
    feedback records and the preference comparisons stored before are still
    there afterwards, in their order, at the front of the tables. *)
Theorem histories_append_only (fuel : nat) (calls : list Call) (w w' : World) :
  performAll fuel calls w = Some w' ->
  feedback_records (db w) `prefix_of` feedback_records (db w') /\
  preference_comparisons (db w) `prefix_of` preference_comparisons (db w').
Proof.
  intros Hrun. pose proof (performAll_evolves _ _ _ _ Hrun) as H.
  split; [exact (ev_feedback _ _ H) | exact (ev_preferences _ _ H)].
Qed.

Lemma histories_append_only_witness :
  exists w',
    performAll 0 session world_quarter = Some w' /\
    feedback_records (db world_quarter) `prefix_of` feedback_records (db w') /\
    preference_comparisons (db world_quarter) `prefix_of`
      preference_comparisons (db w').
Proof.
  eexists. split; [vm_compute; reflexivity|].
  apply (histories_append_only 0 session world_quarter).
  vm_compute. reflexivity.
Defined.

(** X20: no call removes a posterior row or lowers its alpha, beta or trial
    count: a row stored before a sequence of calls is stored after it, with
    values at least as large. *)
Theorem posteriors_never_shrink (fuel : nat) (calls : list Call) (w w' : World)
    (k : string) (row : PerformanceRow) :
  performAll fuel calls w = Some w' ->
  variant_performance (db w) !! k = Some row ->
  exists row',
    variant_performance (db w') !! k = Some row' /\
    (row_alpha row <= row_alpha row')%Q /\
    (row_beta row <= row_beta row')%Q /\
    total_trials row <= total_trials row'.
Proof.
  intros Hrun Hrow. exact (ev_posteriors _ _ (performAll_evolves _ _ _ _ Hrun) k row Hrow).
Qed.

Lemma posteriors_never_shrink_witness :
  exists w' row',
    performAll 0 session world_pool = Some w' /\
    variant_performance (db w') !! "c3" = Some row' /\
    (3 <= row_alpha row')%Q /\ (1 <= row_beta row')%Q /\ 3 <= total_trials row'.
Proof.
  assert (Hrun : performAll 0 session world_pool =
                 Some (default world_pool (performAll 0 session world_pool))).
  { vm_compute. reflexivity. }
  destruct (posteriors_never_shrink 0 session world_pool _ "c3"
              (mkPerformanceRow 3 1 3 1 10 1) Hrun eq_refl) as (row' & H).
  exists (default world_pool (performAll 0 session world_pool)), row'.
  split; [exact Hrun | exact H].
Defined.

(** X21: an exploration rate that starts at 5/100 or above (the class
    starts at 3/10) never rises and never falls below 5/100, whatever calls
    are made. *)
Theorem explorationRate_never_rises (fuel : nat) (calls : list Call) (w w' : World) :
  (5 # 100 <= explorationRate w)%Q ->
  performAll fuel calls w = Some w' ->
  (5 # 100 <= explorationRate w' <= explorationRate w)%Q.
Proof.
  intros Hfloor Hrun. exact (ev_rate _ _ (performAll_evolves _ _ _ _ Hrun) Hfloor).
Qed.

Lemma explorationRate_never_rises_witness :
  exists w',
    performAll 0 session world_quarter = Some w' /\
    (5 # 100 <= explorationRate w' <= explorationRate world_quarter)%Q.
Proof.
  eexists. split; [vm_compute; reflexivity|].
  apply (explorationRate_never_rises 0 session world_quarter).
  - unfold Qle; cbn; lia.
  - vm_compute. reflexivity.
Defined.

Lemma performAll_queries_unchanged (fuel : nat) (calls : list Call) :
  Forall isQuery calls ->
  forall w w', performAll fuel calls w = Some w' -> unchanged w w'.
Proof.
  induction 1 as [|c rest Hc Hrest IH]; intros w w' Hrun; cbn [performAll] in Hrun.
  - injection Hrun as <-. reflexivity.
  - pose proof (perform_query_unchanged fuel c Hc w) as Hq.
    destruct (perform fuel c w) as [[] w1|e w1|]; [| |discriminate];
      (etransitivity; [exact Hq | exact (IH _ _ Hrun)]).
Qed.

(** X22: [thompsonSample], [evaluateABTest], [contextualBanditSelect],
    [getAllVariants] and [getVariantStats] only read: after any sequence of
    such calls, returning or throwing, the four tables and the exploration
    rate are what they were. *)
Theorem queries_change_nothing (fuel : nat) (calls : list Call) (w w' : World) :
  Forall isQuery calls ->
  performAll fuel calls w = Some w' ->
  db w' = db w /\ explorationRate w' = explorationRate w.
Proof.
  intros Hq Hrun.
  destruct (performAll_queries_unchanged fuel calls Hq w w' Hrun) as (_ & Hdb & Hrate).
  auto.
Qed.

Lemma queries_change_nothing_witness :
  exists w',
    performAll 0 queries world_pool = Some w' /\
    db w' = db world_pool /\ explorationRate w' = explorationRate world_pool.
Proof.
  eexists. split; [vm_compute; reflexivity|].
  apply (queries_change_nothing 0 queries world_pool).
  - repeat constructor.
  - vm_compute. reflexivity.
Defined.

(** X23: a maintenance cycle that completes has multiplied the exploration
    rate by 95/100, with 5/100 as floor, once; a cycle that throws, as the
    evolution step does on an empty breeding pool or on a repeated id, leaves
    the rate as it was. *)
Theorem maintenanceCycle_decay (w : World) :
  match maintenanceCycle w with
  | Ok _ w' =>
      explorationRate w' = Qmax (5 # 100) (explorationRate w * (95 # 100))
  | Throw _ w' => explorationRate w' = explorationRate w
  | OutOfFuel => True
  end.
Proof.
  unfold maintenanceCycle. unfold bind at 1. rewrite pruneLowPerformers_run.
  unfold bind at 1.
  pose proof (evolvePrompts_storeGrows 5 2 (pruned w)) as Hev.
  destruct (evolvePrompts 5 2 (pruned w)) as [ids w1|e w1|]; [| |exact I].
  - unfold_m. cbn. now rewrite (sg_rate _ _ Hev).
  - exact (sg_rate _ _ Hev).
Qed.
